(** * The ensemble inference workflow of [examples/02_ensemble_workflow.py]

    A shallow embedding of [run_ensemble] together with the pieces of Python,
    NumPy and PyTorch it relies on, and the properties of the workflow
    contract (number and order of writes, schema declaration, ensemble
    broadcast, failure propagation, termination).

    Layout:
    - [Dict]      insertion-ordered dictionaries (Python [dict]);
    - [Np]        one-dimensional NumPy arrays used as coordinate axes;
    - [Torch]     dense tensors as a shape and a row-major buffer;
    - [Env]       the collaborators [run_ensemble] is given or imports;
    - [Workflow]  the run monad and [run_ensemble] ([prepare], then
                  [inference_loop]); a run yields an outcome, the final
                  state of the sink and the trace of what it did;
    - [Demo]      a small concrete setup on which runs compute;
    - facts about the models, then the properties of [run_ensemble] and
      their instances on the concrete setup. *)

From Stdlib Require Import ZArith String Bool Arith Lia List Sorted FinFun.
Import ListNotations.

Set Implicit Arguments.

(** ** Python exceptions and fallible pure computations *)

Inductive exn : Type :=
| KeyError (key : string)
| TypeError (msg : string)
| ValueError (msg : string)
| RuntimeError (msg : string)
| OtherError (name : string).

Inductive result (A : Type) : Type :=
| Ok (a : A)
| Raise (e : exn).

Arguments Ok {A} a.
Arguments Raise {A} e.

Definition result_bind {A B} (r : result A) (f : A -> result B) : result B :=
  match r with
  | Ok a => f a
  | Raise e => Raise e
  end.

(** [[f(i) for i in l]] where [f] may raise: evaluated left to right, the
    first exception ends the comprehension. *)
Fixpoint list_comp {A B} (f : A -> result B) (l : list A) : result (list B) :=
  match l with
  | [] => Ok []
  | a :: r =>
      result_bind (f a) (fun b =>
      result_bind (list_comp f r) (fun bs => Ok (b :: bs)))
  end.

(** [range(n)] for a Python integer [n]: empty when [n <= 0]. *)
Definition range (n : Z) : list Z := map Z.of_nat (seq 0 (Z.to_nat n)).

(** ** Insertion-ordered dictionaries with string keys *)

Module Dict.
Section Defs.
Variable V : Type.

Definition t := list (string * V).

Definition keys (d : t) : list string := map fst d.

(** [d[k]] / [k in d] *)
Fixpoint get (k : string) (d : t) : option V :=
  match d with
  | [] => None
  | (k', v) :: r => if String.eqb k k' then Some v else get k r
  end.

(** [d[k] = v]: an existing key keeps its position, a new key goes last. *)
Fixpoint set (k : string) (v : V) (d : t) : t :=
  match d with
  | [] => [(k, v)]
  | (k', v') :: r =>
      if String.eqb k k' then (k, v) :: r else (k', v') :: set k v r
  end.

(** [d1 | d2]: the entries of [d1], updated and extended by those of [d2]
    in the order of [d2]. *)
Definition union (d1 d2 : t) : t :=
  fold_left (fun acc kv => set (fst kv) (snd kv) acc) d2 d1.

(** [del d[k]] *)
Fixpoint remove (k : string) (d : t) : t :=
  match d with
  | [] => []
  | (k', v) :: r =>
      if String.eqb k k' then r else (k', v) :: remove k r
  end.

(** [d.pop(k)]: the value and the dictionary without the key;
    [KeyError] when the key is absent. *)
Definition pop (k : string) (d : t) : result (V * t) :=
  match get k d with
  | Some v => Ok (v, remove k d)
  | None => Raise (KeyError k)
  end.

(** [d[k]] as an expression. *)
Definition getitem (k : string) (d : t) : result V :=
  match get k d with
  | Some v => Ok v
  | None => Raise (KeyError k)
  end.

(** Keys of a dictionary are pairwise distinct. *)
Definition wf (d : t) : Prop := NoDup (keys d).
End Defs.
End Dict.

(** ** NumPy arrays used as coordinate axes *)

Module Np.
Section Defs.
(** Floating-point numbers are kept abstract: the workflow only moves
    them around, adds them and multiplies them by integers. *)
Variable float : Type.
Variable fmul_int : float -> Z -> float.

(** A one-dimensional array tagged by its dtype; [datetime64] and
    [timedelta64] values are integer tick counts. *)
Inductive ndarray : Type :=
| ArrInt (l : list Z)
| ArrDatetime (l : list Z)
| ArrTimedelta (l : list Z)
| ArrStr (l : list string)
| ArrFloat (l : list float).

Definition size (a : ndarray) : nat :=
  match a with
  | ArrInt l | ArrDatetime l | ArrTimedelta l => length l
  | ArrStr l => length l
  | ArrFloat l => length l
  end.

(** [np.arange(n)] *)
Definition arange (n : Z) : ndarray := ArrInt (range n).

(** Integer and [timedelta64] entries are 64-bit signed integers: their
    arithmetic wraps around, and the least of them is [NaT] in a
    [timedelta64] array. *)
Definition int64_min : Z := (- 9223372036854775808)%Z.
Definition int64_max : Z := 9223372036854775807%Z.

Definition in_int64 (z : Z) : bool :=
  (int64_min <=? z)%Z && (z <=? int64_max)%Z.

Definition wrap64 (z : Z) : Z :=
  ((z - int64_min) mod 18446744073709551616 + int64_min)%Z.

Definition NaT : Z := int64_min.

Definition int64_mul (v i : Z) : Z := wrap64 (v * i).

(** [NaT] times anything is [NaT]; any other product is the int64
    product, which reads as [NaT] when it wraps to [int64_min]. *)
Definition timedelta_mul (v i : Z) : Z :=
  if (v =? NaT)%Z then NaT else wrap64 (v * i).

(** [a * i] for a Python integer [i]; dates and strings do not multiply,
    and NumPy refuses an integer that is no int64. *)
Definition mul_int (a : ndarray) (i : Z) : result ndarray :=
  match a with
  | ArrInt l =>
      if in_int64 i then Ok (ArrInt (map (fun v => int64_mul v i) l))
      else Raise (OtherError "OverflowError")
  | ArrTimedelta l =>
      if in_int64 i then Ok (ArrTimedelta (map (fun v => timedelta_mul v i) l))
      else Raise (OtherError "OverflowError")
  | ArrFloat l => Ok (ArrFloat (map (fun v => fmul_int v i) l))
  | ArrDatetime _ => Raise (TypeError "datetime64 * int")
  | ArrStr _ => Raise (TypeError "str * int")
  end.

Definition append (a b : ndarray) : result ndarray :=
  match a, b with
  | ArrInt x, ArrInt y => Ok (ArrInt (x ++ y))
  | ArrDatetime x, ArrDatetime y => Ok (ArrDatetime (x ++ y))
  | ArrTimedelta x, ArrTimedelta y => Ok (ArrTimedelta (x ++ y))
  | ArrStr x, ArrStr y => Ok (ArrStr (x ++ y))
  | ArrFloat x, ArrFloat y => Ok (ArrFloat (x ++ y))
  | _, _ => Raise (TypeError "mixed dtypes")
  end.

Fixpoint concat_rows (a : ndarray) (rest : list ndarray) : result ndarray :=
  match rest with
  | [] => Ok a
  | b :: r => result_bind (concat_rows b r) (append a)
  end.

(** [np.asarray(rows).flatten()] for rows of one dtype and one length:
    the rows laid end to end. An empty list of rows gives the empty
    float64 array. *)
Definition asarray_flatten (rows : list ndarray) : result ndarray :=
  match rows with
  | [] => Ok (ArrFloat [])
  | a :: r => concat_rows a r
  end.
End Defs.
End Np.

(** ** PyTorch tensors *)

Module Torch.
Section Defs.
Variable float : Type.
Variable fadd : float -> float -> float.
Variable fzero : float.

(** A dense tensor: its sizes and its elements in row-major order. *)
Record Tensor : Type := mkTensor { shape : list nat; data : list float }.

Definition numel (sh : list nat) : nat := fold_right Nat.mul 1 sh.

Definition ndim (x : Tensor) : nat := length (shape x).

(** The buffer holds exactly the elements the shape announces. *)
Definition wf (x : Tensor) : Prop := length (data x) = numel (shape x).

(** [torch.zeros(sh)] *)
Definition zeros (sh : list nat) : Tensor :=
  mkTensor sh (List.repeat fzero (numel sh)).

(** [x.unsqueeze(0)] *)
Definition unsqueeze0 (x : Tensor) : Tensor :=
  mkTensor (1 :: shape x) (data x).

(** [count] consecutive blocks of [sz] elements. *)
Fixpoint chunks (A : Type) (count sz : nat) (d : list A) : list (list A) :=
  match count with
  | O => []
  | S c => firstn sz d :: chunks c sz (skipn sz d)
  end.

(** Tiling of a row-major buffer of shape [sh]: axis [k] is repeated
    [reps[k]] times. *)
Fixpoint tile (A : Type) (reps sh : list nat) (d : list A) : list A :=
  match reps, sh with
  | r :: reps', s :: sh' =>
      List.concat
        (List.repeat
           (flat_map (tile reps' sh') (chunks s (numel sh') d)) r)
  | _, _ => d
  end.

Definition pad_ones (n : nat) (sh : list nat) : list nat :=
  List.repeat 1 (n - length sh) ++ sh.

(** Sizes after each axis of [sh] is repeated [reps[k]] times. *)
Definition scaled (reps sh : list nat) : list nat :=
  map (fun p => fst p * snd p) (combine reps sh).

(** [x.repeat(r0, r1, ...)]: needs at least one repeat per axis and no negative
    repeat; missing leading axes of [x] count as size 1. *)
Definition repeat (reps : list Z) (x : Tensor) : result Tensor :=
  if length reps <? ndim x then
    Raise (RuntimeError "repeat: fewer repeats than dimensions")
  else if existsb (fun r => r <? 0)%Z reps then
    Raise (RuntimeError "repeat: negative dimension")
  else
    let sh := pad_ones (length reps) (shape x) in
    let rs := map Z.to_nat reps in
    Ok (mkTensor (scaled rs sh) (tile rs sh (data x))).

(** [x[i]] on the leading axis. *)
Definition select0 (i : nat) (x : Tensor) : Tensor :=
  let sz := numel (tl (shape x)) in
  mkTensor (tl (shape x)) (firstn sz (skipn (i * sz) (data x))).

(** Size of the leading axis, [x.shape[0]]. *)
Definition size0 (x : Tensor) : option nat := hd_error (shape x).

(** Broadcasting of [src] onto [dst] for an in-place operation: [src] has
    no more axes than [dst] and, aligned on the right, every axis of [src]
    is 1 or equal to the one of [dst]. *)
Definition broadcastable (src dst : list nat) : bool :=
  (length src <=? length dst) &&
  forallb (fun p => (fst p =? snd p) || (fst p =? 1))
          (combine (pad_ones (length dst) src) dst).

Definition expand_reps (src dst : list nat) : list nat :=
  map (fun p => if fst p =? snd p then 1 else snd p)
      (combine (pad_ones (length dst) src) dst).

Definition expand_as (y : Tensor) (dst : list nat) : list float :=
  tile (expand_reps (shape y) dst) (pad_ones (length dst) (shape y)) (data y).

Fixpoint zip_with (A B C : Type) (f : A -> B -> C) (l : list A) (m : list B)
  : list C :=
  match l, m with
  | a :: l', b :: m' => f a b :: zip_with f l' m'
  | _, _ => []
  end.

(** [x += y]: [x] keeps its shape, [y] is broadcast onto it. *)
Definition iadd (x y : Tensor) : result Tensor :=
  if broadcastable (shape y) (shape x) then
    Ok (mkTensor (shape x) (zip_with fadd (data x) (expand_as y (shape x))))
  else
    Raise (RuntimeError "output shape does not match the broadcast shape").
End Defs.
End Torch.

(** ** The workflow *)

Inductive device : Type := Cuda | Cpu.

Definition device_name (d : device) : string :=
  match d with Cuda => "cuda" | Cpu => "cpu" end.

(** An entry of the [time] argument: a string, a [datetime] or a
    [np.datetime64], the last two as tick counts. *)
Inductive TimeLike : Type :=
| TStr (s : string)
| TDatetime (t : Z)
| TDatetime64 (t : Z).

Inductive level : Type := INFO | SUCCESS.

(** Coordinate system: dimension name to coordinate values, in axis order. *)
Definition CoordSystem (float : Type) : Type := Dict.t (Np.ndarray float).

(** One [next()] on the prognostic sequence. *)
Inductive next_result (float Iterator : Type) : Type :=
| Yield (x : Torch.Tensor float) (coords : CoordSystem float) (rest : Iterator)
| StopIteration
| NextRaise (e : exn).

Arguments StopIteration {float Iterator}.
Arguments NextRaise {float Iterator} e.

(** *** Collaborators

    Everything [run_ensemble] receives or imports and does not define: the
    arithmetic of tensor elements, the machine, the prognostic model, the
    perturbation method, the data source, the sink and the coordinate
    helpers of the toolkit. *)
Class Env : Type := {
  float : Type;
  fadd : float -> float -> float;
  fmul_int : float -> Z -> float;
  fzero : float;

  (** [torch.cuda.is_available()] *)
  cuda_is_available : bool;
  (** [np.datetime64(s)]; [None] when the string is not a date. *)
  parse_datetime64 : string -> option Z;

  PrognosticModel : Type;
  DataSource : Type;
  (** A reference to a sink object, and the state of the object behind it. *)
  IOBackend : Type;
  SinkState : Type;
  (** A running prognostic sequence. *)
  Iterator : Type;
  (** Hidden randomness a perturbation method or a prognostic model may draw
      from; two runs on the same arguments differ at most by it. *)
  Omega : Type;

  prognostic_to : PrognosticModel -> device -> result PrognosticModel;
  input_coords : PrognosticModel -> CoordSystem float;
  output_coords : PrognosticModel -> CoordSystem float;
  create_iterator :
    PrognosticModel -> Omega -> Torch.Tensor float -> CoordSystem float ->
    result Iterator;
  iter_next : Omega -> Iterator -> next_result float Iterator;

  perturbation_method :
    Omega -> Torch.Tensor float -> CoordSystem float ->
    result (Torch.Tensor float);

  class_name : DataSource -> string;
  fetch_data :
    DataSource -> Np.ndarray float -> Np.ndarray float -> Np.ndarray float ->
    device -> result (Torch.Tensor float * CoordSystem float);

  map_coords :
    Torch.Tensor float -> CoordSystem float -> CoordSystem float ->
    result (Torch.Tensor float * CoordSystem float);
  extract_coords :
    Torch.Tensor float -> CoordSystem float ->
    result (list (Torch.Tensor float) * CoordSystem float * Np.ndarray float);

  io_add_array :
    IOBackend -> CoordSystem float -> Np.ndarray float ->
    SinkState -> option exn * SinkState;
  io_write :
    IOBackend -> list (Torch.Tensor float) -> CoordSystem float ->
    Np.ndarray float -> SinkState -> option exn * SinkState
}.

Inductive outcome (A : Type) : Type :=
| Done (a : A)
| Failed (e : exn)
| OutOfFuel.

Arguments Done {A} a.
Arguments Failed {A} e.
Arguments OutOfFuel {A}.

Section Workflow.
Context {E : Env}.

Notation ndarray := (Np.ndarray float).
Notation Tensor := (Torch.Tensor float).
Notation Coords := (CoordSystem float).

(** *** Events and the run monad *)

(** The calls [run_ensemble] makes on its collaborators and on the
    libraries. [step] in the loop calls is the index [enumerate] gives to
    the iteration that makes the call. *)
Inductive call : Type :=
| CallTo (d : device)
| CallToTimeArray (time : list TimeLike)
| CallFetchData (time lead_time variable : ndarray) (d : device)
| CallAddArray (coords : Coords) (names : ndarray)
| CallMapCoords
| CallPerturbation
| CallIAdd
| CallCreateIterator
| CallNext (step : Z)
| CallExtractCoords (step : Z)
| CallWrite (step : Z) (x : list Tensor) (coords : Coords) (names : ndarray).

(** What an observer of a run sees, in order: log lines, calls with the
    exception they raised if any, the end of the prognostic sequence and
    the progress bar. *)
Inductive event : Type :=
| Log (l : level) (msg : string)
| Call (c : call) (raised : option exn)
| Exhausted (step : Z)
| PbarOpen (total : Z)
| PbarUpdate (n : Z)
| PbarClose.

(** A computation reads and updates the sink and emits events. *)
Definition M (A : Type) : Type :=
  SinkState -> outcome A * SinkState * list event.

Definition ret {A} (a : A) : M A := fun s => (Done a, s, []).

Definition bind {A B} (m : M A) (k : A -> M B) : M B := fun s =>
  match m s with
  | (Done a, s1, t1) =>
      match k a s1 with
      | (r, s2, t2) => (r, s2, t1 ++ t2)
      end
  | (Failed e, s1, t1) => (Failed e, s1, t1)
  | (OutOfFuel, s1, t1) => (OutOfFuel, s1, t1)
  end.

Definition emit (ev : event) : M unit := fun s => (Done tt, s, [ev]).

(** A Python-level operation that may raise. *)
Definition eval {A} (r : result A) : M A := fun s =>
  match r with
  | Ok a => (Done a, s, [])
  | Raise e => (Failed e, s, [])
  end.

(** A call that returns or raises, recorded in the trace. *)
Definition invoke {A} (c : call) (r : result A) : M A := fun s =>
  match r with
  | Ok a => (Done a, s, [Call c None])
  | Raise e => (Failed e, s, [Call c (Some e)])
  end.

(** A method call on the sink. *)
Definition sink_call (c : call) (f : SinkState -> option exn * SinkState)
  : M unit := fun s =>
  match f s with
  | (None, s') => (Done tt, s', [Call c None])
  | (Some e, s') => (Failed e, s', [Call c (Some e)])
  end.

Definition diverge {A} : M A := fun s => (OutOfFuel, s, []).

(** [with tqdm(total=...) as pbar: body]: the bar is closed when the body
    is left, normally or by an exception. *)
Definition with_tqdm {A} (total : Z) (body : M A) : M A := fun s =>
  match body s with
  | (OutOfFuel, s', t) => (OutOfFuel, s', PbarOpen total :: t)
  | (r, s', t) => (r, s', PbarOpen total :: t ++ [PbarClose])
  end.

Notation "x <- m ;; k" := (bind m (fun x => k))
  (at level 61, m at next level, right associativity).
Notation "' p <- m ;; k" := (bind m (fun x => match x with p => k end))
  (at level 61, p pattern, m at next level, right associativity).
Notation "m ;; k" := (bind m (fun _ => k))
  (at level 61, right associativity).

(** *** Time resolution *)

Definition to_datetime64 (ts : TimeLike) : result Z :=
  match ts with
  | TStr s =>
      match parse_datetime64 s with
      | Some t => Ok t
      | None => Raise (ValueError "unparsable time")
      end
  | TDatetime t => Ok t
  | TDatetime64 t => Ok t
  end.

(** Modelled from the spec: [earth2studio.utils.time.to_time_array] is
    imported by the example and not defined in it. The spec has it
    "resolve [time] into a canonical timestamp array" and fail "if [time]
    is empty or unparsable". *)
Definition to_time_array (time : list TimeLike) : result ndarray :=
  match time with
  | [] => Raise (ValueError "empty time list")
  | _ :: _ =>
      result_bind (list_comp to_datetime64 time)
                  (fun l => Ok (Np.ArrDatetime float l))
  end.

(** *** [run_ensemble] *)

(** [torch.device("cuda" if torch.cuda.is_available() else "cpu")],
    line 115. *)
Definition selected_device : device :=
  if cuda_is_available then Cuda else Cpu.

(** [x.unsqueeze(0).repeat(nensemble, *([1] * x.ndim))], line 130. *)
Definition expand_ensemble (nensemble : Z) (x : Tensor) : result Tensor :=
  Torch.repeat (nensemble :: List.repeat 1%Z (Torch.ndim x))
               (Torch.unsqueeze0 x).

(** [np.asarray([prognostic.output_coords["lead_time"] * i
                 for i in range(nsteps + 1)]).flatten()], lines 135-137. *)
Definition lead_time_axis (prognostic : PrognosticModel) (nsteps : Z)
  : result ndarray :=
  result_bind
    (list_comp
       (fun i =>
          result_bind (Dict.getitem "lead_time" (output_coords prognostic))
                      (fun a => Np.mul_int fmul_int a i))
       (range (nsteps + 1)))
    (@Np.asarray_flatten float).

(** [{"ensemble": np.arange(nensemble)} | coords], line 131. *)
Definition ensemble_coords (nensemble : Z) (coords : Coords) : Coords :=
  Dict.union [("ensemble"%string, Np.arange float nensemble)] coords.

(** Lines 134-139: [total_coords] is a copy of [coords] whose
    ["lead_time"] entry is set to the lead-time axis and whose
    ["variable"] entry is popped; the result is [(var_names,
    total_coords)], the two arguments of [io.add_array] in reverse. *)
Definition output_schema (prognostic : PrognosticModel) (nsteps : Z)
    (coords : Coords) : result (ndarray * Coords) :=
  let total_coords := coords in
  result_bind (lead_time_axis prognostic nsteps) (fun lead =>
  let total_coords := Dict.set "lead_time" lead total_coords in
  Dict.pop "variable" total_coords).

(** Lines 113-151: everything up to the creation of the iterator. *)
Definition prepare (time : list TimeLike) (nsteps nensemble : Z)
    (prognostic : PrognosticModel) (w : Omega) (data : DataSource)
    (io : IOBackend) : M Iterator :=
  emit (Log INFO "Running simple workflow!") ;;
  let device := selected_device in
  emit (Log INFO ("Inference device: " ++ device_name device)) ;;
  prognostic <- invoke (CallTo device) (prognostic_to prognostic device) ;;
  time <- invoke (CallToTimeArray time) (to_time_array time) ;;
  lead_time <- eval (Dict.getitem "lead_time" (input_coords prognostic)) ;;
  variable <- eval (Dict.getitem "variable" (input_coords prognostic)) ;;
  ' (x, coords) <- invoke (CallFetchData time lead_time variable device)
                     (fetch_data data time lead_time variable device) ;;
  emit (Log SUCCESS ("Fetched data from " ++ class_name data)) ;;
  x <- eval (expand_ensemble nensemble x) ;;
  let coords := ensemble_coords nensemble coords in
  ' (var_names, total_coords) <- eval (output_schema prognostic nsteps
                                                     coords) ;;
  sink_call (CallAddArray total_coords var_names)
            (io_add_array io total_coords var_names) ;;
  ' (x, coords) <- invoke CallMapCoords
                     (map_coords x coords (input_coords prognostic)) ;;
  noise <- invoke CallPerturbation (perturbation_method w x coords) ;;
  x <- invoke CallIAdd (Torch.iadd fadd x noise) ;;
  model <- invoke CallCreateIterator (create_iterator prognostic w x coords) ;;
  emit (Log INFO "Inference starting!") ;;
  ret model.

(** Lines 153-157: the [for] loop over [enumerate(model)], entered at
    index [step]. Each unit of fuel pays for one [next()]. *)
Fixpoint inference_loop (fuel : nat) (nsteps : Z) (w : Omega)
    (io : IOBackend) (step : Z) (model : Iterator) : M unit :=
  match fuel with
  | O => diverge
  | S fuel' =>
      match iter_next w model with
      | StopIteration => emit (Exhausted step)
      | NextRaise e => invoke (CallNext step) (Raise e)
      | Yield x coords model' =>
          emit (Call (CallNext step) None) ;;
          ' (xs, c, names) <- invoke (CallExtractCoords step)
                                (extract_coords x coords) ;;
          sink_call (CallWrite step xs c names) (io_write io xs c names) ;;
          emit (PbarUpdate 1) ;;
          if (step =? nsteps)%Z then ret tt
          else inference_loop fuel' nsteps w io (step + 1)%Z model'
      end
  end.

(** The whole function; the result is the [io] reference. *)
Definition run_ensemble (fuel : nat) (time : list TimeLike)
    (nsteps nensemble : Z) (prognostic : PrognosticModel) (w : Omega)
    (data : DataSource) (io : IOBackend) : M IOBackend :=
  model <- prepare time nsteps nensemble prognostic w data io ;;
  with_tqdm (nsteps + 1) (inference_loop fuel nsteps w io 0%Z model) ;;
  emit (Log SUCCESS "Inference complete") ;;
  ret io.

End Workflow.

(** ** Observations on a run *)

(** The three components of a finished computation. *)
Definition outcome_of {A S T} (r : outcome A * S * T) : outcome A :=
  fst (fst r).
Definition sink_of {A S T} (r : outcome A * S * T) : S := snd (fst r).
Definition trace_of {A S T} (r : outcome A * S * T) : T := snd r.

Section Observations.
Context {E : Env}.

Notation ndarray := (Np.ndarray float).
Notation Tensor := (Torch.Tensor float).
Notation Coords := (CoordSystem float).

Definition is_call (ev : event) : bool :=
  match ev with Call _ _ => true | _ => false end.

Definition is_fetch (ev : event) : bool :=
  match ev with Call (CallFetchData _ _ _ _) _ => true | _ => false end.

Definition is_add_array (ev : event) : bool :=
  match ev with Call (CallAddArray _ _) _ => true | _ => false end.

Definition is_write (ev : event) : bool :=
  match ev with Call (CallWrite _ _ _ _) _ => true | _ => false end.

(** The exception an event carries, if it is a call that raised. *)
Definition raised (ev : event) : option exn :=
  match ev with Call _ r => r | _ => None end.

(** The calls [io.write] of a trace, and the loop indices they were
    made at. *)
Definition writes (t : list event) : list event := filter is_write t.

Definition write_steps (t : list event) : list Z :=
  flat_map (fun ev => match ev with
                      | Call (CallWrite k _ _ _) _ => [k]
                      | _ => []
                      end) t.

(** The tensors handed to [io.write] by an event. *)
Definition written_tensors (ev : event) : list Tensor :=
  match ev with Call (CallWrite _ xs _ _) _ => xs | _ => [] end.

Definition declarations (t : list event) : list event :=
  filter is_add_array t.

(** The element of index [k] of a prognostic sequence, when the sequence
    gets that far. *)
Fixpoint iter_nth (w : Omega) (k : nat) (it : Iterator)
  : option (Tensor * Coords) :=
  match iter_next w it with
  | Yield x c rest =>
      match k with
      | O => Some (x, c)
      | S k' => iter_nth w k' rest
      end
  | _ => None
  end.

(** *** The output schema in the words of the specification

    "the fetch coordinates plus an ensemble dimension plus a lead-time
    axis of length [nsteps+1] spaced by the prognostic's native step size
    ... variable names excluded". *)

Definition spec_lead_times (dt nsteps : Z) : ndarray :=
  Np.ArrTimedelta float (map (fun i => i * dt)%Z (range (nsteps + 1))).

Fixpoint spec_with_lead_time (lead : ndarray) (d : Coords) : Coords :=
  match d with
  | [] => [("lead_time"%string, lead)]
  | (k, v) :: r =>
      if String.eqb k "lead_time" then (k, lead) :: r
      else (k, v) :: spec_with_lead_time lead r
  end.

Definition spec_schema (fetched : Coords) (nensemble nsteps dt : Z)
  : Coords :=
  ("ensemble"%string, Np.ArrInt float (range nensemble))
    :: spec_with_lead_time
         (spec_lead_times dt nsteps)
         (filter (fun kv => negb (String.eqb (fst kv) "variable")) fetched).

(** An all-zero noise field: a well-formed tensor of zeros. *)
Definition all_zero (y : Tensor) : Prop :=
  Torch.wf y /\ Forall (eq fzero) (Torch.data y).

(** *** Properties of traces used by the theorems *)

(** No event of the trace is a call that raised. *)
Definition quiet (t : list event) : Prop :=
  Forall (fun ev => raised ev = None) t.

(** Failures stop the run: a trace either has no raising call, or it ends
    with the raising call, followed by nothing but the closing of the
    progress bar, and the run fails with that exception. *)
Definition fail_stop {A} (r : outcome A) (t : list event) : Prop :=
  match r with
  | Done _ | OutOfFuel => quiet t
  | Failed e =>
      quiet t \/
      exists t0 c cl,
        t = t0 ++ Call c (Some e) :: cl /\
        quiet t0 /\ Forall (fun ev => is_call ev = false) cl
  end.

(** The events of an iteration that wrote its element. *)
Definition iteration_events (step : Z) (xs : list (Torch.Tensor float))
    (c : CoordSystem float) (names : Np.ndarray float) : list event :=
  [Call (CallNext step) None; Call (CallExtractCoords step) None;
   Call (CallWrite step xs c names) None; PbarUpdate 1].

(** How [run_ensemble] ends once the loop is left with outcome [r]: its
    own outcome and the events after those of the loop. *)
Definition run_epilogue (io : IOBackend) (r : outcome unit)
  : outcome IOBackend * list event :=
  match r with
  | Done _ => (Done io, [PbarClose; Log SUCCESS "Inference complete"])
  | Failed e => (Failed e, [PbarClose])
  | OutOfFuel => (OutOfFuel, [])
  end.

(** The schema is declared exactly once and first: one call of
    [io.add_array] splits the trace, nothing is written or declared before
    it, nothing is declared after it, and it has returned if anything is
    written after it. *)
Definition declared_once_first (t : list event) : Prop :=
  exists before sc names o after,
    t = before ++ Call (CallAddArray sc names) o :: after /\
    writes before = [] /\ declarations before = [] /\
    declarations after = [] /\
    (writes after <> [] -> o = None).

Definition fail_stopping {A} (m : M A) : Prop :=
  forall s, fail_stop (outcome_of (m s)) (trace_of (m s)).

(** What a completed preparation (lines 113-151) has established: every
    call returned, with these values, and these events were emitted. *)
Inductive prepared (time : list TimeLike) (nsteps nensemble : Z)
    (prognostic : PrognosticModel) (w : Omega) (data : DataSource)
    (io : IOBackend) (s : SinkState)
  : Iterator -> SinkState -> list event -> Prop :=
| Prepared (p' : PrognosticModel) (tm lt var : ndarray)
    (x0 : Tensor) (c0 : Coords) (xe : Tensor)
    (names : ndarray) (total : Coords) (s' : SinkState)
    (xm : Tensor) (cm : Coords) (noise xp : Tensor) (it : Iterator) :
    prognostic_to prognostic selected_device = Ok p' ->
    to_time_array time = Ok tm ->
    Dict.getitem "lead_time" (input_coords p') = Ok lt ->
    Dict.getitem "variable" (input_coords p') = Ok var ->
    fetch_data data tm lt var selected_device = Ok (x0, c0) ->
    expand_ensemble nensemble x0 = Ok xe ->
    output_schema p' nsteps (ensemble_coords nensemble c0)
      = Ok (names, total) ->
    io_add_array io total names s = (None, s') ->
    map_coords xe (ensemble_coords nensemble c0) (input_coords p')
      = Ok (xm, cm) ->
    perturbation_method w xm cm = Ok noise ->
    Torch.iadd fadd xm noise = Ok xp ->
    create_iterator p' w xp cm = Ok it ->
    prepared time nsteps nensemble prognostic w data io s it s'
      [Log INFO "Running simple workflow!";
       Log INFO ("Inference device: " ++ device_name selected_device);
       Call (CallTo selected_device) None;
       Call (CallToTimeArray time) None;
       Call (CallFetchData tm lt var selected_device) None;
       Log SUCCESS ("Fetched data from " ++ class_name data);
       Call (CallAddArray total names) None;
       Call CallMapCoords None;
       Call CallPerturbation None;
       Call CallIAdd None;
       Call CallCreateIterator None;
       Log INFO "Inference starting!"].
End Observations.

(** ** Further observations: counts, the progress bar, the sink replayed *)

Section MoreObservations.
Context {E : Env}.

(** Number of events of a trace that satisfy [p]. *)
Definition count (p : event -> bool) (t : list event) : nat :=
  length (filter p t).

Definition is_pbar_open (ev : event) : bool :=
  match ev with PbarOpen _ => true | _ => false end.

Definition is_pbar_update (ev : event) : bool :=
  match ev with PbarUpdate _ => true | _ => false end.

Definition is_pbar_close (ev : event) : bool :=
  match ev with PbarClose => true | _ => false end.

(** A call of [io.write] that returned. *)
Definition is_returned_write (ev : event) : bool :=
  match ev with Call (CallWrite _ _ _ _) None => true | _ => false end.

(** A [next()] on the prognostic sequence that yielded or raised. *)
Definition is_next (ev : event) : bool :=
  match ev with Call (CallNext _) _ => true | _ => false end.

(** The calls made between the declaration of the schema and the loop:
    lines 143-149. *)
Definition is_alignment_call (c : call) : bool :=
  match c with
  | CallMapCoords | CallPerturbation | CallIAdd | CallCreateIterator => true
  | _ => false
  end.

(** The trace [t] accounts for the sink: started in state [s], the sink
    calls of [t], made in that order on the object behind [io], return what
    [t] records for them and leave the sink in state [s']. *)
Fixpoint replays (io : IOBackend) (s : SinkState) (t : list event)
    (s' : SinkState) : Prop :=
  match t with
  | [] => s' = s
  | Call (CallAddArray c names) o :: t' =>
      fst (io_add_array io c names s) = o /\
      replays io (snd (io_add_array io c names s)) t' s'
  | Call (CallWrite _ xs c names) o :: t' =>
      fst (io_write io xs c names s) = o /\
      replays io (snd (io_write io xs c names s)) t' s'
  | _ :: t' => replays io s t' s'
  end.

(** The sequence [it] yields exactly [m] elements and then ends. *)
Fixpoint ends_after (w : Omega) (m : nat) (it : Iterator) : Prop :=
  match m with
  | O => iter_next w it = StopIteration
  | S m' =>
      exists x c rest,
        iter_next w it = Yield x c rest /\ ends_after w m' rest
  end.

(** The rows [lead * i] for [i] in [range(nsteps + 1)], laid end to end:
    what lines 135-137 build from a lead-time array of any length. *)
Definition stacked_lead_times (lead : list Z) (nsteps : Z) : list Z :=
  flat_map (fun i => map (fun v => Np.timedelta_mul v i) lead)
           (range (nsteps + 1)).

(** The same rows with exact products. *)
Definition exact_lead_times (lead : list Z) (nsteps : Z) : list Z :=
  flat_map (fun i => map (fun v => v * i)%Z lead) (range (nsteps + 1)).

(** No product [v * i], [i = 0 .. nsteps], leaves the int64 timedelta
    values: [v] is not [NaT], and [nsteps] and [nsteps * v] are int64. *)
Definition no_overflow (v nsteps : Z) : Prop :=
  (nsteps <= Np.int64_max)%Z /\ v <> Np.NaT /\
  (Np.int64_min <= nsteps * v <= Np.int64_max)%Z.
End MoreObservations.

(** ** A small concrete setup

    Integer "floats", a persistence-like prognostic model, a data source
    that serves a counting field and a sink that records what it is given.
    It is used to run the workflow on concrete inputs. *)

Module Demo.
Definition tensor : Type := Torch.Tensor Z.
Definition coords : Type := CoordSystem Z.
Definition array : Type := Np.ndarray Z.

(** A model with a native step, possibly moved to a device. *)
Record model : Type := mkModel {
  native_step : Z;
  placed_on : option device;
  variables : list string
}.

Record source : Type := mkSource {
  source_name : string;
  available : bool;
  lat : list Z
}.

Record iterator : Type := mkIterator {
  it_state : tensor;
  it_coords : coords;
  it_index : Z;
  it_step : Z
}.

Record sink : Type := mkSink {
  declared : option (coords * array);
  stored : list (list tensor * coords * array)
}.

Definition empty_sink : sink := mkSink None [].

Definition model_coords (m : model) : coords :=
  [("lead_time"%string, Np.ArrTimedelta Z [0%Z]);
   ("variable"%string, Np.ArrStr Z (variables m))].

Definition model_output_coords (m : model) : coords :=
  [("lead_time"%string, Np.ArrTimedelta Z [native_step m]);
   ("variable"%string, Np.ArrStr Z (variables m))].

(** The field served for a request: one value per grid point, counting
    from zero. *)
Definition fetch (src : source) (time lead variable : array) (d : device)
  : result (tensor * coords) :=
  if available src then
    let sh := [Np.size time; Np.size lead; Np.size variable;
               length (lat src)] in
    Ok (Torch.mkTensor sh (map Z.of_nat (seq 0 (Torch.numel sh))),
        [("time"%string, time); ("lead_time"%string, lead);
         ("variable"%string, variable);
         ("lat"%string, Np.ArrFloat (lat src))])
  else Raise (OtherError "requested variables are unavailable").

(** Noise of the shape of the state: [amplitude * (w + position)]. *)
Definition perturb (amplitude : Z) (w : nat) (x : tensor) (c : coords)
  : result tensor :=
  Ok (Torch.mkTensor (Torch.shape x)
        (map (fun i => amplitude * (Z.of_nat w + Z.of_nat i))%Z
             (seq 0 (Torch.numel (Torch.shape x))))).

Definition start (m : model) (w : nat) (x : tensor) (c : coords)
  : result iterator :=
  Ok (mkIterator x c 0 (native_step m)).

(** The sequence starts with its initial state and then adds one to every
    element at each step; with a horizon [Some n] it ends after [n]
    elements. *)
Definition next (horizon : option Z) (w : nat) (it : iterator)
  : next_result Z iterator :=
  let item :=
    Yield (it_state it)
          (Dict.set "lead_time"
             (Np.ArrTimedelta Z [(it_index it * it_step it)%Z])
             (it_coords it))
          (mkIterator
             (Torch.mkTensor (Torch.shape (it_state it))
                             (map (Z.add 1) (Torch.data (it_state it))))
             (it_coords it) (it_index it + 1) (it_step it))
  in
  match horizon with
  | None => item
  | Some n => if (n <=? it_index it)%Z then StopIteration else item
  end.

Definition extract (x : tensor) (c : coords)
  : result (list tensor * coords * array) :=
  result_bind (Dict.pop "variable" c) (fun p => Ok ([x], snd p, fst p)).

Definition add_array (io : nat) (c : coords) (names : array) (s : sink)
  : option exn * sink :=
  match declared s with
  | Some _ => (Some (RuntimeError "array already declared"), s)
  | None => (None, mkSink (Some (c, names)) (stored s))
  end.

Definition write (io : nat) (xs : list tensor) (c : coords) (names : array)
    (s : sink) : option exn * sink :=
  match declared s with
  | None => (Some (RuntimeError "array not declared"), s)
  | Some _ => (None, mkSink (declared s) (stored s ++ [(xs, c, names)]))
  end.

Definition env (amplitude : Z) (horizon : option Z) : Env := {|
  float := Z;
  fadd := Z.add;
  fmul_int := Z.mul;
  fzero := 0%Z;
  cuda_is_available := false;
  parse_datetime64 := fun s =>
    if String.eqb s "2024-01-01" then Some 19723%Z else None;
  PrognosticModel := model;
  DataSource := source;
  IOBackend := nat;
  SinkState := sink;
  Iterator := iterator;
  Omega := nat;
  prognostic_to := fun m d =>
    Ok (mkModel (native_step m) (Some d) (variables m));
  input_coords := model_coords;
  output_coords := model_output_coords;
  create_iterator := start;
  iter_next := next horizon;
  perturbation_method := perturb amplitude;
  class_name := source_name;
  fetch_data := fetch;
  map_coords := fun x c _ => Ok (x, c);
  extract_coords := extract;
  io_add_array := add_array;
  io_write := write
|}.

Definition fcn : model := mkModel 6 None ["t2m"%string; "u10m"%string].
Definition gfs : source := mkSource "GFS" true [90; 0; -90]%Z.
Definition offline : source := mkSource "GFS" false [90; 0; -90]%Z.
Definition new_year : list TimeLike := [TStr "2024-01-01"].

(** [run_ensemble(time, nsteps, nensemble, fcn, sg, data, io)] on the
    demo setup, from an empty sink, with sink reference 7. *)
Definition run (amplitude : Z) (horizon : option Z) (fuel : nat)
    (time : list TimeLike) (nsteps nensemble : Z) (w : nat) (data : source)
  : outcome nat * sink * list (@event (env amplitude horizon)) :=
  @run_ensemble (env amplitude horizon) fuel time nsteps nensemble fcn w
                data 7 empty_sink.
(** A forecast of two steps for two members. *)
Definition forecast : outcome nat * sink * list (@event (env 1 None)) :=
  run 1 None 3 new_year 2 2 5 gfs.

(** The same request when the data source cannot serve it. *)
Definition outage : outcome nat * sink * list (@event (env 1 None)) :=
  run 1 None 3 new_year 2 2 5 offline.

(** The same request without a time. *)
Definition timeless : outcome nat * sink * list (@event (env 1 None)) :=
  run 1 None 3 [] 2 2 5 gfs.

(** A negative number of steps, observed for four iterations. *)
Definition runaway : outcome nat * sink * list (@event (env 1 None)) :=
  run 1 None 4 new_year (-1) 2 5 gfs.

(** A forecast with a perturbation of amplitude zero, drawing [w]. *)
Definition calm (w : nat) : outcome nat * sink * list (@event (env 0 None)) :=
  run 0 None 3 new_year 2 2 w gfs.

(** The tensor the data source serves for [forecast], and its broadcast. *)
Definition served : tensor :=
  Torch.mkTensor [1; 1; 2; 3] [0; 1; 2; 3; 4; 5]%Z.

Definition served_twice : tensor :=
  Torch.mkTensor [2; 1; 1; 2; 3] [0; 1; 2; 3; 4; 5; 0; 1; 2; 3; 4; 5]%Z.

(** The schema [forecast] declares and its channel list. *)
Definition forecast_schema : coords :=
  [("ensemble"%string, Np.ArrInt Z [0; 1]%Z);
   ("time"%string, Np.ArrDatetime Z [19723%Z]);
   ("lead_time"%string, Np.ArrTimedelta Z [0; 6; 12]%Z);
   ("lat"%string, Np.ArrFloat [90; 0; -90]%Z)].

Definition forecast_channels : array := Np.ArrStr Z (variables fcn).

(** The scenario of the specification: ten steps of six hours for eight
    members. *)
Definition ten_steps : outcome nat * sink * list (@event (env 1 None)) :=
  run 1 None 11 new_year 10 8 5 gfs.

(** A model whose sequence ends after two elements, asked for three
    steps. *)
Definition short_sequence
  : outcome nat * sink * list (@event (env 1 (Some 2%Z))) :=
  run 1 (Some 2%Z) 9 new_year 3 2 5 gfs.

(** A negative number of members. *)
Definition negative_members : outcome nat * sink * list (@event (env 1 None)) :=
  run 1 None 3 new_year 2 (-1) 5 gfs.

(** Collaborators that break their side of the contract, one switch per
    fault: a data source whose coordinates do not name the variables, a
    perturbation whose noise does not fit the state, a model without an
    input lead time, a model that outputs two lead times per step, a data
    source whose coordinates already have an ["ensemble"] entry. *)
Record faults : Type := mkFaults {
  drops_variable : bool;
  misshapen_noise : bool;
  lacks_input_lead_time : bool;
  two_lead_times : bool;
  names_ensemble : bool
}.

Definition fetch_unnamed (src : source) (time lead variable : array)
    (d : device) : result (tensor * coords) :=
  result_bind (fetch src time lead variable d)
              (fun r => Ok (fst r, Dict.remove "variable" (snd r))).

Definition fetch_labelled (src : source) (time lead variable : array)
    (d : device) : result (tensor * coords) :=
  result_bind (fetch src time lead variable d)
              (fun r => Ok (fst r,
                            snd r ++ [("ensemble"%string,
                                       Np.ArrInt Z [10; 11; 12]%Z)])).

Definition misfit (w : nat) (x : tensor) (c : coords) : result tensor :=
  Ok (Torch.mkTensor [7] (List.repeat 1%Z 7)).

Definition faulty_env (f : faults) : Env := {|
  float := Z;
  fadd := Z.add;
  fmul_int := Z.mul;
  fzero := 0%Z;
  cuda_is_available := false;
  parse_datetime64 := fun s =>
    if String.eqb s "2024-01-01" then Some 19723%Z else None;
  PrognosticModel := model;
  DataSource := source;
  IOBackend := nat;
  SinkState := sink;
  Iterator := iterator;
  Omega := nat;
  prognostic_to := fun m d =>
    Ok (mkModel (native_step m) (Some d) (variables m));
  input_coords := fun m =>
    if lacks_input_lead_time f
    then [("variable"%string, Np.ArrStr Z (variables m))]
    else model_coords m;
  output_coords := fun m =>
    if two_lead_times f
    then [("lead_time"%string,
           Np.ArrTimedelta Z [native_step m; (2 * native_step m)%Z]);
          ("variable"%string, Np.ArrStr Z (variables m))]
    else model_output_coords m;
  create_iterator := start;
  iter_next := next None;
  perturbation_method := if misshapen_noise f then misfit else perturb 1;
  class_name := source_name;
  fetch_data :=
    if drops_variable f then fetch_unnamed
    else if names_ensemble f then fetch_labelled else fetch;
  map_coords := fun x c _ => Ok (x, c);
  extract_coords := extract;
  io_add_array := add_array;
  io_write := write
|}.

Definition faulty_run (f : faults) (nsteps : Z)
  : outcome nat * sink * list (@event (faulty_env f)) :=
  @run_ensemble (faulty_env f) 3 new_year nsteps 2 fcn 5 gfs 7 empty_sink.

Definition unnamed : faults := mkFaults true false false false false.
Definition misshapen : faults := mkFaults false true false false false.
Definition leadless : faults := mkFaults false false true false false.
Definition doubled : faults := mkFaults false false false true false.
Definition labelled : faults := mkFaults false false false false true.

(** The schema declared when the model outputs the lead times [6, 12] per
    step and two steps are asked for. *)
Definition doubled_schema : coords :=
  [("ensemble"%string, Np.ArrInt Z [0; 1]%Z);
   ("time"%string, Np.ArrDatetime Z [19723%Z]);
   ("lead_time"%string, Np.ArrTimedelta Z [0; 0; 6; 12; 12; 24]%Z);
   ("lat"%string, Np.ArrFloat [90; 0; -90]%Z)].

(** The schema declared when the data source labels three members
    [10, 11, 12] and two members are asked for. *)
Definition labelled_schema : coords :=
  [("ensemble"%string, Np.ArrInt Z [10; 11; 12]%Z);
   ("time"%string, Np.ArrDatetime Z [19723%Z]);
   ("lead_time"%string, Np.ArrTimedelta Z [0; 6; 12]%Z);
   ("lat"%string, Np.ArrFloat [90; 0; -90]%Z)].

(** A model whose native step is [2^62] ticks, so that twice the step is
    no int64, asked for two steps; and the schema that run declares. *)
Definition glacial : model :=
  mkModel 4611686018427387904 None ["t2m"%string; "u10m"%string].

Definition overflowing : outcome nat * sink * list (@event (env 1 None)) :=
  @run_ensemble (env 1 None) 3 new_year 2 2 glacial 5 gfs 7 empty_sink.

Definition overflowing_schema : coords :=
  [("ensemble"%string, Np.ArrInt Z [0; 1]%Z);
   ("time"%string, Np.ArrDatetime Z [19723%Z]);
   ("lead_time"%string,
    Np.ArrTimedelta Z [0; 4611686018427387904; -9223372036854775808]%Z);
   ("lat"%string, Np.ArrFloat [90; 0; -90]%Z)].

(** The schema declared by [runaway], where [nsteps = -1]. *)
Definition runaway_schema : coords :=
  [("ensemble"%string, Np.ArrInt Z [0; 1]%Z);
   ("time"%string, Np.ArrDatetime Z [19723%Z]);
   ("lead_time"%string, Np.ArrFloat []);
   ("lat"%string, Np.ArrFloat [90; 0; -90]%Z)].
End Demo.

(** * Proof automation *)

(** Comparisons of dimension names are decided by [String.eqb_spec] or by
    computation on literals, never unfolded. *)
#[local] Arguments String.eqb : simpl never.

Ltac eqb_lit :=
  repeat match goal with
    | |- context [String.eqb ?a ?b] =>
        let r := eval vm_compute in (String.eqb a b) in
        match r with
        | true => change (String.eqb a b) with true
        | false => change (String.eqb a b) with false
        end
    end.

Ltac dict_simpl := repeat (progress (cbn; eqb_lit)).

(** Case analysis on every fallible step of a computation in [M]. *)
Ltac unfold_run :=
  unfold bind, emit, eval, invoke, sink_call, ret, diverge.

Ltac split_result :=
  match goal with
  | |- context [match ?r with Ok _ => _ | Raise _ => _ end] =>
      let H := fresh "Hcall" in destruct r as [?|?] eqn:H
  | |- context [match io_add_array ?io ?c ?n ?s with (_, _) => _ end] =>
      let H := fresh "Hcall" in
      destruct (io_add_array io c n s) as [[?|] ?] eqn:H
  | |- context [match io_write ?io ?x ?c ?n ?s with (_, _) => _ end] =>
      let H := fresh "Hcall" in
      destruct (io_write io x c n s) as [[?|] ?] eqn:H
  | |- context [match ?r with (_, _) => _ end] =>
      is_var r; destruct r as [? ?]
  end.

Ltac prepare_cases :=
  unfold prepare; unfold_run; repeat (split_result; cbn [app]).

(** * Facts about the library models *)

(** ** Lists *)

Lemma range_length (n : Z) : length (range n) = Z.to_nat n.
Proof. unfold range. now rewrite length_map, length_seq. Qed.

Lemma range_succ (n : Z) :
  (0 <= n)%Z -> range (n + 1) = range n ++ [n].
Proof.
  intros Hn. unfold range.
  replace (Z.to_nat (n + 1)) with (Z.to_nat n + 1) by lia.
  rewrite seq_app, map_app. cbn [seq map Nat.add].
  now rewrite Z2Nat.id.
Qed.

Lemma range_nth (n : Z) (i : nat) :
  i < Z.to_nat n -> nth i (range n) 0%Z = Z.of_nat i.
Proof.
  intros Hi. unfold range.
  change 0%Z with (Z.of_nat 0). rewrite map_nth, seq_nth; auto.
Qed.

Lemma range_sorted (n : Z) : StronglySorted Z.lt (range n).
Proof.
  unfold range. generalize 0. induction (Z.to_nat n) as [|m IH]; intros k.
  - constructor.
  - cbn [seq map]. constructor; [apply IH|].
    apply Forall_forall. intros z Hz.
    apply in_map_iff in Hz as (j & <- & Hj). apply in_seq in Hj. lia.
Qed.

Lemma range_NoDup (n : Z) : NoDup (range n).
Proof.
  unfold range. apply Injective_map_NoDup.
  - intros a b. apply Nat2Z.inj.
  - apply seq_NoDup.
Qed.

Lemma list_comp_total {A B} (f : A -> result B) (g : A -> B) (l : list A) :
  (forall a, In a l -> f a = Ok (g a)) -> list_comp f l = Ok (map g l).
Proof.
  induction l as [|a l IH]; intros H; cbn [list_comp map]; auto.
  rewrite (H a) by now left. cbn [result_bind].
  rewrite IH by (intros; apply H; now right). reflexivity.
Qed.

Lemma list_comp_raises {A B} (f : A -> result B) (l : list A) (a : A) :
  In a l -> (exists e, f a = Raise e) -> exists e, list_comp f l = Raise e.
Proof.
  induction l as [|b l IH]; intros Hin Hf; [easy|].
  cbn [list_comp]. destruct Hin as [->|Hin].
  - destruct Hf as (e & ->). now exists e.
  - destruct (f b); cbn [result_bind]; [|eauto].
    destruct (IH Hin Hf) as (e & ->). now exists e.
Qed.

(** ** Dictionaries *)

Module DictFacts.
Section Facts.
Variable V : Type.
Implicit Types (d : Dict.t V) (k : string) (v : V).

Lemma get_none_iff k d : Dict.get k d = None <-> ~ In k (Dict.keys d).
Proof.
  induction d as [|[k' v'] d IH]; cbn; [tauto|].
  destruct (String.eqb_spec k k') as [->|Hne].
  - split; [discriminate|]. intros H. exfalso. apply H. now left.
  - rewrite IH. cbn. intuition congruence.
Qed.

Lemma set_fresh k v d :
  ~ In k (Dict.keys d) -> Dict.set k v d = d ++ [(k, v)].
Proof.
  induction d as [|[k' v'] d IH]; cbn; intros H; [reflexivity|].
  destruct (String.eqb_spec k k') as [->|Hne]; [tauto|].
  rewrite IH; tauto.
Qed.

Lemma union_fresh d1 d2 :
  Dict.wf d2 -> (forall k, In k (Dict.keys d2) -> ~ In k (Dict.keys d1)) ->
  Dict.union d1 d2 = d1 ++ d2.
Proof.
  unfold Dict.union, Dict.wf. revert d1.
  induction d2 as [|[k v] d2 IH]; intros d1 Hnd Hdis; cbn.
  - now rewrite app_nil_r.
  - cbn in Hnd. inversion Hnd as [|? ? Hk Hnd']; subst.
    rewrite set_fresh by (apply Hdis; now left).
    rewrite IH; auto.
    + now rewrite <- app_assoc.
    + intros k' Hk' Hin. unfold Dict.keys in Hin.
      rewrite map_app in Hin. apply in_app_or in Hin as [Hin|[<-|[]]].
      * apply (Hdis k'); [now right | exact Hin].
      * now apply Hk.
Qed.

Lemma remove_absent k d : ~ In k (Dict.keys d) -> Dict.remove k d = d.
Proof.
  induction d as [|[k' v'] d IH]; cbn; intros H; [reflexivity|].
  destruct (String.eqb_spec k k') as [->|Hne]; [tauto|].
  rewrite IH; tauto.
Qed.

Lemma filter_absent k d :
  ~ In k (Dict.keys d) ->
  filter (fun kv => negb (String.eqb (fst kv) k)) d = d.
Proof.
  induction d as [|[k' v'] d IH]; cbn; intros H; [reflexivity|].
  destruct (String.eqb_spec k' k) as [->|Hne]; [tauto|].
  cbn. rewrite IH; tauto.
Qed.

Lemma remove_filter k d :
  Dict.wf d ->
  Dict.remove k d = filter (fun kv => negb (String.eqb (fst kv) k)) d.
Proof.
  unfold Dict.wf.
  induction d as [|[k' v'] d IH]; cbn; intros H; [reflexivity|].
  inversion H as [|? ? Hk Hnd]; subst.
  rewrite (String.eqb_sym k' k).
  destruct (String.eqb_spec k k') as [->|Hne]; cbn.
  - now rewrite filter_absent.
  - now rewrite IH.
Qed.

Lemma get_set_other k k' v d :
  k <> k' -> Dict.get k (Dict.set k' v d) = Dict.get k d.
Proof.
  intros Hne. induction d as [|[k2 v2] d IH]; cbn.
  - now rewrite (proj2 (String.eqb_neq k k')).
  - destruct (String.eqb_spec k' k2) as [->|Hne2]; cbn.
    + now rewrite (proj2 (String.eqb_neq k k2)).
    + now rewrite IH.
Qed.

Lemma get_set_same k v d : Dict.get k (Dict.set k v d) = Some v.
Proof.
  induction d as [|[k2 v2] d IH]; cbn.
  - now rewrite String.eqb_refl.
  - destruct (String.eqb_spec k k2) as [->|Hne]; cbn.
    + now rewrite String.eqb_refl.
    + now rewrite (proj2 (String.eqb_neq k k2)).
Qed.

Lemma get_remove_same k d : Dict.wf d -> Dict.get k (Dict.remove k d) = None.
Proof.
  unfold Dict.wf.
  induction d as [|[k2 v2] d IH]; cbn; intros H; [reflexivity|].
  inversion H as [|? ? Hk Hnd]; subst.
  destruct (String.eqb_spec k k2) as [->|Hne]; cbn.
  - now apply get_none_iff.
  - rewrite (proj2 (String.eqb_neq k k2)) by assumption. auto.
Qed.

Lemma get_remove_other k k' d :
  k <> k' -> Dict.get k (Dict.remove k' d) = Dict.get k d.
Proof.
  intros Hne. induction d as [|[k2 v2] d IH]; cbn; [reflexivity|].
  destruct (String.eqb_spec k' k2) as [->|Hne2]; cbn.
  - now rewrite (proj2 (String.eqb_neq k k2)).
  - now rewrite IH.
Qed.
End Facts.
End DictFacts.

(** ** Coordinate axes and the output schema *)

Section SchemaFacts.
Context {E : Env}.

Notation ndarray := (Np.ndarray float).
Notation Coords := (CoordSystem float).

Lemma concat_rows_timedelta (h : Z -> Z) (a : Z) (l : list Z) :
  Np.concat_rows (Np.ArrTimedelta float [a])
                 (map (fun i => Np.ArrTimedelta float [h i]) l)
  = Ok (Np.ArrTimedelta float (a :: map h l)).
Proof.
  revert a. induction l as [|b l IH]; intros a; cbn [map Np.concat_rows].
  - reflexivity.
  - rewrite IH. reflexivity.
Qed.

Lemma range_cons (n : Z) :
  (0 <= n)%Z ->
  range (n + 1) = 0%Z :: map Z.of_nat (seq 1 (Z.to_nat n)).
Proof.
  intros Hn. unfold range.
  replace (Z.to_nat (n + 1)) with (S (Z.to_nat n)) by lia. reflexivity.
Qed.

Lemma range_In (n i : Z) : In i (range n) -> (0 <= i < n)%Z.
Proof.
  unfold range. intros Hin. apply in_map_iff in Hin as (k & <- & Hk).
  apply in_seq in Hk. lia.
Qed.

(** Within the int64 values the timedelta product is the exact one. *)
Lemma timedelta_mul_exact (v n i : Z) :
  no_overflow v n -> (0 <= i <= n)%Z ->
  Np.in_int64 i = true /\ Np.timedelta_mul v i = (v * i)%Z.
Proof.
  unfold no_overflow, Np.in_int64, Np.timedelta_mul, Np.wrap64, Np.NaT,
    Np.int64_min, Np.int64_max.
  intros (Hn & Hv & Hlo & Hhi) Hi. split.
  - apply andb_true_iff. split; apply Z.leb_le; lia.
  - rewrite (proj2 (Z.eqb_neq _ _) Hv).
    rewrite Z.mod_small; [lia|].
    assert (- 9223372036854775808 <= v * i <= 9223372036854775807)%Z
      by nia.
    lia.
Qed.

(** With a single native step [dt] the lead-time axis is
    [0, dt, 2 dt, ..., nsteps dt], as long as no product overflows. *)
Lemma lead_time_axis_single (p : PrognosticModel) (nsteps dt : Z) :
  (0 <= nsteps)%Z ->
  Dict.get "lead_time" (output_coords p) = Some (Np.ArrTimedelta float [dt]) ->
  no_overflow dt nsteps ->
  lead_time_axis p nsteps = Ok (spec_lead_times dt nsteps).
Proof.
  intros Hn Hdt Hfit. unfold lead_time_axis, spec_lead_times.
  rewrite (list_comp_total _ (fun i => Np.ArrTimedelta float [(dt * i)%Z])).
  2:{ intros i Hi. apply range_In in Hi.
      unfold Dict.getitem. rewrite Hdt. cbn [result_bind Np.mul_int map].
      destruct (@timedelta_mul_exact dt nsteps i Hfit) as [-> ->];
        [lia | reflexivity]. }
  cbn [result_bind]. rewrite range_cons by assumption.
  cbn [map Np.asarray_flatten].
  rewrite (concat_rows_timedelta (fun i => (dt * i)%Z)).
  do 2 f_equal. f_equal; [lia|].
  apply map_ext. intros; lia.
Qed.

(** Without steps to take ([nsteps < 0]) the axis is empty and the native
    step is not even looked up. *)
Lemma lead_time_axis_negative (p : PrognosticModel) (nsteps : Z) :
  (nsteps < 0)%Z -> lead_time_axis p nsteps = Ok (Np.ArrFloat []).
Proof.
  intros Hn. unfold lead_time_axis, range.
  replace (Z.to_nat (nsteps + 1)) with 0 by lia. reflexivity.
Qed.

Lemma ensemble_coords_fresh (nensemble : Z) (c : Coords) :
  Dict.wf c -> ~ In "ensemble"%string (Dict.keys c) ->
  ensemble_coords nensemble c
  = ("ensemble"%string, Np.ArrInt float (range nensemble)) :: c.
Proof.
  intros Hwf Hfresh. unfold ensemble_coords.
  rewrite DictFacts.union_fresh; auto.
  intros k Hk [<-|[]]. contradiction.
Qed.

Lemma set_lead_time_spec (lead : ndarray) (c : Coords) :
  Dict.set "lead_time" lead c = spec_with_lead_time lead c.
Proof.
  induction c as [|[k v] c IH]; cbn; [reflexivity|].
  rewrite (String.eqb_sym k).
  destruct (String.eqb_spec "lead_time" k) as [<-|Hne]; [reflexivity|].
  now rewrite IH.
Qed.

Lemma remove_variable_spec (lead : ndarray) (c : Coords) :
  Dict.wf c ->
  Dict.remove "variable" (Dict.set "lead_time" lead c)
  = spec_with_lead_time lead
      (filter (fun kv => negb (String.eqb (fst kv) "variable")) c).
Proof.
  unfold Dict.wf.
  induction c as [|[k v] c IH]; intros Hnd; [reflexivity|].
  cbn in Hnd. inversion Hnd as [|? ? Hk Hnd']; subst.
  cbn [Dict.set filter fst].
  destruct (String.eqb_spec "lead_time" k) as [<-|Hlt].
  - dict_simpl. f_equal. now apply DictFacts.remove_filter.
  - destruct (String.eqb_spec k "variable") as [->|Hv].
    + dict_simpl. rewrite DictFacts.filter_absent by assumption.
      apply set_lead_time_spec.
    + cbn. rewrite (proj2 (String.eqb_neq "variable" k)) by congruence.
      rewrite (proj2 (String.eqb_neq k "lead_time")) by congruence.
      f_equal. now apply IH.
Qed.

(** The schema the code computes is the schema of the specification. *)
Lemma output_schema_spec (p : PrognosticModel) (nsteps nensemble dt : Z)
    (c : Coords) (names : ndarray) :
  (0 <= nsteps)%Z ->
  Dict.get "lead_time" (output_coords p) = Some (Np.ArrTimedelta float [dt]) ->
  no_overflow dt nsteps ->
  Dict.wf c -> ~ In "ensemble"%string (Dict.keys c) ->
  Dict.get "variable" c = Some names ->
  output_schema p nsteps (ensemble_coords nensemble c)
  = Ok (names, spec_schema c nensemble nsteps dt).
Proof.
  intros Hn Hdt Hfit Hwf Hfresh Hvar. unfold output_schema.
  rewrite (lead_time_axis_single _ Hn Hdt Hfit). cbn [result_bind].
  rewrite ensemble_coords_fresh by assumption.
  unfold Dict.pop. cbn [Dict.set Dict.get]. eqb_lit.
  cbn [Dict.get]. eqb_lit.
  rewrite DictFacts.get_set_other by discriminate. rewrite Hvar.
  cbn [Dict.remove]. eqb_lit.
  unfold spec_schema. now rewrite remove_variable_spec.
Qed.
End SchemaFacts.

(** ** Tensors *)

Module TorchFacts.
Section Buffers.
Variable A : Type.
Implicit Types (d : list A) (sh reps : list nat).

Lemma chunks_concat count sz d :
  length d = count * sz -> concat (Torch.chunks count sz d) = d.
Proof.
  revert d. induction count as [|c IH]; intros d Hlen; cbn.
  - destruct d; [reflexivity | discriminate].
  - rewrite IH; [apply firstn_skipn|]. rewrite length_skipn. lia.
Qed.

Lemma chunks_block count sz d c :
  length d = count * sz -> In c (Torch.chunks count sz d) -> length c = sz.
Proof.
  revert d. induction count as [|n IH]; intros d Hlen; cbn; [tauto|].
  intros [<-|Hin].
  - rewrite length_firstn. lia.
  - apply (IH (skipn sz d)); [rewrite length_skipn; lia | assumption].
Qed.

Lemma chunks_repeat (z : A) count sz :
  Torch.chunks count sz (List.repeat z (count * sz))
  = List.repeat (List.repeat z sz) count.
Proof.
  induction count as [|c IH]; cbn [Torch.chunks List.repeat]; [reflexivity|].
  replace (S c * sz) with (sz + c * sz) by lia.
  rewrite repeat_app, firstn_app, skipn_app, repeat_length, Nat.sub_diag.
  rewrite firstn_all2, skipn_all2 by (rewrite repeat_length; lia).
  rewrite firstn_O, skipn_O, app_nil_r. cbn [app]. now rewrite IH.
Qed.

Lemma flat_map_fixed (f : list A -> list A) (l : list (list A)) :
  (forall c, In c l -> f c = c) -> flat_map f l = concat l.
Proof.
  induction l as [|c l IH]; intros H; cbn; [reflexivity|].
  rewrite H by now left. f_equal. apply IH. intros; apply H; now right.
Qed.

Lemma flat_map_repeat (f : list A -> list A) (c : list A) n :
  flat_map f (List.repeat c n) = concat (List.repeat (f c) n).
Proof. induction n as [|n IH]; cbn; [reflexivity | now rewrite IH]. Qed.

Lemma concat_repeat_repeat (z : A) m n :
  concat (List.repeat (List.repeat z m) n) = List.repeat z (n * m).
Proof.
  induction n as [|n IH]; cbn; [reflexivity|].
  now rewrite IH, repeat_app.
Qed.

(** Repeating every axis once leaves the buffer as it is. *)
Lemma tile_ones sh d :
  length d = Torch.numel sh ->
  Torch.tile (List.repeat 1 (length sh)) sh d = d.
Proof.
  revert d. induction sh as [|s sh IH]; intros d Hlen; [reflexivity|].
  cbn [length List.repeat Torch.tile concat]. rewrite app_nil_r.
  cbn in Hlen.
  rewrite flat_map_fixed; [now apply chunks_concat|].
  intros c Hc. apply IH. eapply chunks_block; eauto.
Qed.

(** Tiling a constant buffer gives a constant buffer of the tiled size. *)
Lemma tile_constant (z : A) reps sh :
  length reps = length sh ->
  Torch.tile reps sh (List.repeat z (Torch.numel sh))
  = List.repeat z (Torch.numel (Torch.scaled reps sh)).
Proof.
  revert sh. induction reps as [|r reps IH]; intros [|s sh] Hlen;
    try discriminate; [reflexivity|].
  cbn [Torch.tile]. cbn [Torch.numel fold_right].
  fold (Torch.numel sh). rewrite chunks_repeat, flat_map_repeat.
  rewrite IH by (cbn in Hlen; lia).
  rewrite concat_repeat_repeat, concat_repeat_repeat.
  unfold Torch.scaled. cbn [combine map fst snd Torch.numel fold_right].
  f_equal. fold (Torch.scaled reps sh).
  fold (Torch.numel (Torch.scaled reps sh)). lia.
Qed.

Lemma skipn_concat_repeat d i n :
  i <= n ->
  skipn (i * length d) (concat (List.repeat d n))
  = concat (List.repeat d (n - i)).
Proof.
  revert n. induction i as [|i IH]; intros n Hi.
  - now rewrite Nat.sub_0_r.
  - destruct n as [|n]; [lia|]. cbn [List.repeat concat].
    replace (S i * length d) with (i * length d + length d) by lia.
    rewrite <- skipn_skipn, skipn_app, skipn_all, Nat.sub_diag.
    rewrite skipn_O. cbn [app]. rewrite IH by lia. reflexivity.
Qed.

Lemma slice_concat_repeat d i n :
  i < n ->
  firstn (length d) (skipn (i * length d) (concat (List.repeat d n))) = d.
Proof.
  intros Hi. rewrite skipn_concat_repeat by lia.
  replace (n - i) with (S (n - i - 1)) by lia. cbn [List.repeat concat].
  rewrite firstn_app, firstn_all, Nat.sub_diag. cbn. apply app_nil_r.
Qed.
End Buffers.

Section Shapes.
Lemma numel_ones n : Torch.numel (List.repeat 1 n) = 1.
Proof.
  unfold Torch.numel.
  induction n as [|n IH]; cbn; [reflexivity | rewrite IH; lia].
Qed.

Lemma numel_app sh1 sh2 :
  Torch.numel (sh1 ++ sh2) = Torch.numel sh1 * Torch.numel sh2.
Proof.
  unfold Torch.numel.
  induction sh1 as [|s sh1 IH]; cbn; [lia | rewrite IH; lia].
Qed.

Lemma numel_pad_ones n sh : Torch.numel (Torch.pad_ones n sh) = Torch.numel sh.
Proof. unfold Torch.pad_ones. rewrite numel_app, numel_ones. lia. Qed.

Lemma pad_ones_length n sh :
  length sh <= n -> length (Torch.pad_ones n sh) = n.
Proof.
  intros H. unfold Torch.pad_ones. rewrite length_app, repeat_length. lia.
Qed.

Lemma scaled_ones sh : Torch.scaled (List.repeat 1 (length sh)) sh = sh.
Proof.
  unfold Torch.scaled. induction sh as [|s sh IH]; cbn; [reflexivity|].
  rewrite IH. f_equal. lia.
Qed.

(** The sizes a broadcast produces are those of its destination. *)
Lemma scaled_expand (src dst : list nat) :
  length src = length dst ->
  forallb (fun p => (fst p =? snd p) || (fst p =? 1)) (combine src dst)
  = true ->
  Torch.scaled (map (fun p => if fst p =? snd p then 1 else snd p)
                    (combine src dst)) src
  = dst.
Proof.
  unfold Torch.scaled. revert dst.
  induction src as [|p src IH]; intros [|q dst] Hlen Hall;
    try discriminate; [reflexivity|].
  cbn in Hall |- *. apply andb_prop in Hall as [Hpq Hall].
  rewrite IH by (auto; cbn in Hlen; lia). f_equal.
  destruct (Nat.eqb_spec p q) as [->|Hne]; [lia|].
  cbn in Hpq. apply Nat.eqb_eq in Hpq. lia.
Qed.
End Shapes.
End TorchFacts.

(** ** The ensemble broadcast and the in-place addition *)

Section TensorFacts.
Context {E : Env}.

Notation Tensor := (Torch.Tensor float).

Lemma existsb_negative_ones k :
  existsb (fun r => r <? 0)%Z (List.repeat 1%Z k) = false.
Proof. induction k as [|k IH]; cbn; [reflexivity | exact IH]. Qed.

Lemma to_nat_ones k : map Z.to_nat (List.repeat 1%Z k) = List.repeat 1 k.
Proof. induction k as [|k IH]; cbn; [reflexivity | now rewrite IH]. Qed.

(** What [expand_ensemble] returns, in terms of [Torch.tile]. *)
Lemma expand_ensemble_unfold (n : Z) (x : Tensor) :
  expand_ensemble n x =
  if (n <? 0)%Z then Raise (RuntimeError "repeat: negative dimension")
  else Ok (Torch.mkTensor
             (Z.to_nat n * 1 :: Torch.shape x)
             (Torch.tile (Z.to_nat n :: List.repeat 1 (Torch.ndim x))
                         (1 :: Torch.shape x) (Torch.data x))).
Proof.
  unfold expand_ensemble, Torch.repeat, Torch.ndim.
  cbn [Torch.unsqueeze0 Torch.shape Torch.data length existsb map].
  rewrite repeat_length, Nat.ltb_irrefl, existsb_negative_ones, orb_false_r.
  destruct (n <? 0)%Z; [reflexivity|].
  unfold Torch.pad_ones. cbn [length]. rewrite Nat.sub_diag.
  cbn [List.repeat app combine map fst snd]. rewrite to_nat_ones.
  unfold Torch.scaled at 1. cbn [combine map fst snd].
  fold (Torch.scaled (List.repeat 1 (length (Torch.shape x)))
                     (Torch.shape x)).
  now rewrite TorchFacts.scaled_ones.
Qed.

(** A negative ensemble size is rejected by [repeat]. *)
Lemma expand_ensemble_nonneg (n : Z) (x xe : Tensor) :
  expand_ensemble n x = Ok xe -> (0 <= n)%Z.
Proof.
  rewrite expand_ensemble_unfold.
  destruct (Z.ltb_spec n 0); [discriminate | lia].
Qed.

Lemma expand_ensemble_shape (n : Z) (x xe : Tensor) :
  expand_ensemble n x = Ok xe ->
  Torch.shape xe = Z.to_nat n :: Torch.shape x.
Proof.
  rewrite expand_ensemble_unfold.
  destruct (n <? 0)%Z; [discriminate|]. intros [= <-]. cbn. f_equal. lia.
Qed.

(** On a well-formed tensor the broadcast is [nensemble] copies of the
    buffer laid end to end. *)
Lemma expand_ensemble_spec (n : Z) (x : Tensor) :
  (0 <= n)%Z -> Torch.wf x ->
  expand_ensemble n x
  = Ok (Torch.mkTensor (Z.to_nat n :: Torch.shape x)
          (concat (List.repeat (Torch.data x) (Z.to_nat n)))).
Proof.
  intros Hn Hwf. rewrite expand_ensemble_unfold.
  destruct (Z.ltb_spec n 0); [lia|].
  rewrite Nat.mul_1_r. do 2 f_equal.
  cbn [Torch.tile Torch.chunks flat_map]. rewrite app_nil_r.
  unfold Torch.wf in Hwf. rewrite <- Hwf, firstn_all.
  unfold Torch.ndim. now rewrite TorchFacts.tile_ones.
Qed.

Lemma select0_expand (n : Z) (x xe : Tensor) (i : nat) :
  Torch.wf x -> expand_ensemble n x = Ok xe -> i < Z.to_nat n ->
  Torch.select0 i xe = x.
Proof.
  intros Hwf Hxe Hi.
  rewrite expand_ensemble_spec in Hxe;
    [| eapply expand_ensemble_nonneg; eauto | assumption].
  injection Hxe as <-. unfold Torch.select0.
  cbn [Torch.shape Torch.data tl]. unfold Torch.wf in Hwf. rewrite <- Hwf.
  rewrite TorchFacts.slice_concat_repeat by assumption.
  now destruct x.
Qed.

Lemma iadd_shape (x y z : Tensor) :
  Torch.iadd fadd x y = Ok z -> Torch.shape z = Torch.shape x.
Proof.
  unfold Torch.iadd. destruct Torch.broadcastable; [|discriminate].
  now intros [= <-].
Qed.

(** Whatever its shape, an all-zero field that broadcasts onto [x] adds
    the same zeros to [x]. *)
Lemma iadd_all_zero (x y : Tensor) :
  all_zero y ->
  Torch.broadcastable (Torch.shape y) (Torch.shape x) = true ->
  Torch.iadd fadd x y
  = Ok (Torch.mkTensor (Torch.shape x)
          (Torch.zip_with fadd (Torch.data x)
             (List.repeat fzero (Torch.numel (Torch.shape x))))).
Proof.
  intros [Hwf Hz] Hb. unfold Torch.iadd. rewrite Hb. do 3 f_equal.
  unfold Torch.broadcastable in Hb. apply andb_prop in Hb as [Hlen Hall].
  apply Nat.leb_le in Hlen.
  unfold Torch.expand_as, Torch.expand_reps.
  apply Forall_eq_repeat in Hz. rewrite Hz, Hwf.
  rewrite <- (TorchFacts.numel_pad_ones (length (Torch.shape x))).
  set (P := Torch.pad_ones (length (Torch.shape x)) (Torch.shape y)) in *.
  assert (HP : length P = length (Torch.shape x))
    by now apply TorchFacts.pad_ones_length.
  rewrite TorchFacts.tile_constant
    by now rewrite length_map, length_combine, HP, Nat.min_id.
  now rewrite TorchFacts.scaled_expand.
Qed.
End TensorFacts.

(** * Facts about the workflow *)

(** ** The run monad *)

Section MonadFacts.
Context {E : Env}.

Lemma quiet_app (t1 t2 : list event) :
  quiet (t1 ++ t2) <-> quiet t1 /\ quiet t2.
Proof. apply Forall_app. Qed.

Lemma fail_stop_app {A B} (a : A) (r : outcome B) (t1 t2 : list event) :
  fail_stop (Done a) t1 -> fail_stop r t2 -> fail_stop r (t1 ++ t2).
Proof.
  cbn [fail_stop]. intros H1 H2.
  destruct r as [b|e|]; cbn [fail_stop] in *;
    try (apply quiet_app; now split).
  destruct H2 as [H2|(t0 & c & cl & -> & Hq & Hcl)].
  - left. apply quiet_app; now split.
  - right. exists (t1 ++ t0), c, cl. rewrite <- app_assoc.
    repeat split; auto. apply quiet_app; now split.
Qed.

Lemma fs_ret {A} (a : A) : fail_stopping (ret a).
Proof. intros s. constructor. Qed.

Lemma fs_diverge {A} : fail_stopping (@diverge _ A).
Proof. intros s. constructor. Qed.

Lemma fs_emit (ev : event) : raised ev = None -> fail_stopping (emit ev).
Proof. intros H s. cbn. now constructor. Qed.

Lemma fs_eval {A} (r : result A) : fail_stopping (eval r).
Proof. intros s. unfold eval. destruct r; cbn; [constructor | left; constructor]. Qed.

Lemma fs_invoke {A} (c : call) (r : result A) : fail_stopping (invoke c r).
Proof.
  intros s. unfold invoke. destruct r as [a|e]; cbn.
  - now repeat constructor.
  - right. exists [], c, []. repeat split; constructor.
Qed.

Lemma fs_sink_call (c : call) f : fail_stopping (sink_call c f).
Proof.
  intros s. unfold sink_call. destruct (f s) as [[e|] s']; cbn.
  - right. exists [], c, []. repeat split; constructor.
  - now repeat constructor.
Qed.

Lemma fs_bind {A B} (m : M A) (k : A -> M B) :
  fail_stopping m -> (forall a, fail_stopping (k a)) ->
  fail_stopping (bind m k).
Proof.
  intros Hm Hk s. unfold bind. specialize (Hm s).
  destruct (m s) as [[[a|e|] s1] t1]; cbn in Hm |- *; try assumption.
  specialize (Hk a s1). destruct (k a s1) as [[r s2] t2]. cbn in Hk |- *.
  now apply (fail_stop_app (a := a)).
Qed.

Lemma fs_with_tqdm {A} (total : Z) (m : M A) :
  fail_stopping m -> fail_stopping (with_tqdm total m).
Proof.
  intros Hm s. unfold with_tqdm. specialize (Hm s).
  destruct (m s) as [[[a|e|] s1] t1]; cbn in Hm |- *.
  - constructor; [reflexivity|]. apply quiet_app. split; [assumption|].
    now repeat constructor.
  - destruct Hm as [Hq|(t0 & c & cl & -> & Hq & Hcl)].
    + left. constructor; [reflexivity|]. apply quiet_app.
      split; [assumption | now repeat constructor].
    + right. exists (PbarOpen total :: t0), c, (cl ++ [PbarClose]).
      rewrite <- app_assoc. repeat split.
      * constructor; [reflexivity | assumption].
      * apply Forall_app. split; [assumption | now repeat constructor].
  - constructor; [reflexivity | assumption].
Qed.

Lemma bind_ext {A B} (m m' : M A) (k k' : A -> M B) (s : SinkState) :
  m s = m' s -> (forall a s1, k a s1 = k' a s1) ->
  bind m k s = bind m' k' s.
Proof.
  intros Hm Hk. unfold bind. rewrite Hm.
  destruct (m' s) as [[[a|e|] s1] t1]; auto. now rewrite Hk.
Qed.

(** In a fail-stop trace the raising call is where the trace says. *)
Lemma raising_call_unique (t0 t1 t2 cl : list event) (c c' : call)
    (e e' : exn) :
  quiet t0 -> Forall (fun ev => is_call ev = false) cl ->
  t0 ++ Call c' (Some e') :: cl = t1 ++ Call c (Some e) :: t2 ->
  t1 = t0 /\ c = c' /\ e = e' /\ t2 = cl.
Proof.
  intros Hq Hcl. revert t1.
  induction t0 as [|x t0 IH]; intros [|y t1] Heq; cbn in Heq.
  - injection Heq as -> -> ->. auto.
  - injection Heq as <- Heq. exfalso.
    rewrite Forall_forall in Hcl.
    specialize (Hcl (Call c (Some e))). rewrite Heq in Hcl.
    discriminate Hcl. apply in_or_app. right. now left.
  - injection Heq as -> Heq. inversion Hq as [|? ? Hx _]. discriminate Hx.
  - injection Heq as <- Heq. inversion Hq; subst.
    destruct (IH ltac:(assumption) _ Heq) as (-> & ? & ? & ?). auto.
Qed.
End MonadFacts.

(** ** The preparation phase *)

Section PrepareFacts.
Context {E : Env}.
Variables (time : list TimeLike) (nsteps nensemble : Z)
          (prognostic : PrognosticModel) (w : Omega) (data : DataSource)
          (io : IOBackend).

Notation prep := (prepare time nsteps nensemble prognostic w data io).

Lemma prepare_done (s s' : SinkState) (it : Iterator) (t : list event) :
  prep s = (Done it, s', t) ->
  prepared time nsteps nensemble prognostic w data io s it s' t.
Proof.
  prepare_cases; intros [= ? ? ?]; subst.
  eapply Prepared; eauto.
Qed.
Lemma prepare_halts (s : SinkState) : outcome_of (prep s) <> OutOfFuel.
Proof. prepare_cases; cbn; discriminate. Qed.

Lemma prepare_fail_stopping : fail_stopping prep.
Proof.
  unfold prepare.
  repeat first
    [ apply fs_ret
    | apply fs_emit; reflexivity
    | apply fs_eval
    | apply fs_invoke
    | apply fs_sink_call
    | apply fs_bind; [| intros ?]
    | match goal with |- fail_stopping (match ?p with (_, _) => _ end) =>
        destruct p
      end ].
Qed.

(** Nothing is written during the preparation. *)
Lemma prepare_writes (s : SinkState) : writes (trace_of (prep s)) = [].
Proof. prepare_cases; reflexivity. Qed.

(** The schema is declared at most once during the preparation. *)
Lemma prepare_declarations (s : SinkState) :
  length (declarations (trace_of (prep s))) <= 1.
Proof. prepare_cases; cbn; lia. Qed.

(** Whenever [io.add_array] is reached, its arguments are the schema
    computed from what the data source returned. *)
Lemma prepare_schema (s : SinkState) (sc : CoordSystem float)
    (names : Np.ndarray float) (o : option exn) :
  In (Call (CallAddArray sc names) o) (trace_of (prep s)) ->
  exists p' tm lt var x0 c0,
    prognostic_to prognostic selected_device = Ok p' /\
    fetch_data data tm lt var selected_device = Ok (x0, c0) /\
    output_schema p' nsteps (ensemble_coords nensemble c0)
      = Ok (names, sc).
Proof.
  prepare_cases; cbn; intros Hin;
    repeat (destruct Hin as [Hin|Hin]; try discriminate Hin);
    try contradiction;
    injection Hin as <- <- _; eauto 10.
Qed.

(** A [time] argument that does not resolve ends the run before the data
    source or the sink is asked for anything. *)
Lemma prepare_time_fails (s : SinkState) (e : exn) :
  to_time_array time = Raise e ->
  exists e', outcome_of (prep s) = Failed e' /\
             sink_of (prep s) = s /\
             filter is_fetch (trace_of (prep s)) = [] /\
             declarations (trace_of (prep s)) = [].
Proof.
  intros Ht. unfold prepare. unfold_run. rewrite Ht.
  destruct (prognostic_to prognostic selected_device); cbn; eauto.
Qed.
End PrepareFacts.

(** ** The inference loop *)

Section LoopFacts.
Context {E : Env}.
Variables (nsteps : Z) (w : Omega) (io : IOBackend).

Notation loop fuel := (inference_loop fuel nsteps w io).

(** One iteration on a sequence that yields. *)
Lemma loop_yield (fuel : nat) (step : Z) (it it' : Iterator)
    (x : Torch.Tensor float) (c : CoordSystem float) (s : SinkState) :
  iter_next w it = Yield x c it' ->
  loop (S fuel) step it s =
  match extract_coords x c with
  | Raise e =>
      (Failed e, s,
       [Call (CallNext step) None; Call (CallExtractCoords step) (Some e)])
  | Ok (xs, c', names) =>
      match io_write io xs c' names s with
      | (Some e, s1) =>
          (Failed e, s1,
           [Call (CallNext step) None; Call (CallExtractCoords step) None;
            Call (CallWrite step xs c' names) (Some e)])
      | (None, s1) =>
          if (step =? nsteps)%Z then
            (Done tt, s1, iteration_events step xs c' names)
          else
            match loop fuel (step + 1)%Z it' s1 with
            | (r, s2, t) => (r, s2, iteration_events step xs c' names ++ t)
            end
      end
  end.
Proof.
  intros Hnext. cbn [inference_loop]. rewrite Hnext. unfold_run.
  destruct (extract_coords x c) as [[[xs c'] names]|e]; [|reflexivity].
  destruct (io_write io xs c' names s) as [[e|] s1]; [reflexivity|].
  destruct (step =? nsteps)%Z; [reflexivity|].
  destruct (inference_loop fuel nsteps w io (step + 1) it' s1)
    as [[r s2] t]. reflexivity.
Qed.

Lemma loop_stop (fuel : nat) (step : Z) (it : Iterator) (s : SinkState) :
  iter_next w it = StopIteration ->
  loop (S fuel) step it s = (Done tt, s, [Exhausted step]).
Proof. intros H. cbn [inference_loop]. now rewrite H. Qed.

Lemma loop_raise (fuel : nat) (step : Z) (it : Iterator) (s : SinkState)
    (e : exn) :
  iter_next w it = NextRaise e ->
  loop (S fuel) step it s = (Failed e, s, [Call (CallNext step) (Some e)]).
Proof. intros H. cbn [inference_loop]. now rewrite H. Qed.

(** Fuel only bounds the observation: a loop that has finished within
    [fuel] iterations does the same with more. *)
Lemma loop_fuel_monotone (fuel : nat) (step : Z) (it : Iterator)
    (s : SinkState) :
  outcome_of (loop fuel step it s) <> OutOfFuel ->
  loop (S fuel) step it s = loop fuel step it s.
Proof.
  revert step it s. induction fuel as [|fuel IH]; intros step it s Hfin.
  - now destruct Hfin.
  - destruct (iter_next w it) as [x c it'| |e] eqn:Hnext.
    + erewrite (loop_yield (S fuel)) by eassumption.
      erewrite (loop_yield fuel) in Hfin |- * by eassumption.
      destruct (extract_coords x c) as [[[xs c'] names]|e]; [|reflexivity].
      destruct (io_write io xs c' names s) as [[e|] s1]; [reflexivity|].
      destruct (step =? nsteps)%Z; [reflexivity|].
      rewrite IH; [reflexivity|].
      destruct (inference_loop fuel nsteps w io (step + 1) it' s1)
        as [[r s2] t]. exact Hfin.
    + now rewrite !loop_stop.
    + now erewrite !loop_raise by eassumption.
Qed.

Lemma loop_fail_stopping (fuel : nat) (step : Z) (it : Iterator) :
  fail_stopping (loop fuel step it).
Proof.
  revert step it. induction fuel as [|fuel IH]; intros step it.
  - apply fs_diverge.
  - cbn [inference_loop]. destruct (iter_next w it) as [x c it'| |e].
    + apply fs_bind; [now apply fs_emit | intros _].
      apply fs_bind; [apply fs_invoke | intros [[xs c'] names]].
      apply fs_bind; [apply fs_sink_call | intros _].
      apply fs_bind; [now apply fs_emit | intros _].
      destruct (step =? nsteps)%Z; [apply fs_ret | apply IH].
    + now apply fs_emit.
    + apply fs_invoke.
Qed.

(** The loop neither declares a schema nor fetches data. *)
Lemma loop_no_declaration (fuel : nat) (step : Z) (it : Iterator)
    (s : SinkState) :
  declarations (trace_of (loop fuel step it s)) = [] /\
  filter is_fetch (trace_of (loop fuel step it s)) = [].
Proof.
  revert step it s. induction fuel as [|fuel IH]; intros step it s.
  - now split.
  - destruct (iter_next w it) as [x c it'| |e] eqn:Hnext.
    + erewrite loop_yield by eassumption.
      destruct (extract_coords x c) as [[[xs c'] names]|e]; [|now split].
      destruct (io_write io xs c' names s) as [[e|] s1]; [now split|].
      destruct (step =? nsteps)%Z; [now split|].
      specialize (IH (step + 1)%Z it' s1).
      destruct (inference_loop fuel nsteps w io (step + 1) it' s1)
        as [[r s2] t]. exact IH.
    + rewrite loop_stop by assumption. now split.
    + erewrite loop_raise by eassumption. now split.
Qed.

(** The writes of the loop are made at consecutive indices from the one
    the loop is entered at. *)
Lemma loop_write_steps (fuel : nat) (step : Z) (it : Iterator)
    (s : SinkState) :
  let t := trace_of (loop fuel step it s) in
  write_steps t
  = map (fun i => (step + Z.of_nat i)%Z) (seq 0 (length (writes t))).
Proof.
  revert step it s. induction fuel as [|fuel IH]; intros step it s.
  - reflexivity.
  - destruct (iter_next w it) as [x c it'| |e] eqn:Hnext; cbv zeta.
    + erewrite loop_yield by eassumption.
      destruct (extract_coords x c) as [[[xs c'] names]|e]; [|reflexivity].
      destruct (io_write io xs c' names s) as [[e|] s1].
      { cbn. now rewrite Z.add_0_r. }
      destruct (step =? nsteps)%Z.
      { cbn. now rewrite Z.add_0_r. }
      specialize (IH (step + 1)%Z it' s1). cbv zeta in IH.
      destruct (inference_loop fuel nsteps w io (step + 1) it' s1)
        as [[r s2] t]. cbn in IH |- *. rewrite IH, Z.add_0_r. f_equal.
      rewrite <- seq_shift, map_map. apply map_ext. intros; lia.
    + rewrite loop_stop by assumption. reflexivity.
    + erewrite loop_raise by eassumption. reflexivity.
Qed.

(** On a sequence that never ends, a loop entered at or before [nsteps]
    with enough fuel either fails or completes after writing every index
    up to [nsteps]. *)
Lemma loop_completes (fuel : nat) (step : Z) (it : Iterator)
    (s : SinkState) :
  (forall it0, iter_next w it0 <> StopIteration) ->
  (step <= nsteps)%Z -> Z.to_nat (nsteps - step) < fuel ->
  (forall e, outcome_of (loop fuel step it s) <> Failed e) ->
  outcome_of (loop fuel step it s) = Done tt /\
  quiet (trace_of (loop fuel step it s)) /\
  length (writes (trace_of (loop fuel step it s)))
    = Z.to_nat (nsteps - step + 1).
Proof.
  intros Hinf. revert step it s.
  induction fuel as [|fuel IH]; intros step it s Hle Hfuel Hok; [lia|].
  destruct (iter_next w it) as [x c it'| |e] eqn:Hnext.
  - erewrite loop_yield in Hok |- * by eassumption.
    destruct (extract_coords x c) as [[[xs c'] names]|e];
      [|now destruct (Hok e)].
    destruct (io_write io xs c' names s) as [[e|] s1];
      [now destruct (Hok e)|].
    destruct (Z.eqb_spec step nsteps) as [->|Hne].
    + cbn. replace (nsteps - nsteps + 1)%Z with 1%Z by lia.
      repeat split. now repeat constructor.
    + specialize (IH (step + 1)%Z it' s1).
      destruct (inference_loop fuel nsteps w io (step + 1) it' s1)
        as [[r s2] t]. cbn in IH, Hok |- *.
      destruct IH as (-> & Hq & Hlen); [lia | lia | exact Hok |].
      repeat split.
      * repeat (constructor; [reflexivity|]). exact Hq.
      * rewrite Hlen. lia.
  - now destruct (Hinf it).
  - erewrite loop_raise in Hok by eassumption. now destruct (Hok e).
Qed.

(** On a sequence that never ends, a loop entered beyond [nsteps] never
    meets its exit test: whatever the fuel, it fails or is still running,
    having written once per unit of fuel. *)
Lemma loop_runs_away (fuel : nat) (step : Z) (it : Iterator)
    (s : SinkState) :
  (forall it0, iter_next w it0 <> StopIteration) ->
  (nsteps < step)%Z ->
  (forall e, outcome_of (loop fuel step it s) <> Failed e) ->
  outcome_of (loop fuel step it s) = OutOfFuel /\
  quiet (trace_of (loop fuel step it s)) /\
  length (writes (trace_of (loop fuel step it s))) = fuel.
Proof.
  intros Hinf. revert step it s.
  induction fuel as [|fuel IH]; intros step it s Hlt Hok.
  - repeat split. constructor.
  - destruct (iter_next w it) as [x c it'| |e] eqn:Hnext.
    + erewrite loop_yield in Hok |- * by eassumption.
      destruct (extract_coords x c) as [[[xs c'] names]|e];
        [|now destruct (Hok e)].
      destruct (io_write io xs c' names s) as [[e|] s1];
        [now destruct (Hok e)|].
      destruct (Z.eqb_spec step nsteps) as [->|Hne]; [lia|].
      specialize (IH (step + 1)%Z it' s1).
      destruct (inference_loop fuel nsteps w io (step + 1) it' s1)
        as [[r s2] t]. cbn in IH, Hok |- *.
      destruct IH as (-> & Hq & Hlen); [lia | exact Hok |].
      repeat split.
      * repeat (constructor; [reflexivity|]). exact Hq.
      * now rewrite Hlen.
    + now destruct (Hinf it).
    + erewrite loop_raise in Hok by eassumption. now destruct (Hok e).
Qed.
End LoopFacts.

(** ** The whole run *)

Section RunFacts.
Context {E : Env}.

Lemma outcome_of_triple {A} (r : outcome A) (s : SinkState)
    (t : list event) : outcome_of (r, s, t) = r.
Proof. reflexivity. Qed.

Lemma sink_of_triple {A} (r : outcome A) (s : SinkState) (t : list event) :
  sink_of (r, s, t) = s.
Proof. reflexivity. Qed.

Lemma trace_of_triple {A} (r : outcome A) (s : SinkState)
    (t : list event) : trace_of (r, s, t) = t.
Proof. reflexivity. Qed.

Lemma writes_app (t1 t2 : list event) :
  writes (t1 ++ t2) = writes t1 ++ writes t2.
Proof. apply filter_app. Qed.

Lemma declarations_app (t1 t2 : list event) :
  declarations (t1 ++ t2) = declarations t1 ++ declarations t2.
Proof. apply filter_app. Qed.

Lemma write_steps_app (t1 t2 : list event) :
  write_steps (t1 ++ t2) = write_steps t1 ++ write_steps t2.
Proof. apply flat_map_app. Qed.

Lemma write_steps_length (t : list event) :
  length (write_steps t) = length (writes t).
Proof.
  induction t as [|ev t IH]; [reflexivity|].
  destruct ev as [| [] | | | |]; cbn; auto.
Qed.

Lemma write_steps_none (t : list event) :
  writes t = [] -> write_steps t = [].
Proof.
  intros H. apply length_zero_iff_nil. now rewrite write_steps_length, H.
Qed.

Lemma no_call_no_write (t : list event) :
  Forall (fun ev => is_call ev = false) t ->
  writes t = [] /\ declarations t = [] /\ filter is_fetch t = [] /\ quiet t.
Proof.
  induction 1 as [|ev t Hev _ IH]; [repeat split; constructor|].
  destruct IH as (Hw & Hd & Hf & Hq).
  destruct ev; try discriminate Hev; cbn; repeat split; auto;
    now constructor.
Qed.

Lemma run_epilogue_no_call (io : IOBackend) (r : outcome unit) :
  Forall (fun ev => is_call ev = false) (snd (run_epilogue io r)).
Proof. destruct r; cbn; repeat constructor. Qed.

Variables (time : list TimeLike) (nsteps nensemble : Z)
          (prognostic : PrognosticModel) (w : Omega) (data : DataSource)
          (io : IOBackend).

Notation prep := (prepare time nsteps nensemble prognostic w data io).
Notation run fuel :=
  (run_ensemble fuel time nsteps nensemble prognostic w data io).

(** A run is a preparation that failed, or a completed preparation
    followed by the loop inside its progress bar and by the epilogue. *)
Lemma run_cases (fuel : nat) (s : SinkState) :
  (exists e, outcome_of (prep s) = Failed e /\ run fuel s = 
     (Failed e, sink_of (prep s), trace_of (prep s)))
  \/
  (exists it s1 t1,
     prepared time nsteps nensemble prognostic w data io s it s1 t1 /\
     prep s = (Done it, s1, t1) /\
     let body := inference_loop fuel nsteps w io 0%Z it s1 in
     run fuel s =
     (fst (run_epilogue io (outcome_of body)), sink_of body,
      t1 ++ PbarOpen (nsteps + 1) :: trace_of body
         ++ snd (run_epilogue io (outcome_of body)))).
Proof.
  pose proof (prepare_halts time nsteps nensemble prognostic w data io s)
    as Hhalt.
  pose proof (@prepare_done _ time nsteps nensemble prognostic w data io s)
    as Hdone.
  destruct (prep s) as [[[it|e|] s1] t1] eqn:Hp;
    unfold outcome_of, sink_of, trace_of in *; cbn [fst snd] in *.
  - right. exists it, s1, t1. repeat split; auto. cbv zeta.
    unfold run_ensemble. unfold bind at 1. rewrite Hp.
    unfold bind, with_tqdm, emit, ret.
    destruct (inference_loop fuel nsteps w io 0 it s1)
      as [[[[]|e|] s2] t2]; cbn [run_epilogue fst snd app];
      rewrite ?app_nil_r; try reflexivity.
    now rewrite <- app_assoc.
  - left. exists e. split; [reflexivity|].
    unfold run_ensemble. unfold bind at 1. now rewrite Hp.
  - now destruct Hhalt.
Qed.
End RunFacts.

(** ** What the loop writes *)

Section LoopContents.
Context {E : Env}.
Variables (nsteps : Z) (w : Omega) (io : IOBackend).

Lemma iter_nth_succ (k : nat) (it it' : Iterator) x c :
  iter_next w it = Yield x c it' ->
  iter_nth w (S k) it = iter_nth w k it'.
Proof.
  intros H. destruct k; cbn [iter_nth]; now rewrite H.
Qed.

Lemma iter_nth_zero (it it' : Iterator) x c :
  iter_next w it = Yield x c it' -> iter_nth w 0 it = Some (x, c).
Proof. intros H. cbn [iter_nth]. now rewrite H. Qed.

(** The write of rank [k] carries what [extract_coords] makes of the
    element of rank [k] of the sequence, and is made at index
    [step + k]. *)
Lemma loop_writes_nth (fuel : nat) (step : Z) (it : Iterator)
    (s : SinkState) (k : nat) (ev : event) :
  nth_error (writes (trace_of (inference_loop fuel nsteps w io step it s))) k
    = Some ev ->
  exists x c xs c' names o,
    iter_nth w k it = Some (x, c) /\
    extract_coords x c = Ok (xs, c', names) /\
    ev = Call (CallWrite (step + Z.of_nat k) xs c' names) o.
Proof.
  revert step it s k.
  induction fuel as [|fuel IH]; intros step it s k Hk.
  - destruct k; discriminate Hk.
  - destruct (iter_next w it) as [x c it'| |e] eqn:Hnext.
    + erewrite loop_yield in Hk by eassumption.
      destruct (extract_coords x c) as [[[xs c'] names]|e] eqn:Hext;
        [|destruct k; discriminate Hk].
      assert (Hhere : forall o,
                 Some (Call (CallWrite step xs c' names) o) = Some ev ->
                 exists x0 c0 xs0 c0' names0 o0,
                   iter_nth w 0 it = Some (x0, c0) /\
                   extract_coords x0 c0 = Ok (xs0, c0', names0) /\
                   ev = Call (CallWrite (step + Z.of_nat 0) xs0 c0' names0)
                             o0).
      { intros o [= <-]. exists x, c, xs, c', names, o.
        rewrite (iter_nth_zero _ Hnext), Z.add_0_r. auto. }
      destruct (io_write io xs c' names s) as [[e|] s1].
      { destruct k as [|[|k]]; try discriminate Hk. eapply Hhere, Hk. }
      destruct (step =? nsteps)%Z.
      { destruct k as [|[|k]]; try discriminate Hk. eapply Hhere, Hk. }
      specialize (IH (step + 1)%Z it' s1).
      destruct (inference_loop fuel nsteps w io (step + 1) it' s1)
        as [[r s2] t]. cbn in Hk, IH.
      destruct k as [|k]; [eapply Hhere, Hk|].
      cbn in Hk. destruct (IH _ Hk) as (x0 & c0 & xs0 & c0' & n0 & o & H1 & H2 & ->).
      exists x0, c0, xs0, c0', n0, o. rewrite (iter_nth_succ _ _ Hnext).
      repeat split; auto. do 2 f_equal. lia.
    + rewrite loop_stop in Hk by assumption. destruct k; discriminate Hk.
    + erewrite loop_raise in Hk by eassumption.
      destruct k; discriminate Hk.
Qed.
End LoopContents.

(** ** Invariants of the whole run *)

Section RunInvariants.
Context {E : Env}.
Variables (time : list TimeLike) (nsteps nensemble : Z)
          (prognostic : PrognosticModel) (data : DataSource)
          (io : IOBackend).

Notation run fuel w :=
  (run_ensemble fuel time nsteps nensemble prognostic w data io).

Lemma run_fail_stopping (fuel : nat) (w : Omega) :
  fail_stopping (run fuel w).
Proof.
  unfold run_ensemble.
  apply fs_bind; [apply prepare_fail_stopping | intros it].
  apply fs_bind; [apply fs_with_tqdm, loop_fail_stopping | intros _].
  apply fs_bind; [now apply fs_emit | intros _]. apply fs_ret.
Qed.

Lemma prepared_trace (w : Omega) s it s1 t1 :
  prepared time nsteps nensemble prognostic w data io s it s1 t1 ->
  quiet t1 /\ writes t1 = [] /\ length (declarations t1) = 1.
Proof.
  intros []. repeat split. repeat (constructor; [reflexivity|]).
  constructor.
Qed.
End RunInvariants.

(** ** Further facts used by the properties *)

Section MoreFacts.
Context {E : Env}.

Lemma get_filter_other (k k' : string) (d : CoordSystem float) :
  k <> k' ->
  Dict.get k (filter (fun kv => negb (String.eqb (fst kv) k')) d)
  = Dict.get k d.
Proof.
  intros Hne. induction d as [|[k2 v2] d IH]; [reflexivity|].
  cbn [filter fst]. destruct (String.eqb_spec k2 k') as [->|Hne2]; cbn.
  - now rewrite (proj2 (String.eqb_neq k k')).
  - now rewrite IH.
Qed.

Lemma get_filter_same (k : string) (d : CoordSystem float) :
  Dict.get k (filter (fun kv => negb (String.eqb (fst kv) k)) d) = None.
Proof.
  induction d as [|[k2 v2] d IH]; [reflexivity|].
  cbn [filter fst]. destruct (String.eqb_spec k2 k) as [->|Hne2]; cbn; auto.
  now rewrite (proj2 (String.eqb_neq k k2)) by congruence.
Qed.

(** Lookups in the schema of the specification. *)
Lemma spec_schema_lookup (c : CoordSystem float) (nensemble nsteps dt : Z) :
  let sc := spec_schema c nensemble nsteps dt in
  Dict.get "ensemble" sc = Some (Np.ArrInt float (range nensemble)) /\
  Dict.get "lead_time" sc = Some (spec_lead_times dt nsteps) /\
  Dict.get "variable" sc = None /\
  (forall k, k <> "ensemble"%string -> k <> "lead_time"%string ->
             k <> "variable"%string -> Dict.get k sc = Dict.get k c).
Proof.
  cbv zeta. unfold spec_schema. rewrite <- set_lead_time_spec.
  repeat split.
  - cbn [Dict.get]. eqb_lit. cbn [Dict.get].
    rewrite DictFacts.get_set_same. reflexivity.
  - cbn [Dict.get]. eqb_lit.
    rewrite DictFacts.get_set_other by discriminate.
    apply get_filter_same.
  - intros k H1 H2 H3. cbn [Dict.get].
    rewrite (proj2 (String.eqb_neq k "ensemble")) by assumption.
    rewrite DictFacts.get_set_other by assumption.
    now apply get_filter_other.
Qed.

Lemma spec_lead_times_nth (dt nsteps : Z) (i : nat) :
  i < Z.to_nat (nsteps + 1) ->
  nth i (map (fun j => (j * dt)%Z) (range (nsteps + 1))) 0%Z
  = (Z.of_nat i * dt)%Z.
Proof.
  intros Hi. change 0%Z with ((fun j => (j * dt)%Z) 0%Z) at 1.
  rewrite map_nth, range_nth by assumption. reflexivity.
Qed.

(** The schema [run_ensemble] computes, whether or not the fetched
    coordinates name the variables. *)
Lemma output_schema_inv (p : PrognosticModel) (nsteps nensemble dt : Z)
    (c sc : CoordSystem float) (names : Np.ndarray float) :
  (0 <= nsteps)%Z ->
  Dict.get "lead_time" (output_coords p) = Some (Np.ArrTimedelta float [dt]) ->
  no_overflow dt nsteps ->
  Dict.wf c -> ~ In "ensemble"%string (Dict.keys c) ->
  output_schema p nsteps (ensemble_coords nensemble c) = Ok (names, sc) ->
  Dict.get "variable" c = Some names /\
  sc = spec_schema c nensemble nsteps dt.
Proof.
  intros Hn Hdt Hfit Hwf Hfresh Hout.
  destruct (Dict.get "variable" c) as [v|] eqn:Hvar.
  - erewrite output_schema_spec in Hout by eassumption.
    injection Hout as <- <-. auto.
  - exfalso. unfold output_schema in Hout.
    rewrite (lead_time_axis_single _ Hn Hdt Hfit) in Hout.
    cbn [result_bind] in Hout.
    rewrite ensemble_coords_fresh in Hout by assumption.
    unfold Dict.pop in Hout. cbn [Dict.set Dict.get] in Hout.
    revert Hout. eqb_lit. cbn [Dict.get]. eqb_lit.
    rewrite DictFacts.get_set_other by discriminate. rewrite Hvar.
    discriminate.
Qed.

(** An empty list, or a string that is not a date, does not resolve. *)
Lemma to_time_array_fails (time : list TimeLike) :
  time = [] \/
  (exists str, In (TStr str) time /\ parse_datetime64 str = None) ->
  exists e, to_time_array time = Raise e.
Proof.
  intros [->|(str & Hin & Hparse)]; [now eexists|].
  destruct time as [|ts time]; [now eexists|].
  unfold to_time_array.
  destruct (list_comp_raises to_datetime64 (ts :: time) (TStr str) Hin)
    as (e & ->).
  - cbn. rewrite Hparse. now eexists.
  - now exists e.
Qed.

Variables (time : list TimeLike) (nsteps nensemble : Z)
          (prognostic : PrognosticModel) (data : DataSource)
          (io : IOBackend).

Notation prep w := (prepare time nsteps nensemble prognostic w data io).
Notation run fuel w :=
  (run_ensemble fuel time nsteps nensemble prognostic w data io).

(** A preparation that fails has declared nothing, or has declared once and
    stopped there. *)
Lemma prepare_failed_split (w : Omega) (s : SinkState) :
  match outcome_of (prep w s) with
  | Failed _ =>
      (declarations (trace_of (prep w s)) = [] /\
       writes (trace_of (prep w s)) = []) \/
      declared_once_first (trace_of (prep w s))
  | _ => True
  end.
Proof.
  prepare_cases; cbn [outcome_of trace_of fst snd]; try exact I;
    first
      [ left; split; reflexivity
      | right; eexists [_; _; _; _; _; _]; do 4 eexists;
        split; [reflexivity|];
        repeat split; try reflexivity; intros H; now destruct H ].
Qed.

(** The declaration follows the one request to the data source: the
    schema is computed from the coordinates that request returned. *)
Lemma prepare_schema_request (w : Omega) (s : SinkState)
    (sc : CoordSystem float) (names : Np.ndarray float) (o : option exn) :
  In (Call (CallAddArray sc names) o) (trace_of (prep w s)) ->
  exists p' tm lt var x0 c0,
    prognostic_to prognostic selected_device = Ok p' /\
    to_time_array time = Ok tm /\
    Dict.get "lead_time" (input_coords p') = Some lt /\
    Dict.get "variable" (input_coords p') = Some var /\
    In (Call (CallFetchData tm lt var selected_device) None)
       (trace_of (prep w s)) /\
    fetch_data data tm lt var selected_device = Ok (x0, c0) /\
    output_schema p' nsteps (ensemble_coords nensemble c0) = Ok (names, sc).
Proof.
  prepare_cases; cbn [trace_of snd]; intros Hin;
    repeat (destruct Hin as [Hin|Hin]; try discriminate Hin);
    try contradiction;
    injection Hin as <- <- _;
    repeat match goal with
      | H : Dict.getitem _ _ = Ok _ |- _ =>
          unfold Dict.getitem in H;
          let G := fresh "Hget" in
          destruct (Dict.get _ _) eqn:G in H; [|discriminate H];
          injection H as ->
      end;
    do 6 eexists; repeat split; eauto; cbn; auto 10.
Qed.

(** What the preparation recorded is part of the trace of the run. *)
Lemma prepare_trace_in_run (fuel : nat) (w : Omega) (s : SinkState)
    (ev : event) :
  In ev (trace_of (prep w s)) -> In ev (trace_of (run fuel w s)).
Proof.
  destruct (run_cases time nsteps nensemble prognostic w data io fuel s)
    as [(e & _ & Hrun)|(it & s1 & t1 & _ & Hp & Hrun)];
    cbv zeta in Hrun; rewrite Hrun, trace_of_triple; [auto|].
  rewrite Hp, trace_of_triple. intros Hin. apply in_or_app. now left.
Qed.

(** The declarations of a run are those of its preparation. *)
Lemma run_declaration_in_prepare (fuel : nat) (w : Omega) (s : SinkState)
    (ev : event) :
  is_add_array ev = true ->
  In ev (trace_of (run fuel w s)) -> In ev (trace_of (prep w s)).
Proof.
  intros Hev.
  destruct (run_cases time nsteps nensemble prognostic w data io fuel s)
    as [(e & _ & Hrun)|(it & s1 & t1 & _ & Hp & Hrun)];
    cbv zeta in Hrun; rewrite Hrun, trace_of_triple; [auto|].
  rewrite Hp, trace_of_triple. intros Hin.
  apply in_app_or in Hin as [Hin|[<-|Hin]]; [assumption|discriminate|].
  exfalso. apply in_app_or in Hin as [Hin|Hin].
  - destruct (loop_no_declaration nsteps w io fuel 0%Z it s1) as [Hd _].
    assert (Hin' : In ev (declarations
              (trace_of (inference_loop fuel nsteps w io 0 it s1))))
      by (apply filter_In; now split).
    rewrite Hd in Hin'. contradiction.
  - pose proof (run_epilogue_no_call io
                  (outcome_of (inference_loop fuel nsteps w io 0 it s1)))
      as Hno.
    rewrite Forall_forall in Hno. specialize (Hno ev Hin).
    destruct ev as [| [] | | | |]; discriminate.
Qed.

(** The writes of a run are those of its loop. *)
Lemma run_writes (fuel : nat) (w : Omega) (s : SinkState) :
  writes (trace_of (run fuel w s)) = [] \/
  exists it s1 t1,
    prepared time nsteps nensemble prognostic w data io s it s1 t1 /\
    writes (trace_of (run fuel w s))
    = writes (trace_of (inference_loop fuel nsteps w io 0 it s1)).
Proof.
  destruct (run_cases time nsteps nensemble prognostic w data io fuel s)
    as [(e & _ & Hrun)|(it & s1 & t1 & Hprep & Hp & Hrun)];
    cbv zeta in Hrun; rewrite Hrun, trace_of_triple.
  - left. apply prepare_writes.
  - right. exists it, s1, t1. split; [assumption|].
    destruct (prepared_trace Hprep) as (_ & Hw1 & _).
    rewrite writes_app, Hw1. cbn [app].
    change (PbarOpen (nsteps + 1) :: ?l) with ([PbarOpen (nsteps + 1)] ++ l).
    rewrite !writes_app.
    destruct (no_call_no_write (run_epilogue_no_call io
                (outcome_of (inference_loop fuel nsteps w io 0 it s1))))
      as (-> & _).
    cbn. apply app_nil_r.
Qed.
End MoreFacts.

(** ** Runs that differ only by their randomness *)

Section Determinism.
Context {E : Env}.

(** The perturbation method returns an all-zero field that broadcasts onto
    the state, whatever it draws. *)
Hypothesis zero_noise :
  forall w x c, exists noise,
    perturbation_method w x c = Ok noise /\
    all_zero noise /\
    Torch.broadcastable (Torch.shape noise) (Torch.shape x) = true.

(** The prognostic model is deterministic: its sequences do not depend on
    what is drawn. *)
Hypothesis deterministic_start :
  forall w w' p x c, create_iterator p w x c = create_iterator p w' x c.
Hypothesis deterministic_next :
  forall w w' it, iter_next w it = iter_next w' it.

Variables (time : list TimeLike) (nsteps nensemble : Z)
          (prognostic : PrognosticModel) (data : DataSource)
          (io : IOBackend).

Lemma prepare_deterministic (w1 w2 : Omega) (s : SinkState) :
  prepare time nsteps nensemble prognostic w1 data io s
  = prepare time nsteps nensemble prognostic w2 data io s.
Proof.
  unfold prepare. unfold_run.
  repeat first
    [ match goal with
      | |- context [perturbation_method ?w0 ?x ?c] =>
          let n := fresh "noise" in
          let Hn := fresh "Hn" in
          let Hz := fresh "Hz" in
          let Hb := fresh "Hb" in
          destruct (zero_noise w0 x c) as (n & Hn & Hz & Hb);
          rewrite Hn; rewrite (iadd_all_zero _ Hz Hb)
      | |- context [create_iterator ?p w1 ?x ?c] =>
          rewrite (deterministic_start w1 w2 p x c)
      end
    | split_result; cbn [app] ];
    reflexivity.
Qed.

Lemma loop_deterministic (w1 w2 : Omega) (fuel : nat) (step : Z)
    (it : Iterator) (s : SinkState) :
  inference_loop fuel nsteps w1 io step it s
  = inference_loop fuel nsteps w2 io step it s.
Proof.
  revert step it s. induction fuel as [|fuel IH]; intros step it s.
  - reflexivity.
  - cbn [inference_loop]. rewrite (deterministic_next w1 w2 it).
    destruct (iter_next w2 it) as [x c it'| |e]; try reflexivity.
    unfold_run. destruct (extract_coords x c) as [[[xs c'] names]|e];
      [|reflexivity].
    destruct (io_write io xs c' names s) as [[e|] s1]; [reflexivity|].
    destruct (step =? nsteps)%Z; [reflexivity|]. now rewrite IH.
Qed.

Lemma run_deterministic (w1 w2 : Omega) (fuel : nat) (s : SinkState) :
  run_ensemble fuel time nsteps nensemble prognostic w1 data io s
  = run_ensemble fuel time nsteps nensemble prognostic w2 data io s.
Proof.
  unfold run_ensemble.
  apply bind_ext; [apply prepare_deterministic | intros it s1].
  apply bind_ext; [|reflexivity].
  unfold with_tqdm. now rewrite (loop_deterministic w1 w2).
Qed.
End Determinism.

(** * Properties of [run_ensemble] *)

Section Properties.
Context {E : Env}.
Variables (time : list TimeLike) (nsteps nensemble : Z)
          (prognostic : PrognosticModel) (data : DataSource)
          (io : IOBackend).

Notation run fuel w :=
  (run_ensemble fuel time nsteps nensemble prognostic w data io).

(** C1. For every run with [nsteps >= 0] in which no collaborator raises
    (the run does not fail, and the prognostic sequence, which is
    logically infinite, does not end), the run completes and the sink
    receives exactly [nsteps + 1] write calls, all of which return; they
    are made at the lead-time indices [0, 1, ..., nsteps] in this order,
    which is strictly increasing and without repetition. The write of
    index [k] carries what [extract_coords] makes of the element of index
    [k] of the sequence the prognostic model started from the perturbed
    initial state. With [nsteps = 0] this is exactly one write, of the
    first element of that sequence. *)
Theorem writes_once_per_lead_time (fuel : nat) (w : Omega) (s : SinkState) :
  (0 <= nsteps)%Z ->
  Z.to_nat nsteps < fuel ->
  (forall it, iter_next w it <> StopIteration) ->
  (forall e, outcome_of (run fuel w s) <> Failed e) ->
  outcome_of (run fuel w s) = Done io /\
  quiet (trace_of (run fuel w s)) /\
  length (writes (trace_of (run fuel w s))) = Z.to_nat (nsteps + 1) /\
  write_steps (trace_of (run fuel w s)) = range (nsteps + 1) /\
  StronglySorted Z.lt (write_steps (trace_of (run fuel w s))) /\
  NoDup (write_steps (trace_of (run fuel w s))) /\
  exists it s1 t1,
    prepared time nsteps nensemble prognostic w data io s it s1 t1 /\
    forall k ev,
      nth_error (writes (trace_of (run fuel w s))) k = Some ev ->
      exists x c xs c' names,
        iter_nth w k it = Some (x, c) /\
        extract_coords x c = Ok (xs, c', names) /\
        ev = Call (CallWrite (Z.of_nat k) xs c' names) None.
Proof.
  intros Hn Hfuel Hinf Hok.
  destruct (run_cases time nsteps nensemble prognostic w data io fuel s)
    as [(e & _ & Hrun)|(it & s1 & t1 & Hprep & _ & Hrun)];
    cbv zeta in Hrun; rewrite Hrun in Hok |- *.
  { now destruct (Hok e). }
  pose proof (prepared_trace Hprep) as (Hq1 & Hw1 & _).
  pose proof (@loop_write_steps _ nsteps w io fuel 0%Z it s1) as Hsteps.
  cbv zeta in Hsteps.
  assert (Hbody : forall e,
             outcome_of (inference_loop fuel nsteps w io 0 it s1)
             <> Failed e).
  { intros e He. apply (Hok e). rewrite outcome_of_triple, He.
    reflexivity. }
  assert (Hfuel' : Z.to_nat (nsteps - 0) < fuel)
    by now replace (nsteps - 0)%Z with nsteps by lia.
  destruct (@loop_completes _ nsteps w io fuel 0%Z it s1 Hinf Hn Hfuel'
              Hbody) as (Hdone & Hq2 & Hlen).
  replace (nsteps - 0 + 1)%Z with (nsteps + 1)%Z in Hlen by lia.
  rewrite Hdone in *. rewrite outcome_of_triple, !trace_of_triple.
  cbn [fst snd run_epilogue].
  assert (Hw : writes (t1 ++ PbarOpen (nsteps + 1)
                :: trace_of (inference_loop fuel nsteps w io 0 it s1)
                ++ [PbarClose; Log SUCCESS "Inference complete"])
               = writes (trace_of (inference_loop fuel nsteps w io 0 it s1))).
  { rewrite writes_app, Hw1. cbn [app]. unfold writes at 1.
    cbn [filter is_write]. fold (writes
      (trace_of (inference_loop fuel nsteps w io 0 it s1)
       ++ [PbarClose; Log SUCCESS "Inference complete"])).
    rewrite writes_app. cbn. apply app_nil_r. }
  assert (Hs : write_steps (t1 ++ PbarOpen (nsteps + 1)
                :: trace_of (inference_loop fuel nsteps w io 0 it s1)
                ++ [PbarClose; Log SUCCESS "Inference complete"])
               = range (nsteps + 1)).
  { rewrite write_steps_app, (write_steps_none _ Hw1). cbn [app].
    change (PbarOpen (nsteps + 1) :: ?l) with ([PbarOpen (nsteps + 1)] ++ l).
    rewrite !write_steps_app. cbn [write_steps flat_map app].
    rewrite app_nil_r, Hsteps, Hlen. unfold range.
    apply map_ext. intros; lia. }
  rewrite Hw, Hs. repeat split; auto.
  - apply quiet_app. split; [assumption|].
    constructor; [reflexivity|]. apply quiet_app. split; [assumption|].
    now repeat constructor.
  - apply range_sorted.
  - apply range_NoDup.
  - exists it, s1, t1. split; [assumption|]. intros k ev Hk.
    assert (Hev : raised ev = None).
    { apply nth_error_In, filter_In in Hk as [Hk _].
      unfold quiet in Hq2. rewrite Forall_forall in Hq2. now apply Hq2. }
    apply loop_writes_nth in Hk
      as (x & c & xs & c' & names & o & Hnth & Hex & ->).
    cbn in Hev. subst o. rewrite Z.add_0_l. eauto 8.
Qed.

(** C9. On successful completion [run_ensemble] returns the sink reference
    it was given as [io]. *)
Theorem returns_the_given_sink (fuel : nat) (w : Omega) (s : SinkState)
    (r : IOBackend) :
  outcome_of (run fuel w s) = Done r -> r = io.
Proof.
  destruct (run_cases time nsteps nensemble prognostic w data io fuel s)
    as [(e & _ & Hrun)|(it & s1 & t1 & _ & _ & Hrun)];
    cbv zeta in Hrun; rewrite Hrun, outcome_of_triple; [discriminate|].
  destruct (outcome_of (inference_loop fuel nsteps w io 0 it s1));
    cbn; congruence.
Qed.

(** C10. The loop leaves only when the step counter, which starts at 0,
    equals [nsteps], and nothing rejects a negative [nsteps]: with
    [nsteps < 0] and a prognostic sequence that does not end, a run that
    does not fail is still looping whatever the number of iterations
    granted, having written once per iteration. *)
Theorem negative_nsteps_never_terminates (fuel : nat) (w : Omega)
    (s : SinkState) :
  (nsteps < 0)%Z ->
  (forall it, iter_next w it <> StopIteration) ->
  (forall e, outcome_of (run fuel w s) <> Failed e) ->
  outcome_of (run fuel w s) = OutOfFuel /\
  length (writes (trace_of (run fuel w s))) = fuel.
Proof.
  intros Hn Hinf Hok.
  destruct (run_cases time nsteps nensemble prognostic w data io fuel s)
    as [(e & _ & Hrun)|(it & s1 & t1 & Hprep & _ & Hrun)];
    cbv zeta in Hrun; rewrite Hrun in Hok |- *.
  { now destruct (Hok e). }
  apply prepared_trace in Hprep as (_ & Hw1 & _).
  assert (Hbody : forall e,
             outcome_of (inference_loop fuel nsteps w io 0 it s1)
             <> Failed e).
  { intros e He. apply (Hok e). rewrite outcome_of_triple, He.
    reflexivity. }
  destruct (@loop_runs_away _ nsteps w io fuel 0%Z it s1 Hinf Hn Hbody)
    as (Hout & _ & Hlen).
  rewrite Hout, outcome_of_triple, trace_of_triple.
  cbn [fst snd run_epilogue]. split; [reflexivity|].
  rewrite app_nil_r, writes_app, Hw1. cbn [app]. exact Hlen.
Qed.

(** C8. Failures are not recovered. Whenever a call made by the run
    raises [e] -- the data source, the perturbation, the in-place addition
    of its noise, the coordinate helpers, the model, the sink -- the run
    itself fails with [e]; every earlier call had returned, and no call
    at all is made afterwards: no retry, no continuation. *)
Theorem failures_propagate (fuel : nat) (w : Omega) (s : SinkState)
    (t1 t2 : list event) (c : call) (e : exn) :
  trace_of (run fuel w s) = t1 ++ Call c (Some e) :: t2 ->
  outcome_of (run fuel w s) = Failed e /\
  quiet t1 /\
  Forall (fun ev => is_call ev = false) t2.
Proof.
  intros Ht.
  pose proof (run_fail_stopping time nsteps nensemble prognostic data io
                fuel w s) as Hfs.
  cbv beta in Hfs. rewrite Ht in Hfs.
  assert (Hloud : ~ quiet (t1 ++ Call c (Some e) :: t2)).
  { intros Hq. apply quiet_app in Hq as [_ Hq].
    inversion Hq as [|? ? Hc _]. discriminate Hc. }
  destruct (outcome_of (run fuel w s)) as [a|e'|]; cbn [fail_stop] in Hfs;
    try contradiction.
  destruct Hfs as [Hq|(t0 & c' & cl & Heq & Hq & Hcl)]; [contradiction|].
  symmetry in Heq.
  apply (@raising_call_unique _ _ _ _ _ _ _ _ _ Hq Hcl) in Heq
    as (-> & _ & -> & ->).
  auto.
Qed.

(** C2 (amended). In every run that gets as far as the sink -- every run
    that completes or is still running, and every failed run that reached
    [io.add_array] -- the schema is declared exactly once: that call comes
    before every write, nothing is declared again after it, and writes
    follow only if it returned. A run that failed earlier has declared
    nothing and written nothing. *)
Theorem schema_declared_once_before_writes (fuel : nat) (w : Omega)
    (s : SinkState) :
  match outcome_of (run fuel w s) with
  | Failed _ =>
      (declarations (trace_of (run fuel w s)) = [] /\
       writes (trace_of (run fuel w s)) = []) \/
      declared_once_first (trace_of (run fuel w s))
  | _ => declared_once_first (trace_of (run fuel w s))
  end.
Proof.
  destruct (run_cases time nsteps nensemble prognostic w data io fuel s)
    as [(e & He & Hrun)|(it & s1 & t1 & Hprep & _ & Hrun)];
    cbv zeta in Hrun; rewrite Hrun, outcome_of_triple, trace_of_triple.
  - pose proof (prepare_failed_split time nsteps nensemble prognostic data io
                  w s) as Hsplit.
    now rewrite He in Hsplit.
  - assert (Honce : declared_once_first
              (t1 ++ PbarOpen (nsteps + 1)
                  :: trace_of (inference_loop fuel nsteps w io 0 it s1)
                  ++ snd (run_epilogue io
                       (outcome_of (inference_loop fuel nsteps w io 0 it s1))))).
    { destruct Hprep.
      eexists [_; _; _; _; _; _], total, names, None, _.
      split; [reflexivity|]. repeat split; try reflexivity.
      cbn [declarations filter is_add_array app].
      fold (declarations
              (trace_of (inference_loop fuel nsteps w io 0 it s')
               ++ snd (run_epilogue io
                    (outcome_of (inference_loop fuel nsteps w io 0 it s'))))).
      rewrite declarations_app.
      destruct (loop_no_declaration nsteps w io fuel 0%Z it s') as [-> _].
      now destruct (no_call_no_write (run_epilogue_no_call io
             (outcome_of (inference_loop fuel nsteps w io 0 it s'))))
        as (_ & -> & _). }
    destruct (outcome_of (inference_loop fuel nsteps w io 0 it s1));
      cbn [run_epilogue fst snd] in *; auto.
Qed.

(** C3, amended. As long as no product [i * dt], [i = 0 .. nsteps], leaves
    the 64-bit timedelta values (NumPy multiplies in int64), the schema
    declared to the sink is the coordinates returned by the run's request
    to the data source, extended with an ensemble dimension and with a
    lead-time axis of [nsteps + 1] entries, the entry of index [i] being
    [i] times the native output step [dt] of the prognostic model; the
    variable names are taken out of the schema and passed as the channel
    list. The request is the one the run made: for the resolved times, and
    the input lead times and variables of the model on the device. The
    fetch coordinates are a dictionary without an ["ensemble"] entry, the
    native step is the single entry of the model's output lead time, and
    [nsteps >= 0]. *)
Theorem declared_schema_extends_fetch_coordinates (fuel : nat) (w : Omega)
    (s : SinkState) (dt : Z) (sc : CoordSystem float)
    (names : Np.ndarray float) (o : option exn) :
  (0 <= nsteps)%Z ->
  no_overflow dt nsteps ->
  (forall p', prognostic_to prognostic selected_device = Ok p' ->
     Dict.get "lead_time" (output_coords p')
     = Some (Np.ArrTimedelta float [dt])) ->
  (forall tm lt var d x c, fetch_data data tm lt var d = Ok (x, c) ->
     Dict.wf c /\ ~ In "ensemble"%string (Dict.keys c)) ->
  In (Call (CallAddArray sc names) o) (trace_of (run fuel w s)) ->
  exists p' tm lt var x c,
    prognostic_to prognostic selected_device = Ok p' /\
    to_time_array time = Ok tm /\
    Dict.get "lead_time" (input_coords p') = Some lt /\
    Dict.get "variable" (input_coords p') = Some var /\
    In (Call (CallFetchData tm lt var selected_device) None)
       (trace_of (run fuel w s)) /\
    fetch_data data tm lt var selected_device = Ok (x, c) /\
    Dict.get "variable" c = Some names /\
    sc = spec_schema c nensemble nsteps dt /\
    Dict.get "ensemble" sc = Some (Np.ArrInt float (range nensemble)) /\
    (exists lead,
       Dict.get "lead_time" sc = Some (Np.ArrTimedelta float lead) /\
       length lead = Z.to_nat (nsteps + 1) /\
       forall i, i < length lead -> nth i lead 0%Z = (Z.of_nat i * dt)%Z) /\
    Dict.get "variable" sc = None /\
    (forall k, k <> "ensemble"%string -> k <> "lead_time"%string ->
               k <> "variable"%string -> Dict.get k sc = Dict.get k c).
Proof.
  intros Hn Hfit Hdt Hfetch Hin.
  apply run_declaration_in_prepare in Hin; [|reflexivity].
  apply prepare_schema_request in Hin
    as (p' & tm & lt & var & x0 & c0 & Hto & Htm & Hlt & Hvar0 & Hreq & Hfd
        & Hout).
  destruct (Hfetch _ _ _ _ _ _ Hfd) as [Hwf Hfresh].
  eapply output_schema_inv in Hout as [Hvar ->]; eauto.
  destruct (spec_schema_lookup c0 nensemble nsteps dt)
    as (He & Hl & Hv & Hk).
  exists p', tm, lt, var, x0, c0.
  split; [exact Hto|]. split; [exact Htm|]. split; [exact Hlt|].
  split; [exact Hvar0|].
  split; [now apply prepare_trace_in_run|].
  split; [exact Hfd|]. split; [exact Hvar|]. split; [reflexivity|].
  split; [exact He|]. split; [|split; [exact Hv | exact Hk]].
  eexists. split; [exact Hl|]. split.
  - now rewrite length_map, range_length.
  - intros i Hi. rewrite length_map, range_length in Hi.
    now apply spec_lead_times_nth.
Qed.

(** C4. The fetched tensor is broadcast across a new leading ensemble
    dimension of size [nensemble]: [nensemble] copies of the fetched buffer
    under the shape [nensemble :: shape], with the ["ensemble"] axis
    prepended to the coordinates with values [0 .. nensemble - 1]; and every
    tensor written to the sink has a leading dimension of size exactly
    [nensemble]. The fetched tensor is well formed and its coordinates have
    no ["ensemble"] entry; [map_coords], the prognostic sequence and
    [extract_coords] keep the size of the leading axis. *)
Theorem ensemble_dimension_is_nensemble (fuel : nat) (w : Omega)
    (s : SinkState) :
  (forall tm lt var d x c, fetch_data data tm lt var d = Ok (x, c) ->
     Torch.wf x /\ Dict.wf c /\ ~ In "ensemble"%string (Dict.keys c)) ->
  (forall x c ic x' c', map_coords x c ic = Ok (x', c') ->
     Torch.size0 x' = Torch.size0 x) ->
  (forall p w0 x c it k y cy,
     create_iterator p w0 x c = Ok it -> iter_nth w0 k it = Some (y, cy) ->
     Torch.size0 y = Torch.size0 x) ->
  (forall x c xs c' names, extract_coords x c = Ok (xs, c', names) ->
     Forall (fun xi => Torch.size0 xi = Torch.size0 x) xs) ->
  (forall tm lt var d x c,
     fetch_data data tm lt var d = Ok (x, c) -> (0 <= nensemble)%Z ->
     expand_ensemble nensemble x
     = Ok (Torch.mkTensor
             (Z.to_nat nensemble :: Torch.shape x)
             (concat (List.repeat (Torch.data x) (Z.to_nat nensemble)))) /\
     ensemble_coords nensemble c
     = ("ensemble"%string, Np.ArrInt float (range nensemble)) :: c) /\
  (forall ev, In ev (writes (trace_of (run fuel w s))) ->
     (0 <= nensemble)%Z /\
     Forall (fun x => Torch.size0 x = Some (Z.to_nat nensemble))
            (written_tensors ev)).
Proof.
  intros Hfetch Hmap Hseq Hext. split.
  - intros tm lt var d x c Hfd Hn.
    destruct (Hfetch _ _ _ _ _ _ Hfd) as (Hwf & Hcwf & Hfresh). split.
    + now apply expand_ensemble_spec.
    + now apply ensemble_coords_fresh.
  - intros ev Hev.
    destruct (run_writes time nsteps nensemble prognostic data io fuel w s)
      as [Hnone|(it & s1 & t1 & Hprep & Hw)].
    { rewrite Hnone in Hev. contradiction. }
    rewrite Hw in Hev. apply In_nth_error in Hev as [k Hk].
    apply loop_writes_nth in Hk
      as (y & cy & xs & c' & nm & o & Hnth & Hex & ->).
    destruct Hprep as [p' tm lt var x0 c0 xe names total s' xm cm noise xp it
                         _ _ _ _ _ Hexp _ _ Hmc _ Hadd Hit].
    cbn [written_tensors]. split.
    + eapply expand_ensemble_nonneg; eauto.
    + assert (Hsize : Torch.size0 y = Some (Z.to_nat nensemble)).
      { rewrite (Hseq _ _ _ _ _ _ _ _ Hit Hnth).
        unfold Torch.size0 at 1. rewrite (iadd_shape _ _ Hadd).
        fold (Torch.size0 xm). rewrite (Hmap _ _ _ _ _ Hmc).
        unfold Torch.size0. now rewrite (expand_ensemble_shape _ _ Hexp). }
      specialize (Hext _ _ _ _ _ Hex).
      eapply Forall_impl; [|exact Hext]. cbv beta. intros a ->. exact Hsize.
Qed.

(** C5. Right after the broadcast and before the perturbation, the state
    has [nensemble] members and they are identical: the slices of any two
    ensemble indices are equal, both being the fetched tensor. *)
Theorem members_identical_after_broadcast
    (x xe : Torch.Tensor float) (i j : nat) :
  Torch.wf x ->
  expand_ensemble nensemble x = Ok xe ->
  i < Z.to_nat nensemble -> j < Z.to_nat nensemble ->
  Torch.size0 xe = Some (Z.to_nat nensemble) /\
  Torch.select0 i xe = Torch.select0 j xe /\
  Torch.select0 i xe = x.
Proof.
  intros Hwf Hxe Hi Hj. repeat split.
  - unfold Torch.size0. now rewrite (expand_ensemble_shape _ _ Hxe).
  - now rewrite (select0_expand _ Hwf Hxe Hi), (select0_expand _ Hwf Hxe Hj).
  - exact (select0_expand _ Hwf Hxe Hi).
Qed.

(** C6. If the perturbation method returns an all-zero noise field and the
    prognostic model is deterministic, the run is deterministic: two runs
    on the same arguments and the same sink, whatever randomness each
    draws, have the same outcome, leave the same sink and make the same
    sequence of calls; in particular they make the same writes. *)
Theorem zero_noise_runs_are_deterministic (fuel : nat) (w1 w2 : Omega)
    (s : SinkState) :
  (forall w x c, exists noise,
     perturbation_method w x c = Ok noise /\
     all_zero noise /\
     Torch.broadcastable (Torch.shape noise) (Torch.shape x) = true) ->
  (forall w w' p x c, create_iterator p w x c = create_iterator p w' x c) ->
  (forall w w' it, iter_next w it = iter_next w' it) ->
  run fuel w1 s = run fuel w2 s /\
  writes (trace_of (run fuel w1 s)) = writes (trace_of (run fuel w2 s)).
Proof.
  intros Hzero Hstart Hnext.
  assert (Heq : run fuel w1 s = run fuel w2 s)
    by now apply run_deterministic.
  split; [exact Heq | now rewrite Heq].
Qed.

(** C7. If the time list is empty, or holds a string that is not a date,
    the run fails before anything is fetched from the data source and
    before anything is declared or written to the sink, which is left as it
    was. *)
Theorem unresolved_time_fails_before_fetch (fuel : nat) (w : Omega)
    (s : SinkState) :
  time = [] \/
  (exists str, In (TStr str) time /\ parse_datetime64 str = None) ->
  exists e,
    outcome_of (run fuel w s) = Failed e /\
    filter is_fetch (trace_of (run fuel w s)) = [] /\
    writes (trace_of (run fuel w s)) = [] /\
    declarations (trace_of (run fuel w s)) = [] /\
    sink_of (run fuel w s) = s.
Proof.
  intros Htime. apply to_time_array_fails in Htime as (e0 & Htime).
  destruct (@prepare_time_fails _ time nsteps nensemble prognostic w data io
              s _ Htime) as (e & Hout & Hsink & Hfetch & Hdecl).
  destruct (run_cases time nsteps nensemble prognostic w data io fuel s)
    as [(e' & He' & Hrun)|(it & s1 & t1 & _ & Hp & _)].
  - rewrite Hrun, outcome_of_triple, trace_of_triple, sink_of_triple.
    exists e'. repeat split; auto. apply prepare_writes.
  - rewrite Hp, outcome_of_triple in Hout. discriminate.
Qed.
End Properties.

(** * The properties on the concrete setup *)

(** ** Facts about the concrete collaborators *)

Lemma broadcastable_refl (sh : list nat) : Torch.broadcastable sh sh = true.
Proof.
  unfold Torch.broadcastable, Torch.pad_ones.
  rewrite Nat.leb_refl, Nat.sub_diag. cbn [List.repeat app andb].
  induction sh as [|n sh IH]; [reflexivity|].
  cbn. now rewrite Nat.eqb_refl, IH.
Qed.

Section DemoFacts.
Variables (amplitude : Z) (horizon : option Z).

Notation demo := (Demo.env amplitude horizon).

Lemma demo_never_ends (w : nat) (it : Demo.iterator) :
  @iter_next (Demo.env amplitude None) w it <> StopIteration.
Proof. cbn. discriminate. Qed.

Lemma demo_fetch_well_formed (src : Demo.source) (tm lt var : Demo.array)
    (d : device) (x : Demo.tensor) (c : Demo.coords) :
  Demo.fetch src tm lt var d = Ok (x, c) ->
  Torch.wf x /\ Dict.wf c /\ ~ In "ensemble"%string (Dict.keys c).
Proof.
  unfold Demo.fetch. destruct (Demo.available src); [|discriminate].
  intros [= <- <-]. repeat split.
  - unfold Torch.wf. cbn [Torch.data Torch.shape].
    now rewrite length_map, length_seq.
  - unfold Dict.wf. cbn.
    repeat (constructor; [cbn; intuition discriminate|]). constructor.
  - cbn. intuition discriminate.
Qed.

Lemma demo_next_keeps_shape (w : nat) (k : nat) (it : Demo.iterator)
    (y : Demo.tensor) (cy : Demo.coords) :
  @iter_nth demo w k it = Some (y, cy) ->
  Torch.shape y = Torch.shape (Demo.it_state it).
Proof.
  revert it. induction k as [|k IH]; intros it; cbn [iter_nth iter_next demo];
    unfold Demo.next;
    destruct horizon as [n|]; try destruct (n <=? Demo.it_index it)%Z;
    try discriminate.
  - now intros [= <- _].
  - now intros [= <- _].
  - intros H. now rewrite (IH _ H).
  - intros H. now rewrite (IH _ H).
Qed.

Lemma demo_sequence_keeps_size (p : Demo.model) (w : nat) (x : Demo.tensor)
    (c : Demo.coords) (it : Demo.iterator) (k : nat) (y : Demo.tensor)
    (cy : Demo.coords) :
  @create_iterator demo p w x c = Ok it ->
  @iter_nth demo w k it = Some (y, cy) ->
  Torch.size0 y = Torch.size0 x.
Proof.
  cbn. unfold Demo.start. intros [= <-] Hnth. unfold Torch.size0.
  apply demo_next_keeps_shape in Hnth. now rewrite Hnth.
Qed.

Lemma demo_extract_keeps_size (x : Demo.tensor) (c : Demo.coords)
    (xs : list Demo.tensor) (c' : Demo.coords) (names : Demo.array) :
  Demo.extract x c = Ok (xs, c', names) ->
  Forall (fun xi => Torch.size0 xi = Torch.size0 x) xs.
Proof.
  unfold Demo.extract. destruct (Dict.pop "variable" c); [|discriminate].
  intros [= <- _ _]. now constructor.
Qed.

Lemma demo_zero_noise (w : nat) (x : Demo.tensor) (c : Demo.coords) :
  exists noise,
    Demo.perturb 0 w x c = Ok noise /\
    @all_zero (Demo.env 0 horizon) noise /\
    Torch.broadcastable (Torch.shape noise) (Torch.shape x) = true.
Proof.
  eexists. split; [reflexivity|]. split; [split|].
  - unfold Torch.wf. cbn [Torch.data Torch.shape].
    now rewrite length_map, length_seq.
  - cbn [Torch.data]. apply Forall_forall. intros z Hz.
    apply in_map_iff in Hz as (i & <- & _). reflexivity.
  - apply broadcastable_refl.
Qed.
End DemoFacts.


(** ** The claims at concrete inputs *)

Notation demo := (Demo.env 1 None).

(** C1 at [Demo.forecast]: two steps, three writes, at indices 0, 1, 2. *)
Lemma writes_once_per_lead_time_demo :
  ((0 <= 2)%Z /\ Z.to_nat 2 < 3 /\
   (forall it, @iter_next demo 5 it <> StopIteration) /\
   (forall e, outcome_of Demo.forecast <> Failed e)) /\
  (outcome_of Demo.forecast = Done 7 /\
   quiet (trace_of Demo.forecast) /\
   length (writes (trace_of Demo.forecast)) = 3 /\
   write_steps (trace_of Demo.forecast) = [0; 1; 2]%Z /\
   StronglySorted Z.lt (write_steps (trace_of Demo.forecast)) /\
   NoDup (write_steps (trace_of Demo.forecast)) /\
   exists it s1 t1,
     @prepared demo Demo.new_year 2 2 Demo.fcn 5 Demo.gfs 7 Demo.empty_sink
               it s1 t1 /\
     forall k ev,
       nth_error (writes (trace_of Demo.forecast)) k = Some ev ->
       exists x c xs c' names,
         @iter_nth demo 5 k it = Some (x, c) /\
         @extract_coords demo x c = Ok (xs, c', names) /\
         ev = @Call demo (@CallWrite demo (Z.of_nat k) xs c' names) None).
Proof.
  assert (H1 : (0 <= 2)%Z) by lia.
  assert (H2 : Z.to_nat 2 < 3) by (vm_compute; lia).
  assert (H3 : forall it, @iter_next demo 5 it <> StopIteration)
    by (intros it; apply demo_never_ends).
  assert (H4 : forall e, outcome_of Demo.forecast <> Failed e)
    by (intros e; vm_compute; discriminate).
  split; [exact (conj H1 (conj H2 (conj H3 H4)))|].
  exact (@writes_once_per_lead_time demo Demo.new_year 2 2 Demo.fcn Demo.gfs
           7 3 5 Demo.empty_sink H1 H2 H3 H4).
Defined.

(** C2, as stated, at [Demo.outage]: the run failed at the data source and
    the schema was never declared. *)
Lemma outage_declares_nothing :
  outcome_of Demo.outage
  = Failed (OtherError "requested variables are unavailable") /\
  declarations (trace_of Demo.outage) = [] /\
  length (declarations (trace_of Demo.outage)) = 0.
Proof. repeat split. Qed.

(** C3, as stated, at [Demo.overflowing]: the native step is [2^62]
    ticks, and the entry of index 2 of the declared lead-time axis is
    [NaT], not twice the step. *)
Lemma overflow_declares_nat :
  Dict.get "lead_time" (@output_coords demo Demo.glacial)
  = Some (Np.ArrTimedelta Z [4611686018427387904%Z]) /\
  nth_error (trace_of Demo.overflowing) 6
  = Some (@Call demo (@CallAddArray demo Demo.overflowing_schema
                        Demo.forecast_channels) None) /\
  Dict.get "lead_time" Demo.overflowing_schema
  = Some (Np.ArrTimedelta Z [0%Z; 4611686018427387904%Z; Np.NaT]) /\
  (Np.NaT =? 2 * 4611686018427387904)%Z = false.
Proof.
  split; [reflexivity|]. split; [vm_compute; reflexivity|].
  split; reflexivity.
Qed.

(** C3, amended, at [Demo.forecast]. *)
Lemma declared_schema_demo :
  ((0 <= 2)%Z /\
   no_overflow 6 2 /\
   (forall p', @prognostic_to demo Demo.fcn (@selected_device demo) = Ok p' ->
      Dict.get "lead_time" (@output_coords demo p')
      = Some (Np.ArrTimedelta Z [6%Z])) /\
   (forall tm lt var d x c, Demo.fetch Demo.gfs tm lt var d = Ok (x, c) ->
      Dict.wf c /\ ~ In "ensemble"%string (Dict.keys c)) /\
   In (@Call demo (@CallAddArray demo Demo.forecast_schema Demo.forecast_channels)
              None)
      (trace_of Demo.forecast)) /\
  exists p' tm lt var x c,
    @prognostic_to demo Demo.fcn (@selected_device demo) = Ok p' /\
    @to_time_array demo Demo.new_year = Ok tm /\
    Dict.get "lead_time" (@input_coords demo p') = Some lt /\
    Dict.get "variable" (@input_coords demo p') = Some var /\
    In (@Call demo (@CallFetchData demo tm lt var (@selected_device demo))
          None)
       (trace_of Demo.forecast) /\
    Demo.fetch Demo.gfs tm lt var (@selected_device demo) = Ok (x, c) /\
    Dict.get "variable" c = Some Demo.forecast_channels /\
    Demo.forecast_schema = @spec_schema demo c 2 2 6 /\
    Dict.get "ensemble" Demo.forecast_schema
    = Some (Np.ArrInt Z (range 2)) /\
    (exists lead,
       Dict.get "lead_time" Demo.forecast_schema
       = Some (Np.ArrTimedelta Z lead) /\
       length lead = Z.to_nat (2 + 1) /\
       forall i, i < length lead -> nth i lead 0%Z = (Z.of_nat i * 6)%Z) /\
    Dict.get "variable" Demo.forecast_schema = None /\
    (forall k, k <> "ensemble"%string -> k <> "lead_time"%string ->
               k <> "variable"%string ->
               Dict.get k Demo.forecast_schema = Dict.get k c).
Proof.
  assert (H1 : (0 <= 2)%Z) by lia.
  assert (H0 : no_overflow 6 2).
  { unfold no_overflow, Np.NaT, Np.int64_min, Np.int64_max. lia. }
  assert (H2 : forall p',
             @prognostic_to demo Demo.fcn (@selected_device demo) = Ok p' ->
             Dict.get "lead_time" (@output_coords demo p')
             = Some (Np.ArrTimedelta Z [6%Z]))
    by (intros p' [= <-]; reflexivity).
  assert (H3 : forall tm lt var d x c,
             Demo.fetch Demo.gfs tm lt var d = Ok (x, c) ->
             Dict.wf c /\ ~ In "ensemble"%string (Dict.keys c)).
  { intros tm lt var d x c H.
    apply demo_fetch_well_formed in H as (_ & Hwf & Hfresh). now split. }
  assert (H4 : In (@Call demo (@CallAddArray demo Demo.forecast_schema
                                            Demo.forecast_channels) None)
                  (trace_of Demo.forecast)).
  { apply nth_error_In with (n := 6). vm_compute. reflexivity. }
  split; [exact (conj H1 (conj H0 (conj H2 (conj H3 H4))))|].
  exact (@declared_schema_extends_fetch_coordinates demo Demo.new_year 2 2
           Demo.fcn Demo.gfs 7 3 5 Demo.empty_sink 6 Demo.forecast_schema
           Demo.forecast_channels None H1 H0 H2 H3 H4).
Defined.

(** C4 at [Demo.forecast]. *)
Lemma ensemble_dimension_demo :
  ((forall tm lt var d x c, Demo.fetch Demo.gfs tm lt var d = Ok (x, c) ->
      Torch.wf x /\ Dict.wf c /\ ~ In "ensemble"%string (Dict.keys c)) /\
   (forall x c ic x' c', @map_coords demo x c ic = Ok (x', c') ->
      Torch.size0 x' = Torch.size0 x) /\
   (forall p w0 x c it k y cy,
      @create_iterator demo p w0 x c = Ok it ->
      @iter_nth demo w0 k it = Some (y, cy) ->
      Torch.size0 y = Torch.size0 x) /\
   (forall x c xs c' names, @extract_coords demo x c = Ok (xs, c', names) ->
      Forall (fun xi => Torch.size0 xi = Torch.size0 x) xs)) /\
  ((forall tm lt var d x c,
      Demo.fetch Demo.gfs tm lt var d = Ok (x, c) -> (0 <= 2)%Z ->
      @expand_ensemble demo 2 x
      = Ok (Torch.mkTensor
              (Z.to_nat 2 :: Torch.shape x)
              (concat (List.repeat (Torch.data x) (Z.to_nat 2)))) /\
      @ensemble_coords demo 2 c
      = ("ensemble"%string, Np.ArrInt Z (range 2)) :: c) /\
   (forall ev, In ev (writes (trace_of Demo.forecast)) ->
      (0 <= 2)%Z /\
      Forall (fun x => Torch.size0 x = Some (Z.to_nat 2))
             (@written_tensors demo ev))).
Proof.
  assert (H1 : forall tm lt var d x c,
             Demo.fetch Demo.gfs tm lt var d = Ok (x, c) ->
             Torch.wf x /\ Dict.wf c /\ ~ In "ensemble"%string (Dict.keys c))
    by (intros tm lt var d x c H; now apply demo_fetch_well_formed in H).
  assert (H2 : forall x c ic x' c',
             @map_coords demo x c ic = Ok (x', c') ->
             Torch.size0 x' = Torch.size0 x)
    by (intros x c ic x' c' [= <- _]; reflexivity).
  assert (H3 : forall p w0 x c it k y cy,
             @create_iterator demo p w0 x c = Ok it ->
             @iter_nth demo w0 k it = Some (y, cy) ->
             Torch.size0 y = Torch.size0 x)
    by (intros p w0 x c it k y cy; apply demo_sequence_keeps_size).
  assert (H4 : forall x c xs c' names,
             @extract_coords demo x c = Ok (xs, c', names) ->
             Forall (fun xi => Torch.size0 xi = Torch.size0 x) xs)
    by (intros x c xs c' names; apply demo_extract_keeps_size).
  split; [exact (conj H1 (conj H2 (conj H3 H4)))|].
  exact (@ensemble_dimension_is_nensemble demo Demo.new_year 2 2 Demo.fcn
           Demo.gfs 7 3 5 Demo.empty_sink H1 H2 H3 H4).
Defined.

(** C5 at the tensor served for [Demo.forecast], members 0 and 1. *)
Lemma members_identical_demo :
  (Torch.wf Demo.served /\
   @expand_ensemble demo 2 Demo.served = Ok Demo.served_twice /\
   0 < Z.to_nat 2 /\ 1 < Z.to_nat 2) /\
  (Torch.size0 Demo.served_twice = Some (Z.to_nat 2) /\
   Torch.select0 0 Demo.served_twice = Torch.select0 1 Demo.served_twice /\
   Torch.select0 0 Demo.served_twice = Demo.served).
Proof.
  assert (H1 : Torch.wf Demo.served) by reflexivity.
  assert (H2 : @expand_ensemble demo 2 Demo.served = Ok Demo.served_twice)
    by reflexivity.
  assert (H3 : 0 < Z.to_nat 2) by (vm_compute; lia).
  assert (H4 : 1 < Z.to_nat 2) by (vm_compute; lia).
  split; [exact (conj H1 (conj H2 (conj H3 H4)))|].
  exact (@members_identical_after_broadcast demo 2 Demo.served
           Demo.served_twice 0 1 H1 H2 H3 H4).
Defined.

(** C6 at [Demo.calm]: amplitude zero, two different draws. *)
Lemma zero_noise_demo :
  ((forall w x c, exists noise,
      @perturbation_method (Demo.env 0 None) w x c = Ok noise /\
      @all_zero (Demo.env 0 None) noise /\
      Torch.broadcastable (Torch.shape noise) (Torch.shape x) = true) /\
   (forall w w' p x c,
      @create_iterator (Demo.env 0 None) p w x c
      = @create_iterator (Demo.env 0 None) p w' x c) /\
   (forall w w' it,
      @iter_next (Demo.env 0 None) w it = @iter_next (Demo.env 0 None) w' it)) /\
  (Demo.calm 5 = Demo.calm 9 /\
   writes (trace_of (Demo.calm 5)) = writes (trace_of (Demo.calm 9))).
Proof.
  assert (H1 : forall w x c, exists noise,
             @perturbation_method (Demo.env 0 None) w x c = Ok noise /\
             @all_zero (Demo.env 0 None) noise /\
             Torch.broadcastable (Torch.shape noise) (Torch.shape x) = true)
    by (intros w x c; apply demo_zero_noise).
  assert (H2 : forall w w' p x c,
             @create_iterator (Demo.env 0 None) p w x c
             = @create_iterator (Demo.env 0 None) p w' x c)
    by reflexivity.
  assert (H3 : forall w w' it,
             @iter_next (Demo.env 0 None) w it
             = @iter_next (Demo.env 0 None) w' it)
    by reflexivity.
  split; [exact (conj H1 (conj H2 H3))|].
  exact (@zero_noise_runs_are_deterministic (Demo.env 0 None) Demo.new_year
           2 2 Demo.fcn Demo.gfs 7 3 5 9 Demo.empty_sink H1 H2 H3).
Defined.

(** C7 at [Demo.timeless]: an empty time list. *)
Lemma unresolved_time_demo :
  (@nil TimeLike = [] \/
   (exists str, In (TStr str) [] /\ @parse_datetime64 demo str = None)) /\
  exists e,
    outcome_of Demo.timeless = Failed e /\
    filter (@is_fetch demo) (trace_of Demo.timeless) = [] /\
    writes (trace_of Demo.timeless) = [] /\
    declarations (trace_of Demo.timeless) = [] /\
    sink_of Demo.timeless = Demo.empty_sink.
Proof.
  assert (H1 : @nil TimeLike = [] \/
               (exists str, In (TStr str) [] /\
                            @parse_datetime64 demo str = None))
    by (left; reflexivity).
  split; [exact H1|].
  exact (@unresolved_time_fails_before_fetch demo [] 2 2 Demo.fcn Demo.gfs 7
           3 5 Demo.empty_sink H1).
Defined.

(** C8 at [Demo.outage]: the data source raises and the run stops there. *)
Lemma failures_propagate_demo :
  trace_of Demo.outage
  = [Log INFO "Running simple workflow!"; Log INFO "Inference device: cpu";
     Call (CallTo Cpu) None; Call (CallToTimeArray Demo.new_year) None]
    ++ @Call demo
         (@CallFetchData demo (Np.ArrDatetime Z [19723%Z])
            (Np.ArrTimedelta Z [0%Z]) (Np.ArrStr Z (Demo.variables Demo.fcn))
            Cpu)
         (Some (OtherError "requested variables are unavailable"))
       :: [] /\
  (outcome_of Demo.outage
   = Failed (OtherError "requested variables are unavailable") /\
   @quiet demo
     [Log INFO "Running simple workflow!"; Log INFO "Inference device: cpu";
      Call (CallTo Cpu) None; Call (CallToTimeArray Demo.new_year) None] /\
   Forall (fun ev => @is_call demo ev = false) []).
Proof.
  assert (H1 : trace_of Demo.outage
    = [Log INFO "Running simple workflow!"; Log INFO "Inference device: cpu";
       Call (CallTo Cpu) None; Call (CallToTimeArray Demo.new_year) None]
      ++ @Call demo
           (@CallFetchData demo (Np.ArrDatetime Z [19723%Z])
              (Np.ArrTimedelta Z [0%Z])
              (Np.ArrStr Z (Demo.variables Demo.fcn)) Cpu)
           (Some (OtherError "requested variables are unavailable"))
         :: []) by reflexivity.
  split; [exact H1|].
  exact (@failures_propagate demo Demo.new_year 2 2 Demo.fcn Demo.offline 7
           3 5 Demo.empty_sink _ _ _ _ H1).
Defined.

(** C9 at [Demo.forecast]: the reference returned is the one passed in. *)
Lemma returns_the_given_sink_demo :
  outcome_of Demo.forecast = Done 7 /\ 7 = 7.
Proof.
  assert (H1 : outcome_of Demo.forecast = Done 7) by reflexivity.
  split; [exact H1|].
  exact (@returns_the_given_sink demo Demo.new_year 2 2 Demo.fcn Demo.gfs 7
           3 5 Demo.empty_sink 7 H1).
Defined.

(** C10 at [Demo.runaway]: [nsteps = -1], four iterations granted, four
    writes made and the loop still running. *)
Lemma negative_nsteps_demo :
  ((-1 < 0)%Z /\
   (forall it, @iter_next demo 5 it <> StopIteration) /\
   (forall e, outcome_of Demo.runaway <> Failed e)) /\
  (outcome_of Demo.runaway = OutOfFuel /\
   length (writes (trace_of Demo.runaway)) = 4).
Proof.
  assert (H1 : (-1 < 0)%Z) by lia.
  assert (H2 : forall it, @iter_next demo 5 it <> StopIteration)
    by (intros it; apply demo_never_ends).
  assert (H3 : forall e, outcome_of Demo.runaway <> Failed e)
    by (intros e; vm_compute; discriminate).
  split; [exact (conj H1 (conj H2 H3))|].
  exact (@negative_nsteps_never_terminates demo Demo.new_year (-1) 2 Demo.fcn
           Demo.gfs 7 4 5 Demo.empty_sink H1 H2 H3).
Defined.

(** The scenario of the specification: eleven writes, eight members in
    each, lead times 0, 6, ..., 60 hours in the schema. *)
Example ten_steps_scenario :
  outcome_of Demo.ten_steps = Done 7 /\
  write_steps (trace_of Demo.ten_steps) = range 11 /\
  Forall (fun ev => Forall (fun x => Torch.size0 x = Some 8)
                           (@written_tensors demo ev))
         (writes (trace_of Demo.ten_steps)) /\
  option_map (fun d => Dict.get "lead_time" (fst d))
             (Demo.declared (sink_of Demo.ten_steps))
  = Some (Some (Np.ArrTimedelta Z
                  [0; 6; 12; 18; 24; 30; 36; 42; 48; 54; 60]%Z)).
Proof.
  split; [vm_compute; reflexivity|].
  split; [vm_compute; reflexivity|].
  split; [|vm_compute; reflexivity].
  assert (H : forallb
                (fun ev => forallb
                             (fun x => match Torch.size0 x with
                                       | Some n => Nat.eqb n 8
                                       | None => false
                                       end)
                             (@written_tensors demo ev))
                (writes (trace_of Demo.ten_steps)) = true)
    by (vm_compute; reflexivity).
  pose proof (proj1 (forallb_forall _ _) H) as H'. clear H.
  apply Forall_forall. intros ev Hev.
  pose proof (proj1 (forallb_forall _ _) (H' ev Hev)) as H''. clear H'.
  apply Forall_forall. intros x Hx. specialize (H'' x Hx). cbv beta in H''.
  destruct (Torch.size0 x) as [n|]; [|discriminate].
  apply Nat.eqb_eq in H''. subst n. reflexivity.
Qed.

(** A sequence that ends early ends the loop without an error: the run
    completes with fewer writes than [nsteps + 1]. *)
Example short_sequence_scenario :
  outcome_of Demo.short_sequence = Done 7 /\
  write_steps (trace_of Demo.short_sequence) = [0; 1]%Z /\
  In (@Exhausted (Demo.env 1 (Some 2%Z)) 2) (trace_of Demo.short_sequence).
Proof.
  repeat split; try reflexivity.
  apply nth_error_In with (n := 21). vm_compute. reflexivity.
Qed.


(** * Further properties of [run_ensemble] *)

(** ** Counting events *)

Section CountFacts.
Context {E : Env}.

Lemma count_app (p : event -> bool) (t1 t2 : list event) :
  count p (t1 ++ t2) = count p t1 + count p t2.
Proof. unfold count. now rewrite filter_app, length_app. Qed.

Lemma count_cons (p : event -> bool) (ev : event) (t : list event) :
  count p (ev :: t) = (if p ev then 1 else 0) + count p t.
Proof. unfold count. cbn [filter]. now destruct (p ev). Qed.

Lemma replays_app (io : IOBackend) (s s1 s2 : SinkState)
    (t1 t2 : list event) :
  replays io s t1 s1 -> replays io s1 t2 s2 -> replays io s (t1 ++ t2) s2.
Proof.
  revert s. induction t1 as [|ev t1 IH]; intros s H1 H2.
  - cbn in H1. now subst.
  - destruct ev as [| [] o | | | |]; cbn [app replays] in *;
      try (now apply IH);
      destruct H1 as [Ho H1]; (split; [exact Ho | now apply IH]).
Qed.

Lemma replays_no_call (io : IOBackend) (s : SinkState) (t : list event) :
  Forall (fun ev => is_call ev = false) t -> replays io s t s.
Proof.
  induction 1 as [|ev t Hev _ IH]; [reflexivity|].
  destruct ev; try discriminate Hev; exact IH.
Qed.
End CountFacts.

(** ** The loop, whatever happens in it *)

Section LoopBounds.
Context {E : Env}.
Variables (nsteps : Z) (w : Omega) (io : IOBackend).

Notation loop fuel := (inference_loop fuel nsteps w io).

(** The loop asks for at most [nsteps - step + 1] elements and writes at
    most as many times, whether it completes, fails or is cut short. *)
Lemma loop_bounded (fuel : nat) (step : Z) (it : Iterator) (s : SinkState) :
  (step <= nsteps)%Z ->
  count is_next (trace_of (loop fuel step it s))
    <= Z.to_nat (nsteps - step + 1) /\
  length (writes (trace_of (loop fuel step it s)))
    <= count is_next (trace_of (loop fuel step it s)).
Proof.
  revert step it s. induction fuel as [|fuel IH]; intros step it s Hle.
  - cbn. lia.
  - destruct (iter_next w it) as [x c it'| |e] eqn:Hnext.
    + erewrite loop_yield by eassumption.
      destruct (extract_coords x c) as [[[xs c'] names]|e];
        [|cbn; lia].
      destruct (io_write io xs c' names s) as [[e|] s1]; [cbn; lia|].
      destruct (Z.eqb_spec step nsteps) as [->|Hne]; [cbn; lia|].
      specialize (IH (step + 1)%Z it' s1).
      destruct (inference_loop fuel nsteps w io (step + 1) it' s1)
        as [[r s2] t]. cbn in IH |- *.
      destruct IH as [IH1 IH2]; [lia|].
      unfold count in *. cbn. lia.
    + rewrite loop_stop by assumption. cbn. lia.
    + erewrite loop_raise by eassumption. cbn. lia.
Qed.

(** Every returned write is followed by one update of the progress bar,
    and the loop neither opens nor closes the bar. *)
Lemma loop_progress (fuel : nat) (step : Z) (it : Iterator) (s : SinkState) :
  count is_pbar_update (trace_of (loop fuel step it s))
    = count is_returned_write (trace_of (loop fuel step it s)) /\
  count is_pbar_open (trace_of (loop fuel step it s)) = 0 /\
  count is_pbar_close (trace_of (loop fuel step it s)) = 0.
Proof.
  revert step it s. induction fuel as [|fuel IH]; intros step it s.
  - now cbn.
  - destruct (iter_next w it) as [x c it'| |e] eqn:Hnext.
    + erewrite loop_yield by eassumption.
      destruct (extract_coords x c) as [[[xs c'] names]|e]; [|now cbn].
      destruct (io_write io xs c' names s) as [[e|] s1]; [now cbn|].
      destruct (step =? nsteps)%Z; [now cbn|].
      specialize (IH (step + 1)%Z it' s1).
      destruct (inference_loop fuel nsteps w io (step + 1) it' s1)
        as [[r s2] t]. cbn in IH |- *.
      destruct IH as (IH1 & IH2 & IH3). unfold count in *. cbn.
      repeat split; congruence.
    + rewrite loop_stop by assumption. now cbn.
    + erewrite loop_raise by eassumption. now cbn.
Qed.

(** The sink calls of the loop account for its final state. *)
Lemma loop_replays (fuel : nat) (step : Z) (it : Iterator) (s : SinkState) :
  replays io s (trace_of (loop fuel step it s))
          (sink_of (loop fuel step it s)).
Proof.
  revert step it s. induction fuel as [|fuel IH]; intros step it s.
  - reflexivity.
  - destruct (iter_next w it) as [x c it'| |e] eqn:Hnext.
    + erewrite loop_yield by eassumption.
      destruct (extract_coords x c) as [[[xs c'] names]|e]; [|reflexivity].
      destruct (io_write io xs c' names s) as [[e|] s1] eqn:Hw.
      { cbn. rewrite Hw. now split. }
      destruct (step =? nsteps)%Z.
      { cbn. rewrite Hw. now split. }
      specialize (IH (step + 1)%Z it' s1).
      destruct (inference_loop fuel nsteps w io (step + 1) it' s1)
        as [[r s2] t]. cbn in IH |- *. rewrite Hw. now split.
    + rewrite loop_stop by assumption. reflexivity.
    + erewrite loop_raise by eassumption. reflexivity.
Qed.

(** A sequence of [m] elements, with [m] short of the exit test, ends the
    loop normally after [m] writes. *)
Lemma loop_exhausts (fuel : nat) (m : nat) (step : Z) (it : Iterator)
    (s : SinkState) :
  ends_after w m it ->
  (step + Z.of_nat m <= nsteps)%Z -> m < fuel ->
  (forall e, outcome_of (loop fuel step it s) <> Failed e) ->
  outcome_of (loop fuel step it s) = Done tt /\
  quiet (trace_of (loop fuel step it s)) /\
  length (writes (trace_of (loop fuel step it s))) = m /\
  In (Exhausted (step + Z.of_nat m)) (trace_of (loop fuel step it s)).
Proof.
  revert m step it s.
  induction fuel as [|fuel IH]; intros m step it s Hend Hle Hfuel Hok; [lia|].
  destruct m as [|m]; cbn [ends_after] in Hend.
  - rewrite loop_stop by assumption. cbn. rewrite Z.add_0_r.
    repeat split; auto. now repeat constructor.
  - destruct Hend as (x & c & it' & Hnext & Hend).
    erewrite loop_yield in Hok |- * by eassumption.
    destruct (extract_coords x c) as [[[xs c'] names]|e];
      [|now destruct (Hok e)].
    destruct (io_write io xs c' names s) as [[e|] s1];
      [now destruct (Hok e)|].
    destruct (Z.eqb_spec step nsteps) as [->|Hne]; [lia|].
    specialize (IH m (step + 1)%Z it' s1 Hend).
    destruct (inference_loop fuel nsteps w io (step + 1) it' s1)
      as [[r s2] t]. cbn in IH, Hok |- *.
    destruct IH as (-> & Hq & Hlen & Hin); [lia | lia | exact Hok |].
    repeat split.
    + repeat (constructor; [reflexivity|]). exact Hq.
    + now rewrite Hlen.
    + do 4 right. replace (step + Z.pos (Pos.of_succ_nat m))%Z
        with (step + 1 + Z.of_nat m)%Z by lia. exact Hin.
Qed.
End LoopBounds.

(** ** The preparation, step by step *)

Section PrepareSteps.
Context {E : Env}.

Lemma get_union_absent (V : Type) (k : string) (d1 d2 : Dict.t V) :
  Dict.get k d2 = None -> Dict.get k (Dict.union d1 d2) = Dict.get k d1.
Proof.
  unfold Dict.union. revert d1.
  induction d2 as [|[k2 v2] d2 IH]; intros d1 Hk; [reflexivity|].
  cbn in Hk |- *. destruct (String.eqb_spec k k2) as [->|Hne]; [discriminate|].
  rewrite IH by assumption. now apply DictFacts.get_set_other.
Qed.

(** A schema comes out only if the coordinates name the variables, and
    its lead-time entry is the axis built at lines 135-137. *)
Lemma output_schema_ok (p : PrognosticModel) (nsteps nensemble : Z)
    (c sc : CoordSystem float) (names : Np.ndarray float) :
  output_schema p nsteps (ensemble_coords nensemble c) = Ok (names, sc) ->
  Dict.get "variable" c <> None /\
  exists lead,
    lead_time_axis p nsteps = Ok lead /\
    Dict.get "lead_time" sc = Some lead.
Proof.
  unfold output_schema.
  destruct (lead_time_axis p nsteps) as [lead|e]; [|discriminate].
  cbn [result_bind]. unfold Dict.pop.
  rewrite DictFacts.get_set_other by discriminate.
  destruct (Dict.get "variable" (ensemble_coords nensemble c)) as [v|] eqn:Hv;
    [|discriminate].
  intros [= <- <-]. split.
  - intros Hc. unfold ensemble_coords in Hv.
    rewrite get_union_absent in Hv by assumption.
    cbn [Dict.get] in Hv. revert Hv. eqb_lit. discriminate.
  - exists lead. split; [reflexivity|].
    rewrite DictFacts.get_remove_other by discriminate.
    apply DictFacts.get_set_same.
Qed.

(** Without a ["variable"] entry in the coordinates, the schema fails on
    [pop("variable")] as soon as the lead-time axis is built. *)
Lemma output_schema_unnamed (p : PrognosticModel) (nsteps nensemble : Z)
    (c : CoordSystem float) (lead : Np.ndarray float) :
  Dict.get "variable" c = None ->
  lead_time_axis p nsteps = Ok lead ->
  output_schema p nsteps (ensemble_coords nensemble c)
  = Raise (KeyError "variable").
Proof.
  intros Hc Hlead. unfold output_schema. rewrite Hlead. cbn [result_bind].
  unfold Dict.pop. rewrite DictFacts.get_set_other by discriminate.
  unfold ensemble_coords. rewrite get_union_absent by assumption.
  cbn [Dict.get]. eqb_lit. reflexivity.
Qed.

Lemma concat_rows_stacked (h : Z -> list Z) (a : list Z) (l : list Z) :
  Np.concat_rows (Np.ArrTimedelta float a)
                 (map (fun i => Np.ArrTimedelta float (h i)) l)
  = Ok (Np.ArrTimedelta float (a ++ flat_map h l)).
Proof.
  revert a. induction l as [|b l IH]; intros a; cbn [map Np.concat_rows].
  - cbn. now rewrite app_nil_r.
  - rewrite IH. reflexivity.
Qed.

(** The lead-time axis for a model that outputs any number of lead times
    per step: one row per index, rows laid end to end. *)
Lemma list_comp_ok (A B : Type) (f : A -> result B) (g : A -> B)
    (l : list A) (bs : list B) :
  (forall a b, In a l -> f a = Ok b -> b = g a) ->
  list_comp f l = Ok bs -> bs = map g l.
Proof.
  revert bs. induction l as [|a l IH]; intros bs Hf; cbn [list_comp map].
  - now intros [= <-].
  - destruct (f a) as [b|e] eqn:Hb; [|discriminate]. cbn [result_bind].
    destruct (list_comp f l) as [bs'|e]; [|discriminate]. cbn [result_bind].
    intros [= <-]. f_equal.
    + apply Hf; [now left | assumption].
    + apply IH; [|reflexivity]. intros a' b' Hin. apply Hf. now right.
Qed.

Lemma lead_time_axis_stacked (p : PrognosticModel) (nsteps : Z)
    (lead : list Z) (l : Np.ndarray float) :
  (0 <= nsteps)%Z ->
  Dict.get "lead_time" (output_coords p) = Some (Np.ArrTimedelta float lead) ->
  lead_time_axis p nsteps = Ok l ->
  l = Np.ArrTimedelta float (stacked_lead_times lead nsteps).
Proof.
  intros Hn Hl. unfold lead_time_axis, stacked_lead_times.
  destruct (list_comp _ _) as [rows|e] eqn:Hrows; [|discriminate].
  apply (@list_comp_ok _ _ _
           (fun i => Np.ArrTimedelta float
                       (map (fun v => Np.timedelta_mul v i) lead)))
    in Hrows.
  2:{ intros i b _. unfold Dict.getitem. rewrite Hl.
      cbn [result_bind Np.mul_int].
      destruct (Np.in_int64 i); [now intros [= <-] | discriminate]. }
  subst rows. cbn [result_bind]. rewrite range_cons by assumption.
  cbn [map Np.asarray_flatten flat_map].
  rewrite (concat_rows_stacked
             (fun i => map (fun v => Np.timedelta_mul v i) lead)).
  now intros [= <-].
Qed.

(** Where no product overflows, the rows hold the exact products. *)
Lemma stacked_lead_times_exact (lead : list Z) (nsteps : Z) :
  (forall v, In v lead -> no_overflow v nsteps) ->
  stacked_lead_times lead nsteps = exact_lead_times lead nsteps.
Proof.
  intros Hfit. unfold stacked_lead_times, exact_lead_times.
  assert (Hr : forall i, In i (range (nsteps + 1)) -> (0 <= i <= nsteps)%Z)
    by (intros i Hi; apply range_In in Hi; lia).
  induction (range (nsteps + 1)) as [|i r IH]; [reflexivity|].
  cbn [flat_map]. rewrite IH by (intros; apply Hr; now right). f_equal.
  apply map_ext_in. intros v Hv.
  destruct (@timedelta_mul_exact v nsteps i (Hfit v Hv)) as [_ ->];
    [apply Hr; now left | reflexivity].
Qed.

Lemma stacked_lead_times_length (lead : list Z) (nsteps : Z) :
  length (stacked_lead_times lead nsteps)
  = Z.to_nat (nsteps + 1) * length lead.
Proof.
  unfold stacked_lead_times. rewrite <- range_length.
  induction (range (nsteps + 1)) as [|i l IH]; [reflexivity|].
  cbn [flat_map length]. now rewrite length_app, length_map, IH.
Qed.

Lemma length_concat_repeat (A : Type) (d : list A) (n : nat) :
  length (concat (List.repeat d n)) = n * length d.
Proof.
  induction n as [|n IH]; [reflexivity|].
  cbn. now rewrite length_app, IH.
Qed.

Variables (time : list TimeLike) (nsteps nensemble : Z)
          (prognostic : PrognosticModel) (w : Omega) (data : DataSource)
          (io : IOBackend).

Notation prep := (prepare time nsteps nensemble prognostic w data io).
Notation run fuel :=
  (run_ensemble fuel time nsteps nensemble prognostic w data io).

(** A run whose preparation failed is that failed preparation. *)
Lemma run_of_failed_prepare (fuel : nat) (s : SinkState) (e : exn) :
  outcome_of (prep s) = Failed e ->
  run fuel s = (Failed e, sink_of (prep s), trace_of (prep s)).
Proof.
  intros He.
  destruct (run_cases time nsteps nensemble prognostic w data io fuel s)
    as [(e' & He' & Hrun)|(it & s1 & t1 & _ & Hp & _)].
  - rewrite He in He'. now injection He' as <-.
  - rewrite Hp, outcome_of_triple in He. discriminate.
Qed.

(** Nothing before the loop touches the progress bar, asks the model for
    an element or writes. *)
Lemma prepare_progress (s : SinkState) :
  count is_pbar_update (trace_of (prep s)) = 0 /\
  count is_pbar_open (trace_of (prep s)) = 0 /\
  count is_pbar_close (trace_of (prep s)) = 0 /\
  count is_returned_write (trace_of (prep s)) = 0 /\
  count is_next (trace_of (prep s)) = 0.
Proof. prepare_cases; now cbn. Qed.

(** The one sink call of the preparation accounts for the state it leaves
    the sink in. *)
Lemma prepare_replays (s : SinkState) :
  replays io s (trace_of (prep s)) (sink_of (prep s)).
Proof.
  prepare_cases; cbn [trace_of sink_of fst snd replays];
    repeat match goal with
      | H : io_add_array _ _ _ _ = _ |- _ => rewrite H; clear H
      end;
    cbn [fst snd]; auto.
Qed.

(** Where the data source is asked, if it is. *)
Lemma prepare_fetch (s : SinkState) (tm lt var : Np.ndarray float)
    (d : device) (o : option exn) :
  In (Call (CallFetchData tm lt var d) o) (trace_of (prep s)) ->
  exists p',
    prognostic_to prognostic selected_device = Ok p' /\
    to_time_array time = Ok tm /\
    Dict.get "lead_time" (input_coords p') = Some lt /\
    Dict.get "variable" (input_coords p') = Some var /\
    d = selected_device /\
    o = match fetch_data data tm lt var d with
        | Ok _ => None
        | Raise e => Some e
        end.
Proof.
  prepare_cases; cbn [trace_of snd]; intros Hin;
    repeat (destruct Hin as [Hin|Hin]; try discriminate Hin);
    try contradiction;
    injection Hin as <- <- <- <- <-;
    repeat match goal with
      | H : Dict.getitem _ _ = Ok _ |- _ =>
          unfold Dict.getitem in H;
          let G := fresh "Hget" in
          destruct (Dict.get _ _) eqn:G in H; [|discriminate H];
          injection H as ->
      end;
    eexists; repeat split; eauto; congruence.
Qed.

Lemma prepare_fetch_once (s : SinkState) :
  count is_fetch (trace_of (prep s)) <= 1.
Proof. prepare_cases; cbn; lia. Qed.
(** A negative number of members stops the preparation at the broadcast,
    or earlier. *)
Lemma prepare_negative_members (s : SinkState) :
  (nensemble < 0)%Z ->
  exists e,
    outcome_of (prep s) = Failed e /\
    declarations (trace_of (prep s)) = [] /\
    sink_of (prep s) = s /\
    (forall tm lt var d,
       In (Call (CallFetchData tm lt var d) None) (trace_of (prep s)) ->
       exists msg, e = RuntimeError msg).
Proof.
  intros Hneg. prepare_cases;
    try (exfalso;
         match goal with
         | H : expand_ensemble _ _ = Ok _ |- _ =>
             apply expand_ensemble_nonneg in H; lia
         end);
    cbn [outcome_of sink_of trace_of fst snd];
    (eexists; split; [reflexivity|]; split; [reflexivity|];
     split; [reflexivity|]; intros tm lt var d Hin);
    first
      [ match goal with
        | H : expand_ensemble _ _ = Raise _ |- _ =>
            rewrite expand_ensemble_unfold in H;
            destruct (nensemble <? 0)%Z in H;
            [injection H as <-; eauto | discriminate H]
        end
      | exfalso; cbn in Hin;
        repeat (destruct Hin as [Hin|Hin]; try discriminate Hin);
        contradiction ].
Qed.

(** Coordinates that never name the variables stop the preparation before
    the sink is called: once fetched, they make [pop("variable")] raise. *)
Lemma prepare_unnamed (s : SinkState) :
  (forall tm lt var d x c,
     fetch_data data tm lt var d = Ok (x, c) -> Dict.get "variable" c = None) ->
  (0 <= nensemble)%Z ->
  (forall p', exists lead, lead_time_axis p' nsteps = Ok lead) ->
  exists e,
    outcome_of (prep s) = Failed e /\
    declarations (trace_of (prep s)) = [] /\
    sink_of (prep s) = s /\
    (forall tm lt var d,
       In (Call (CallFetchData tm lt var d) None) (trace_of (prep s)) ->
       e = KeyError "variable").
Proof.
  intros Hnone Hpos Hlead. prepare_cases;
    try (exfalso;
         match goal with
         | H : output_schema _ _ (ensemble_coords _ ?c) = Ok _,
           F : fetch_data _ _ _ _ _ = Ok (_, ?c) |- _ =>
             apply output_schema_ok in H as [H _]; apply H;
             exact (Hnone _ _ _ _ _ _ F)
         | H : expand_ensemble _ _ = Raise _ |- _ =>
             rewrite expand_ensemble_unfold in H;
             destruct (Z.ltb_spec nensemble 0); [lia | discriminate H]
         end);
    cbn [outcome_of sink_of trace_of fst snd];
    (eexists; split; [reflexivity|]; split; [reflexivity|];
     split; [reflexivity|]; intros tm lt var d Hin);
    first
      [ match goal with
        | H : output_schema ?p _ (ensemble_coords _ ?c) = Raise _,
          F : fetch_data _ _ _ _ _ = Ok (_, ?c) |- _ =>
            destruct (Hlead p) as [lead Hl];
            erewrite output_schema_unnamed in H;
            [ now injection H as <-
            | exact (Hnone _ _ _ _ _ _ F)
            | exact Hl ]
        end
      | exfalso; cbn in Hin;
        repeat (destruct Hin as [Hin|Hin]; try discriminate Hin);
        contradiction ].
Qed.

(** A model without the input coordinates the fetch needs stops the
    preparation before the data source is asked. *)
Lemma prepare_without_input_coords (s : SinkState) :
  (forall p', prognostic_to prognostic selected_device = Ok p' ->
     Dict.get "lead_time" (input_coords p') = None \/
     Dict.get "variable" (input_coords p') = None) ->
  exists e,
    outcome_of (prep s) = Failed e /\
    filter is_fetch (trace_of (prep s)) = [] /\
    declarations (trace_of (prep s)) = [] /\
    sink_of (prep s) = s /\
    (In (Call (CallToTimeArray time) None) (trace_of (prep s)) ->
     e = KeyError "lead_time" \/ e = KeyError "variable").
Proof.
  intros Hnone. prepare_cases;
    try (exfalso;
         match goal with
         | H1 : Dict.getitem "lead_time" (input_coords ?p) = Ok _,
           H2 : Dict.getitem "variable" (input_coords ?p) = Ok _ |- _ =>
             unfold Dict.getitem in H1, H2;
             destruct (Hnone p eq_refl) as [Hn|Hn]; rewrite Hn in *;
             discriminate
         end);
    cbn [outcome_of sink_of trace_of fst snd];
    (eexists; split; [reflexivity|]; split; [reflexivity|];
     split; [reflexivity|]; split; [reflexivity|]; intros Hin);
    first
      [ match goal with
        | H : Dict.getitem ?k _ = Raise _ |- _ =>
            unfold Dict.getitem in H;
            destruct (Dict.get k _) in H; [discriminate H|];
            injection H as <-; auto
        end
      | exfalso; cbn in Hin;
        repeat (destruct Hin as [Hin|Hin]; try discriminate Hin);
        contradiction ].
Qed.

(** A failure between the declaration and the loop leaves a sink that is
    declared and empty. *)
Lemma prepare_alignment_failure (s : SinkState) (c : call) (e : exn) :
  In (Call c (Some e)) (trace_of (prep s)) ->
  is_alignment_call c = true ->
  outcome_of (prep s) = Failed e /\
  writes (trace_of (prep s)) = [] /\
  exists sc names,
    declarations (trace_of (prep s)) = [Call (CallAddArray sc names) None] /\
    io_add_array io sc names s = (None, sink_of (prep s)).
Proof.
  prepare_cases; cbn [outcome_of sink_of trace_of fst snd]; intros Hin Hc;
    cbn in Hin;
    repeat (destruct Hin as [Hin|Hin];
            [try discriminate Hin; injection Hin as <- <-;
             try discriminate Hc|]);
    try contradiction;
    (split; [reflexivity|]; split; [reflexivity|];
     do 2 eexists; split; [reflexivity | eassumption]).
Qed.
End PrepareSteps.

(** ** The loop makes only its own calls *)

Section LoopCalls.
Context {E : Env}.
Variables (nsteps : Z) (w : Omega) (io : IOBackend).

Lemma loop_no_alignment (fuel : nat) (step : Z) (it : Iterator)
    (s : SinkState) (c : call) (o : option exn) :
  In (Call c o) (trace_of (inference_loop fuel nsteps w io step it s)) ->
  is_alignment_call c = false.
Proof.
  revert step it s. induction fuel as [|fuel IH]; intros step it s Hin.
  - contradiction.
  - destruct (iter_next w it) as [x c0 it'| |e] eqn:Hnext.
    + erewrite loop_yield in Hin by eassumption.
      destruct (extract_coords x c0) as [[[xs c'] names]|e].
      2:{ cbn in Hin. destruct Hin as [[= <- _]|[[= <- _]|[]]]; reflexivity. }
      destruct (io_write io xs c' names s) as [[e|] s1].
      { cbn in Hin.
        destruct Hin as [[= <- _]|[[= <- _]|[[= <- _]|[]]]]; reflexivity. }
      destruct (step =? nsteps)%Z.
      { cbn in Hin.
        destruct Hin as [[= <- _]|[[= <- _]|[[= <- _]|[Hin|[]]]]];
          try reflexivity; discriminate Hin. }
      specialize (IH (step + 1)%Z it' s1).
      destruct (inference_loop fuel nsteps w io (step + 1) it' s1)
        as [[r s2] t]. cbn in Hin, IH.
      destruct Hin as [[= <- _]|[[= <- _]|[[= <- _]|[Hin|Hin]]]];
        try reflexivity; [discriminate Hin | now apply IH].
    + rewrite loop_stop in Hin by assumption. cbn in Hin.
      destruct Hin as [Hin|[]]. discriminate Hin.
    + erewrite loop_raise in Hin by eassumption. cbn in Hin.
      destruct Hin as [[= <- _]|[]]. reflexivity.
Qed.
End LoopCalls.

(** ** From the preparation and the loop to the run *)

Section RunTransfer.
Context {E : Env}.
Variables (time : list TimeLike) (nsteps nensemble : Z)
          (prognostic : PrognosticModel) (w : Omega) (data : DataSource)
          (io : IOBackend).

Notation prep := (prepare time nsteps nensemble prognostic w data io).
Notation run fuel :=
  (run_ensemble fuel time nsteps nensemble prognostic w data io).

(** Around the loop there are the events of the preparation, the opening
    of the bar and the epilogue; none of them is a write. *)
Lemma framed_writes (t1 t2 tail : list event) (total : Z) :
  writes t1 = [] -> Forall (fun ev => is_call ev = false) tail ->
  writes (t1 ++ PbarOpen total :: t2 ++ tail) = writes t2 /\
  write_steps (t1 ++ PbarOpen total :: t2 ++ tail) = write_steps t2.
Proof.
  intros H1 Htail. destruct (no_call_no_write Htail) as (Hw & _).
  split.
  - rewrite writes_app, H1. cbn [app].
    change (PbarOpen total :: t2 ++ tail) with ([PbarOpen total] ++ t2 ++ tail).
    rewrite !writes_app, Hw. cbn. apply app_nil_r.
  - rewrite write_steps_app, (write_steps_none _ H1). cbn [app].
    change (PbarOpen total :: t2 ++ tail) with ([PbarOpen total] ++ t2 ++ tail).
    rewrite !write_steps_app, (write_steps_none _ Hw). cbn. apply app_nil_r.
Qed.

Lemma framed_count (p : event -> bool) (t1 t2 tail : list event) (total : Z) :
  count p (t1 ++ PbarOpen total :: t2 ++ tail)
  = count p t1 + (if p (PbarOpen total) then 1 else 0) + count p t2
    + count p tail.
Proof. rewrite count_app, count_cons, count_app. lia. Qed.

(** An event that the loop never emits and that is a call comes from the
    preparation. *)
Lemma run_call_in_prepare (p : event -> bool) (fuel : nat) (s : SinkState)
    (ev : event) :
  p ev = true -> is_call ev = true ->
  (forall it s1 ev',
     In ev' (trace_of (inference_loop fuel nsteps w io 0 it s1)) ->
     p ev' = false) ->
  In ev (trace_of (run fuel s)) -> In ev (trace_of (prep s)).
Proof.
  intros Hp Hcall Hloop.
  destruct (run_cases time nsteps nensemble prognostic w data io fuel s)
    as [(e & _ & Hrun)|(it & s1 & t1 & _ & Hprep & Hrun)];
    cbv zeta in Hrun; rewrite Hrun, trace_of_triple; [auto|].
  rewrite Hprep, trace_of_triple. intros Hin.
  apply in_app_or in Hin as [Hin|[<-|Hin]]; [assumption|discriminate|].
  exfalso. apply in_app_or in Hin as [Hin|Hin].
  - apply Hloop in Hin. congruence.
  - pose proof (run_epilogue_no_call io
                  (outcome_of (inference_loop fuel nsteps w io 0 it s1)))
      as Hno.
    rewrite Forall_forall in Hno. specialize (Hno ev Hin). congruence.
Qed.

Lemma run_fetch_in_prepare (fuel : nat) (s : SinkState) (ev : event) :
  is_fetch ev = true ->
  In ev (trace_of (run fuel s)) -> In ev (trace_of (prep s)).
Proof.
  intros Hev. apply (run_call_in_prepare is_fetch); auto.
  - destruct ev as [| [] | | | |]; now try discriminate.
  - intros it s1 ev' Hin.
    destruct (loop_no_declaration nsteps w io fuel 0%Z it s1) as [_ Hf].
    destruct (is_fetch ev') eqn:He; [|reflexivity].
    assert (Hin' : In ev' (filter is_fetch
              (trace_of (inference_loop fuel nsteps w io 0 it s1))))
      by (apply filter_In; now split).
    rewrite Hf in Hin'. contradiction.
Qed.

Lemma run_alignment_in_prepare (fuel : nat) (s : SinkState) (c : call)
    (o : option exn) :
  is_alignment_call c = true ->
  In (Call c o) (trace_of (run fuel s)) -> In (Call c o) (trace_of (prep s)).
Proof.
  intros Hc.
  apply (run_call_in_prepare
           (fun ev => match ev with
                      | Call c' _ => is_alignment_call c'
                      | _ => false
                      end)); auto.
  intros it s1 [| c' o' | | | |] Hin; try reflexivity.
  eapply loop_no_alignment; eauto.
Qed.
End RunTransfer.

(** ** Edge behaviour, bounds and accounting of [run_ensemble] *)

Section FurtherProperties.
Context {E : Env}.
Variables (time : list TimeLike) (nsteps nensemble : Z)
          (prognostic : PrognosticModel) (data : DataSource)
          (io : IOBackend).

Notation prep w := (prepare time nsteps nensemble prognostic w data io).
Notation run fuel w :=
  (run_ensemble fuel time nsteps nensemble prognostic w data io).

(** X1. A prognostic sequence that ends after [m <= nsteps] elements ends
    the [for] loop without an error: a run that does not fail completes,
    returns [io] and has made only [m] writes, at indices [0 .. m-1]; the
    missing lead times are not reported. *)
Theorem early_end_truncates_silently (fuel m : nat) (w : Omega)
    (s : SinkState) :
  (forall p x c it, create_iterator p w x c = Ok it -> ends_after w m it) ->
  (Z.of_nat m <= nsteps)%Z ->
  m < fuel ->
  (forall e, outcome_of (run fuel w s) <> Failed e) ->
  outcome_of (run fuel w s) = Done io /\
  length (writes (trace_of (run fuel w s))) = m /\
  write_steps (trace_of (run fuel w s)) = map Z.of_nat (seq 0 m) /\
  In (Exhausted (Z.of_nat m)) (trace_of (run fuel w s)).
Proof.
  intros Hend Hm Hfuel Hok.
  destruct (run_cases time nsteps nensemble prognostic w data io fuel s)
    as [(e & _ & Hrun)|(it & s1 & t1 & Hprep & _ & Hrun)];
    cbv zeta in Hrun; rewrite Hrun in Hok |- *.
  { now destruct (Hok e). }
  pose proof (prepared_trace Hprep) as (_ & Hw1 & _).
  assert (Hit : ends_after w m it) by (destruct Hprep; eauto).
  assert (Hbody : forall e,
             outcome_of (inference_loop fuel nsteps w io 0 it s1)
             <> Failed e).
  { intros e He. apply (Hok e). rewrite outcome_of_triple, He.
    reflexivity. }
  destruct (@loop_exhausts _ nsteps w io fuel m 0%Z it s1 Hit)
    as (Hdone & _ & Hlen & Hin); auto.
  pose proof (@loop_write_steps _ nsteps w io fuel 0%Z it s1) as Hsteps.
  cbv zeta in Hsteps. rewrite Hlen in Hsteps.
  destruct (@framed_writes _ t1
              (trace_of (inference_loop fuel nsteps w io 0 it s1))
              _ (nsteps + 1)%Z Hw1
              (run_epilogue_no_call io
                 (outcome_of (inference_loop fuel nsteps w io 0 it s1))))
    as [Hw Hs].
  rewrite outcome_of_triple, !trace_of_triple, Hw, Hs, Hdone, Hsteps.
  repeat split; auto.
  apply in_or_app. right. right. apply in_or_app. now left.
Qed.

(** X2. With [nsteps >= 0] no run, completed, failed or cut short, asks the
    model for more than [nsteps + 1] elements or writes more than once per
    element, and its writes are made at the consecutive indices
    [0, 1, 2, ...]. *)
Theorem never_more_than_nsteps_plus_one (fuel : nat) (w : Omega)
    (s : SinkState) :
  (0 <= nsteps)%Z ->
  count is_next (trace_of (run fuel w s)) <= Z.to_nat (nsteps + 1) /\
  length (writes (trace_of (run fuel w s)))
    <= count is_next (trace_of (run fuel w s)) /\
  write_steps (trace_of (run fuel w s))
  = map Z.of_nat (seq 0 (length (writes (trace_of (run fuel w s))))).
Proof.
  intros Hn.
  destruct (run_cases time nsteps nensemble prognostic w data io fuel s)
    as [(e & _ & Hrun)|(it & s1 & t1 & Hprep & Hp & Hrun)];
    cbv zeta in Hrun; rewrite Hrun, !trace_of_triple.
  - destruct (prepare_progress time nsteps nensemble prognostic w data io s)
      as (_ & _ & _ & _ & Hnext).
    rewrite Hnext, (write_steps_none _ (prepare_writes _ _ _ _ _ _ _ _)),
      prepare_writes.
    cbn. repeat split; lia.
  - pose proof (prepared_trace Hprep) as (_ & Hw1 & _).
    destruct (prepare_progress time nsteps nensemble prognostic w data io s)
      as (_ & _ & _ & _ & Hnext).
    rewrite Hp, trace_of_triple in Hnext.
    destruct (@framed_writes _ t1
                (trace_of (inference_loop fuel nsteps w io 0 it s1))
                _ (nsteps + 1)%Z Hw1
                (run_epilogue_no_call io
                   (outcome_of (inference_loop fuel nsteps w io 0 it s1))))
      as [Hw Hs].
    rewrite Hw, Hs, framed_count, Hnext. cbn [is_next].
    assert (Htail : count is_next (snd (run_epilogue io
               (outcome_of (inference_loop fuel nsteps w io 0 it s1)))) = 0)
      by (destruct (outcome_of _); reflexivity).
    rewrite Htail.
    destruct (@loop_bounded _ nsteps w io fuel 0%Z it s1 Hn) as [Hb1 Hb2].
    replace (nsteps - 0 + 1)%Z with (nsteps + 1)%Z in Hb1 by lia.
    pose proof (@loop_write_steps _ nsteps w io fuel 0%Z it s1) as Hsteps.
    cbv zeta in Hsteps. repeat split; try lia. exact Hsteps.
Qed.

(** X3. The progress bar follows the writes and is closed on every exit:
    it is updated once per returned write, opened at most once and with
    total [nsteps + 1], and closed as many times as opened in every run
    that terminates, also when the loop fails. *)
Theorem progress_bar_follows_writes (fuel : nat) (w : Omega)
    (s : SinkState) :
  count is_pbar_update (trace_of (run fuel w s))
    = count is_returned_write (trace_of (run fuel w s)) /\
  count is_pbar_open (trace_of (run fuel w s)) <= 1 /\
  (forall total, In (PbarOpen total) (trace_of (run fuel w s)) ->
                 total = (nsteps + 1)%Z) /\
  count is_pbar_close (trace_of (run fuel w s))
    = match outcome_of (run fuel w s) with
      | OutOfFuel => 0
      | _ => count is_pbar_open (trace_of (run fuel w s))
      end.
Proof.
  destruct (prepare_progress time nsteps nensemble prognostic w data io s)
    as (Hu & Ho & Hc & Hr & _).
  assert (Hnone : forall total, ~ In (PbarOpen total) (trace_of (prep w s))).
  { intros total Hin.
    assert (Hin' : In (PbarOpen total) (filter is_pbar_open
                                          (trace_of (prep w s))))
      by (apply filter_In; now split).
    unfold count in Ho. apply length_zero_iff_nil in Ho.
    rewrite Ho in Hin'. contradiction. }
  destruct (run_cases time nsteps nensemble prognostic w data io fuel s)
    as [(e & _ & Hrun)|(it & s1 & t1 & _ & Hp & Hrun)];
    cbv zeta in Hrun; rewrite Hrun, outcome_of_triple, !trace_of_triple.
  - rewrite Hu, Ho, Hr, Hc. repeat split; auto.
    intros total Hin. now destruct (Hnone total).
  - rewrite Hp, trace_of_triple in Hu, Ho, Hc, Hr, Hnone.
    destruct (@loop_progress _ nsteps w io fuel 0%Z it s1)
      as (Lu & Lo & Lc).
    rewrite !framed_count, Hu, Ho, Hc, Hr, Lu, Lo, Lc.
    cbn [is_pbar_update is_pbar_open is_pbar_close is_returned_write].
    repeat split.
    + destruct (outcome_of (inference_loop fuel nsteps w io 0 it s1));
        reflexivity.
    + destruct (outcome_of (inference_loop fuel nsteps w io 0 it s1));
        cbn; lia.
    + intros total Hin.
      apply in_app_or in Hin as [Hin|[[= <-]|Hin]];
        [now destruct (Hnone total) | reflexivity |].
      exfalso. apply in_app_or in Hin as [Hin|Hin].
      * assert (Hin' : In (PbarOpen total) (filter is_pbar_open
                  (trace_of (inference_loop fuel nsteps w io 0 it s1))))
          by (apply filter_In; now split).
        unfold count in Lo. apply length_zero_iff_nil in Lo.
        rewrite Lo in Hin'. contradiction.
      * destruct (outcome_of (inference_loop fuel nsteps w io 0 it s1));
          cbn in Hin; intuition discriminate.
    + destruct (outcome_of (inference_loop fuel nsteps w io 0 it s1));
        reflexivity.
Qed.

(** X4. A negative [nensemble] is not checked on entry: the run goes as far
    as the data source, and fails when [repeat] refuses the negative size,
    with a [RuntimeError], before anything is declared or written to the
    sink. *)
Theorem negative_nensemble_fails_at_broadcast (fuel : nat) (w : Omega)
    (s : SinkState) :
  (nensemble < 0)%Z ->
  exists e,
    outcome_of (run fuel w s) = Failed e /\
    declarations (trace_of (run fuel w s)) = [] /\
    writes (trace_of (run fuel w s)) = [] /\
    sink_of (run fuel w s) = s /\
    (forall tm lt var d,
       In (Call (CallFetchData tm lt var d) None) (trace_of (run fuel w s)) ->
       exists msg, e = RuntimeError msg).
Proof.
  intros Hneg.
  destruct (@prepare_negative_members _ time nsteps nensemble prognostic w
              data io s Hneg)
    as (e & He & Hd & Hs & Hfetch).
  rewrite (@run_of_failed_prepare _ time nsteps nensemble prognostic w data io
             fuel s e He).
  rewrite outcome_of_triple, trace_of_triple, sink_of_triple.
  exists e. repeat split; auto. apply prepare_writes.
Qed.

(** X5. If the coordinates the data source returns have no ["variable"]
    entry, [total_coords.pop("variable")] raises [KeyError] once the data
    is fetched: the run fails with nothing declared or written. The
    ensemble size is not negative and the lead-time axis can be built. *)
Theorem unnamed_coordinates_fail_before_declaration (fuel : nat) (w : Omega)
    (s : SinkState) :
  (forall tm lt var d x c,
     fetch_data data tm lt var d = Ok (x, c) -> Dict.get "variable" c = None) ->
  (0 <= nensemble)%Z ->
  (forall p', exists lead, lead_time_axis p' nsteps = Ok lead) ->
  exists e,
    outcome_of (run fuel w s) = Failed e /\
    declarations (trace_of (run fuel w s)) = [] /\
    writes (trace_of (run fuel w s)) = [] /\
    sink_of (run fuel w s) = s /\
    (forall tm lt var d,
       In (Call (CallFetchData tm lt var d) None) (trace_of (run fuel w s)) ->
       e = KeyError "variable").
Proof.
  intros Hnone Hpos Hlead.
  destruct (@prepare_unnamed _ time nsteps nensemble prognostic w data io s
              Hnone Hpos Hlead)
    as (e & He & Hd & Hs & Hfetch).
  rewrite (@run_of_failed_prepare _ time nsteps nensemble prognostic w data io
             fuel s e He).
  rewrite outcome_of_triple, trace_of_triple, sink_of_triple.
  exists e. repeat split; auto. apply prepare_writes.
Qed.

(** X6. When the model outputs several lead times per step, the declared
    lead-time axis is the rows [lead * i], [i = 0 .. nsteps], laid end to
    end: [(nsteps + 1) * len(lead)] entries, in that order. The products
    are those of NumPy's 64-bit timedelta arithmetic, and are exact where
    none of them overflows. *)
Theorem lead_time_axis_stacks_rows (fuel : nat) (w : Omega) (s : SinkState)
    (lead : list Z) (sc : CoordSystem float) (names : Np.ndarray float)
    (o : option exn) :
  (0 <= nsteps)%Z ->
  (forall p', prognostic_to prognostic selected_device = Ok p' ->
     Dict.get "lead_time" (output_coords p')
     = Some (Np.ArrTimedelta float lead)) ->
  In (Call (CallAddArray sc names) o) (trace_of (run fuel w s)) ->
  Dict.get "lead_time" sc
  = Some (Np.ArrTimedelta float (stacked_lead_times lead nsteps)) /\
  length (stacked_lead_times lead nsteps)
  = Z.to_nat (nsteps + 1) * length lead /\
  ((forall v, In v lead -> no_overflow v nsteps) ->
   stacked_lead_times lead nsteps = exact_lead_times lead nsteps).
Proof.
  intros Hn Hlead Hin.
  apply run_declaration_in_prepare in Hin; [|reflexivity].
  apply prepare_schema in Hin
    as (p' & tm & lt & var & x0 & c0 & Hto & _ & Hout).
  apply output_schema_ok in Hout as (_ & l & Hl & Hget).
  apply (lead_time_axis_stacked _ Hn (Hlead _ Hto)) in Hl. subst l.
  split; [exact Hget|]. split.
  - apply stacked_lead_times_length.
  - apply stacked_lead_times_exact.
Qed.

(** X7. With [nsteps < 0] the schema is declared all the same, with an
    empty lead-time axis (of NumPy's default dtype, not a timedelta). *)
Theorem negative_nsteps_declares_empty_axis (fuel : nat) (w : Omega)
    (s : SinkState) (sc : CoordSystem float) (names : Np.ndarray float)
    (o : option exn) :
  (nsteps < 0)%Z ->
  In (Call (CallAddArray sc names) o) (trace_of (run fuel w s)) ->
  Dict.get "lead_time" sc = Some (Np.ArrFloat []).
Proof.
  intros Hn Hin.
  apply run_declaration_in_prepare in Hin; [|reflexivity].
  apply prepare_schema in Hin
    as (p' & tm & lt & var & x0 & c0 & _ & _ & Hout).
  apply output_schema_ok in Hout as (_ & l & Hl & Hget).
  rewrite (lead_time_axis_negative _ Hn) in Hl. now injection Hl as <-.
Qed.

(** X8. The trace accounts for the sink: its final state is the initial
    state after the recorded [io.add_array] and [io.write] calls, in the
    recorded order, each of which returned or raised as recorded. Nothing
    else in [run_ensemble] touches the sink. *)
Theorem sink_changes_only_by_recorded_calls (fuel : nat) (w : Omega)
    (s : SinkState) :
  replays io s (trace_of (run fuel w s)) (sink_of (run fuel w s)).
Proof.
  pose proof (prepare_replays time nsteps nensemble prognostic w data io s)
    as Hprep.
  destruct (run_cases time nsteps nensemble prognostic w data io fuel s)
    as [(e & _ & Hrun)|(it & s1 & t1 & _ & Hp & Hrun)];
    cbv zeta in Hrun; rewrite Hrun, trace_of_triple, sink_of_triple;
    [exact Hprep|].
  rewrite Hp, trace_of_triple, sink_of_triple in Hprep.
  eapply replays_app; [exact Hprep|].
  cbn [replays]. eapply replays_app; [apply loop_replays|].
  apply replays_no_call, run_epilogue_no_call.
Qed.

(** X9. A failure between the declaration and the loop -- coordinate
    alignment, the perturbation, the addition of its noise, the creation of
    the iterator -- leaves the sink declared and empty: the schema was
    accepted, nothing is written, and the sink stays as [io.add_array] left
    it. *)
Theorem alignment_failure_leaves_declared_sink (fuel : nat) (w : Omega)
    (s : SinkState) (c : call) (e : exn) :
  In (Call c (Some e)) (trace_of (run fuel w s)) ->
  is_alignment_call c = true ->
  outcome_of (run fuel w s) = Failed e /\
  writes (trace_of (run fuel w s)) = [] /\
  exists sc names,
    declarations (trace_of (run fuel w s))
    = [Call (CallAddArray sc names) None] /\
    io_add_array io sc names s = (None, sink_of (run fuel w s)).
Proof.
  intros Hin Hc. apply run_alignment_in_prepare in Hin; [|assumption].
  destruct (@prepare_alignment_failure _ time nsteps nensemble prognostic w
              data io s c e Hin Hc)
    as (He & Hw & sc & names & Hd & Hs).
  rewrite (@run_of_failed_prepare _ time nsteps nensemble prognostic w data io
             fuel s e He).
  rewrite outcome_of_triple, trace_of_triple, sink_of_triple. eauto 8.
Qed.

(** X10. The data source is asked at most once, on the selected device,
    for the resolved times and for the lead times and variables the model
    moved to that device declares as its input coordinates. *)
Theorem fetch_uses_model_input_coords (fuel : nat) (w : Omega)
    (s : SinkState) (tm lt var : Np.ndarray float) (d : device)
    (o : option exn) :
  In (Call (CallFetchData tm lt var d) o) (trace_of (run fuel w s)) ->
  count is_fetch (trace_of (run fuel w s)) = 1 /\
  exists p',
    prognostic_to prognostic selected_device = Ok p' /\
    to_time_array time = Ok tm /\
    Dict.get "lead_time" (input_coords p') = Some lt /\
    Dict.get "variable" (input_coords p') = Some var /\
    d = selected_device.
Proof.
  intros Hin.
  assert (Hone : count is_fetch (trace_of (run fuel w s)) <= 1).
  { destruct (run_cases time nsteps nensemble prognostic w data io fuel s)
      as [(e & _ & Hrun)|(it & s1 & t1 & _ & Hp & Hrun)];
      cbv zeta in Hrun; rewrite Hrun, trace_of_triple.
    - apply prepare_fetch_once.
    - pose proof (prepare_fetch_once time nsteps nensemble prognostic w data
                    io s) as H1.
      rewrite Hp, trace_of_triple in H1.
      destruct (loop_no_declaration nsteps w io fuel 0%Z it s1) as [_ Hf].
      rewrite framed_count. unfold count at 2. rewrite Hf. cbn [is_fetch length].
      assert (Htail : count is_fetch (snd (run_epilogue io
                 (outcome_of (inference_loop fuel nsteps w io 0 it s1)))) = 0)
        by (destruct (outcome_of _); reflexivity).
      lia. }
  split.
  - assert (Hpos : In (Call (CallFetchData tm lt var d) o)
                      (filter is_fetch (trace_of (run fuel w s))))
      by (apply filter_In; now split).
    unfold count in *.
    destruct (filter is_fetch (trace_of (run fuel w s))); [contradiction|].
    cbn in Hone |- *. lia.
  - apply run_fetch_in_prepare in Hin; [|reflexivity].
    apply prepare_fetch in Hin as (p' & H1 & H2 & H3 & H4 & H5 & _).
    eauto 8.
Qed.

(** X11. If the model moved to the device has no ["lead_time"] or no
    ["variable"] input coordinate, the run fails on that lookup, with a
    [KeyError] once the times are resolved, before the data source is asked
    and before the sink is called. *)
Theorem missing_input_coords_fail_before_fetch (fuel : nat) (w : Omega)
    (s : SinkState) :
  (forall p', prognostic_to prognostic selected_device = Ok p' ->
     Dict.get "lead_time" (input_coords p') = None \/
     Dict.get "variable" (input_coords p') = None) ->
  exists e,
    outcome_of (run fuel w s) = Failed e /\
    filter is_fetch (trace_of (run fuel w s)) = [] /\
    declarations (trace_of (run fuel w s)) = [] /\
    writes (trace_of (run fuel w s)) = [] /\
    sink_of (run fuel w s) = s /\
    (In (Call (CallToTimeArray time) None) (trace_of (run fuel w s)) ->
     e = KeyError "lead_time" \/ e = KeyError "variable").
Proof.
  intros Hnone.
  destruct (@prepare_without_input_coords _ time nsteps nensemble prognostic
              w data io s Hnone) as (e & He & Hf & Hd & Hs & Hk).
  rewrite (@run_of_failed_prepare _ time nsteps nensemble prognostic w data io
             fuel s e He).
  rewrite outcome_of_triple, trace_of_triple, sink_of_triple.
  exists e. repeat split; auto. apply prepare_writes.
Qed.

(** X12. The broadcast keeps the state well formed: it adds one axis, and
    the result holds [nensemble] times the elements of the fetched tensor,
    as many as its shape announces. *)
Theorem broadcast_is_well_formed (x xe : Torch.Tensor float) :
  Torch.wf x ->
  expand_ensemble nensemble x = Ok xe ->
  Torch.wf xe /\
  Torch.ndim xe = S (Torch.ndim x) /\
  Torch.numel (Torch.shape xe)
  = Z.to_nat nensemble * Torch.numel (Torch.shape x).
Proof.
  intros Hwf Hxe.
  rewrite expand_ensemble_spec in Hxe;
    [| eapply expand_ensemble_nonneg; eauto | assumption].
  injection Hxe as <-. unfold Torch.wf, Torch.ndim in *.
  cbn [Torch.shape Torch.data length Torch.numel fold_right].
  fold (Torch.numel (Torch.shape x)).
  rewrite length_concat_repeat, Hwf. auto.
Qed.
End FurtherProperties.

(** ** The further properties at concrete inputs *)

(** X1 at [Demo.short_sequence]: the sequence ends after two elements,
    three steps were asked for, the run completes with two writes. *)
Lemma early_end_demo :
  ((forall p x c it,
      @create_iterator (Demo.env 1 (Some 2%Z)) p 5 x c = Ok it ->
      @ends_after (Demo.env 1 (Some 2%Z)) 5 2 it) /\
   (Z.of_nat 2 <= 3)%Z /\ 2 < 9 /\
   (forall e, outcome_of Demo.short_sequence <> Failed e)) /\
  (outcome_of Demo.short_sequence = Done 7 /\
   length (writes (trace_of Demo.short_sequence)) = 2 /\
   write_steps (trace_of Demo.short_sequence) = map Z.of_nat (seq 0 2) /\
   In (@Exhausted (Demo.env 1 (Some 2%Z)) (Z.of_nat 2))
      (trace_of Demo.short_sequence)).
Proof.
  assert (H1 : forall p x c it,
             @create_iterator (Demo.env 1 (Some 2%Z)) p 5 x c = Ok it ->
             @ends_after (Demo.env 1 (Some 2%Z)) 5 2 it).
  { intros p x c it [= <-]. cbn.
    do 3 eexists. split; [reflexivity|].
    do 3 eexists. split; [reflexivity|]. reflexivity. }
  assert (H2 : (Z.of_nat 2 <= 3)%Z) by (cbn; lia).
  assert (H3 : 2 < 9) by lia.
  assert (H4 : forall e, outcome_of Demo.short_sequence <> Failed e)
    by (intros e; vm_compute; discriminate).
  split; [exact (conj H1 (conj H2 (conj H3 H4)))|].
  exact (@early_end_truncates_silently (Demo.env 1 (Some 2%Z)) Demo.new_year
           3 2 Demo.fcn Demo.gfs 7 9 2 5 Demo.empty_sink H1 H2 H3 H4).
Defined.

(** X2 at [Demo.forecast]. *)
Lemma never_more_than_nsteps_plus_one_demo :
  (0 <= 2)%Z /\
  (count (@is_next demo) (trace_of Demo.forecast) <= Z.to_nat (2 + 1) /\
   length (writes (trace_of Demo.forecast))
     <= count (@is_next demo) (trace_of Demo.forecast) /\
   write_steps (trace_of Demo.forecast)
   = map Z.of_nat (seq 0 (length (writes (trace_of Demo.forecast))))).
Proof.
  assert (H1 : (0 <= 2)%Z) by lia.
  split; [exact H1|].
  exact (@never_more_than_nsteps_plus_one demo Demo.new_year 2 2 Demo.fcn
           Demo.gfs 7 3 5 Demo.empty_sink H1).
Defined.

(** X4 at [Demo.negative_members]. *)
Lemma negative_nensemble_demo :
  (-1 < 0)%Z /\
  exists e,
    outcome_of Demo.negative_members = Failed e /\
    declarations (trace_of Demo.negative_members) = [] /\
    writes (trace_of Demo.negative_members) = [] /\
    sink_of Demo.negative_members = Demo.empty_sink /\
    (forall tm lt var d,
       In (@Call demo (@CallFetchData demo tm lt var d) None)
          (trace_of Demo.negative_members) ->
       exists msg, e = RuntimeError msg).
Proof.
  assert (H1 : (-1 < 0)%Z) by lia.
  split; [exact H1|].
  exact (@negative_nensemble_fails_at_broadcast demo Demo.new_year 2 (-1)
           Demo.fcn Demo.gfs 7 3 5 Demo.empty_sink H1).
Defined.

(** X5 at a data source that does not name the variables. *)
Lemma unnamed_coordinates_demo :
  ((forall tm lt var d x c,
      @fetch_data (Demo.faulty_env Demo.unnamed) Demo.gfs tm lt var d
      = Ok (x, c) ->
      Dict.get "variable" c = None) /\
   (0 <= 2)%Z /\
   (forall p', exists lead,
      @lead_time_axis (Demo.faulty_env Demo.unnamed) p' 2 = Ok lead)) /\
  exists e,
    outcome_of (Demo.faulty_run Demo.unnamed 2) = Failed e /\
    declarations (trace_of (Demo.faulty_run Demo.unnamed 2)) = [] /\
    writes (trace_of (Demo.faulty_run Demo.unnamed 2)) = [] /\
    sink_of (Demo.faulty_run Demo.unnamed 2) = Demo.empty_sink /\
    (forall tm lt var d,
       In (@Call (Demo.faulty_env Demo.unnamed)
             (@CallFetchData (Demo.faulty_env Demo.unnamed) tm lt var d) None)
          (trace_of (Demo.faulty_run Demo.unnamed 2)) ->
       e = KeyError "variable").
Proof.
  assert (H1 : forall tm lt var d x c,
             @fetch_data (Demo.faulty_env Demo.unnamed) Demo.gfs tm lt var d
             = Ok (x, c) ->
             Dict.get "variable" c = None).
  { intros tm lt var d x c. cbn. unfold Demo.fetch_unnamed, Demo.fetch.
    cbn. intros [= <- <-]. reflexivity. }
  assert (H2 : (0 <= 2)%Z) by lia.
  assert (H3 : forall p', exists lead,
             @lead_time_axis (Demo.faulty_env Demo.unnamed) p' 2 = Ok lead)
    by (intros p'; eexists; reflexivity).
  split; [exact (conj H1 (conj H2 H3))|].
  exact (@unnamed_coordinates_fail_before_declaration
           (Demo.faulty_env Demo.unnamed) Demo.new_year 2 2 Demo.fcn Demo.gfs
           7 3 5 Demo.empty_sink H1 H2 H3).
Defined.

(** X6 at a model that outputs the lead times [6, 12] at every step. *)
Lemma lead_time_axis_stacks_rows_demo :
  ((0 <= 2)%Z /\
   (forall p',
      @prognostic_to (Demo.faulty_env Demo.doubled) Demo.fcn
        (@selected_device (Demo.faulty_env Demo.doubled)) = Ok p' ->
      Dict.get "lead_time" (@output_coords (Demo.faulty_env Demo.doubled) p')
      = Some (Np.ArrTimedelta Z [6; 12]%Z)) /\
   In (@Call (Demo.faulty_env Demo.doubled)
         (@CallAddArray (Demo.faulty_env Demo.doubled) Demo.doubled_schema
            Demo.forecast_channels) None)
      (trace_of (Demo.faulty_run Demo.doubled 2))) /\
  (Dict.get "lead_time" Demo.doubled_schema
   = Some (Np.ArrTimedelta Z (stacked_lead_times [6; 12]%Z 2)) /\
   length (stacked_lead_times [6; 12]%Z 2) = Z.to_nat (2 + 1) * 2 /\
   ((forall v, In v [6; 12]%Z -> no_overflow v 2) ->
    stacked_lead_times [6; 12]%Z 2 = exact_lead_times [6; 12]%Z 2)).
Proof.
  assert (H1 : (0 <= 2)%Z) by lia.
  assert (H2 : forall p',
             @prognostic_to (Demo.faulty_env Demo.doubled) Demo.fcn
               (@selected_device (Demo.faulty_env Demo.doubled)) = Ok p' ->
             Dict.get "lead_time"
               (@output_coords (Demo.faulty_env Demo.doubled) p')
             = Some (Np.ArrTimedelta Z [6; 12]%Z))
    by (intros p' [= <-]; reflexivity).
  assert (H3 : In (@Call (Demo.faulty_env Demo.doubled)
                     (@CallAddArray (Demo.faulty_env Demo.doubled)
                        Demo.doubled_schema Demo.forecast_channels) None)
                  (trace_of (Demo.faulty_run Demo.doubled 2))).
  { apply nth_error_In with (n := 6). vm_compute. reflexivity. }
  split; [exact (conj H1 (conj H2 H3))|].
  exact (@lead_time_axis_stacks_rows (Demo.faulty_env Demo.doubled)
           Demo.new_year 2 2 Demo.fcn Demo.gfs 7 3 5 Demo.empty_sink
           [6; 12]%Z Demo.doubled_schema Demo.forecast_channels None
           H1 H2 H3).
Defined.

(** X7 at [Demo.runaway], where [nsteps = -1]. *)
Lemma negative_nsteps_schema_demo :
  ((-1 < 0)%Z /\
   In (@Call demo (@CallAddArray demo Demo.runaway_schema
                     Demo.forecast_channels) None)
      (trace_of Demo.runaway)) /\
  Dict.get "lead_time" Demo.runaway_schema = Some (Np.ArrFloat []).
Proof.
  assert (H1 : (-1 < 0)%Z) by lia.
  assert (H2 : In (@Call demo (@CallAddArray demo Demo.runaway_schema
                                 Demo.forecast_channels) None)
                  (trace_of Demo.runaway)).
  { apply nth_error_In with (n := 6). vm_compute. reflexivity. }
  split; [exact (conj H1 H2)|].
  exact (@negative_nsteps_declares_empty_axis demo Demo.new_year (-1) 2
           Demo.fcn Demo.gfs 7 4 5 Demo.empty_sink Demo.runaway_schema
           Demo.forecast_channels None H1 H2).
Defined.

(** X9 at a perturbation whose noise has the wrong shape: the in-place
    addition fails, the schema stays declared, nothing is stored. *)
Lemma alignment_failure_demo :
  (In (@Call (Demo.faulty_env Demo.misshapen)
         (@CallIAdd (Demo.faulty_env Demo.misshapen))
         (Some (RuntimeError
                  "output shape does not match the broadcast shape")))
      (trace_of (Demo.faulty_run Demo.misshapen 2)) /\
   @is_alignment_call (Demo.faulty_env Demo.misshapen)
     (@CallIAdd (Demo.faulty_env Demo.misshapen)) = true) /\
  (outcome_of (Demo.faulty_run Demo.misshapen 2)
   = Failed (RuntimeError "output shape does not match the broadcast shape") /\
   writes (trace_of (Demo.faulty_run Demo.misshapen 2)) = [] /\
   exists sc names,
     declarations (trace_of (Demo.faulty_run Demo.misshapen 2))
     = [@Call (Demo.faulty_env Demo.misshapen)
          (@CallAddArray (Demo.faulty_env Demo.misshapen) sc names) None] /\
     Demo.add_array 7 sc names Demo.empty_sink
     = (None, sink_of (Demo.faulty_run Demo.misshapen 2))).
Proof.
  assert (H1 : In (@Call (Demo.faulty_env Demo.misshapen)
                     (@CallIAdd (Demo.faulty_env Demo.misshapen))
                     (Some (RuntimeError
                        "output shape does not match the broadcast shape")))
                  (trace_of (Demo.faulty_run Demo.misshapen 2))).
  { apply nth_error_In with (n := 9). vm_compute. reflexivity. }
  assert (H2 : @is_alignment_call (Demo.faulty_env Demo.misshapen)
                 (@CallIAdd (Demo.faulty_env Demo.misshapen)) = true)
    by reflexivity.
  split; [exact (conj H1 H2)|].
  exact (@alignment_failure_leaves_declared_sink
           (Demo.faulty_env Demo.misshapen) Demo.new_year 2 2 Demo.fcn
           Demo.gfs 7 3 5 Demo.empty_sink
           (@CallIAdd (Demo.faulty_env Demo.misshapen))
           (RuntimeError "output shape does not match the broadcast shape")
           H1 H2).
Defined.

(** X10 at [Demo.forecast]: one request, for the model's input lead time
    and variables, on the CPU. *)
Lemma fetch_arguments_demo :
  In (@Call demo
        (@CallFetchData demo (Np.ArrDatetime Z [19723%Z])
           (Np.ArrTimedelta Z [0%Z]) (Np.ArrStr Z (Demo.variables Demo.fcn))
           Cpu) None)
     (trace_of Demo.forecast) /\
  (count (@is_fetch demo) (trace_of Demo.forecast) = 1 /\
   exists p',
     @prognostic_to demo Demo.fcn (@selected_device demo) = Ok p' /\
     @to_time_array demo Demo.new_year = Ok (Np.ArrDatetime Z [19723%Z]) /\
     Dict.get "lead_time" (@input_coords demo p')
     = Some (Np.ArrTimedelta Z [0%Z]) /\
     Dict.get "variable" (@input_coords demo p')
     = Some (Np.ArrStr Z (Demo.variables Demo.fcn)) /\
     Cpu = @selected_device demo).
Proof.
  assert (H1 : In (@Call demo
                     (@CallFetchData demo (Np.ArrDatetime Z [19723%Z])
                        (Np.ArrTimedelta Z [0%Z])
                        (Np.ArrStr Z (Demo.variables Demo.fcn)) Cpu) None)
                  (trace_of Demo.forecast)).
  { apply nth_error_In with (n := 4). vm_compute. reflexivity. }
  split; [exact H1|].
  exact (@fetch_uses_model_input_coords demo Demo.new_year 2 2 Demo.fcn
           Demo.gfs 7 3 5 Demo.empty_sink (Np.ArrDatetime Z [19723%Z])
           (Np.ArrTimedelta Z [0%Z]) (Np.ArrStr Z (Demo.variables Demo.fcn))
           Cpu None H1).
Defined.

(** X11 at a model without an input lead time. *)
Lemma missing_input_coords_demo :
  (forall p',
     @prognostic_to (Demo.faulty_env Demo.leadless) Demo.fcn
       (@selected_device (Demo.faulty_env Demo.leadless)) = Ok p' ->
     Dict.get "lead_time" (@input_coords (Demo.faulty_env Demo.leadless) p')
     = None \/
     Dict.get "variable" (@input_coords (Demo.faulty_env Demo.leadless) p')
     = None) /\
  exists e,
    outcome_of (Demo.faulty_run Demo.leadless 2) = Failed e /\
    filter (@is_fetch (Demo.faulty_env Demo.leadless))
           (trace_of (Demo.faulty_run Demo.leadless 2)) = [] /\
    declarations (trace_of (Demo.faulty_run Demo.leadless 2)) = [] /\
    writes (trace_of (Demo.faulty_run Demo.leadless 2)) = [] /\
    sink_of (Demo.faulty_run Demo.leadless 2) = Demo.empty_sink /\
    (In (@Call (Demo.faulty_env Demo.leadless)
           (@CallToTimeArray (Demo.faulty_env Demo.leadless) Demo.new_year)
           None)
        (trace_of (Demo.faulty_run Demo.leadless 2)) ->
     e = KeyError "lead_time" \/ e = KeyError "variable").
Proof.
  assert (H1 : forall p',
             @prognostic_to (Demo.faulty_env Demo.leadless) Demo.fcn
               (@selected_device (Demo.faulty_env Demo.leadless)) = Ok p' ->
             Dict.get "lead_time"
               (@input_coords (Demo.faulty_env Demo.leadless) p') = None \/
             Dict.get "variable"
               (@input_coords (Demo.faulty_env Demo.leadless) p') = None)
    by (intros p' _; left; reflexivity).
  split; [exact H1|].
  exact (@missing_input_coords_fail_before_fetch
           (Demo.faulty_env Demo.leadless) Demo.new_year 2 2 Demo.fcn
           Demo.gfs 7 3 5 Demo.empty_sink H1).
Defined.

(** X12 at the tensor [Demo.forecast] is served. *)
Lemma broadcast_is_well_formed_demo :
  (Torch.wf Demo.served /\
   @expand_ensemble demo 2 Demo.served = Ok Demo.served_twice) /\
  (Torch.wf Demo.served_twice /\
   Torch.ndim Demo.served_twice = S (Torch.ndim Demo.served) /\
   Torch.numel (Torch.shape Demo.served_twice)
   = Z.to_nat 2 * Torch.numel (Torch.shape Demo.served)).
Proof.
  assert (H1 : Torch.wf Demo.served) by reflexivity.
  assert (H2 : @expand_ensemble demo 2 Demo.served = Ok Demo.served_twice)
    by reflexivity.
  split; [exact (conj H1 H2)|].
  exact (@broadcast_is_well_formed demo 2 Demo.served Demo.served_twice
           H1 H2).
Defined.

(** ** An ensemble entry from the data source, and the completion message *)

Section UnionOverride.
Variable V : Type.

(** [d1 | d2] takes the value of [d2] at every key of [d2]. *)
Lemma get_union_override (k : string) (v : V) (d1 d2 : Dict.t V) :
  Dict.wf d2 -> Dict.get k d2 = Some v ->
  Dict.get k (Dict.union d1 d2) = Some v.
Proof.
  unfold Dict.union, Dict.wf. revert d1.
  induction d2 as [|[k2 v2] d2 IH]; intros d1 Hnd Hk; [discriminate|].
  cbn in Hnd, Hk |- *. inversion Hnd as [|? ? Hfresh Hnd']; subst.
  destruct (String.eqb_spec k k2) as [->|Hne].
  - injection Hk as ->.
    change (fold_left (fun acc kv => Dict.set (fst kv) (snd kv) acc) d2
              (Dict.set k2 v d1))
      with (Dict.union (Dict.set k2 v d1) d2).
    rewrite get_union_absent
      by (now apply DictFacts.get_none_iff).
    apply DictFacts.get_set_same.
  - now apply IH.
Qed.

(** Assignments and deletions of other keys leave the first key first. *)
Lemma set_keeps_head (k k0 : string) (v : V) (d : Dict.t V) :
  hd_error (Dict.keys d) = Some k0 ->
  hd_error (Dict.keys (Dict.set k v d)) = Some k0.
Proof.
  destruct d as [|[k1 v1] d]; [discriminate|]. cbn. intros [= ->].
  now destruct (String.eqb_spec k k0) as [->|Hne].
Qed.

Lemma union_keeps_head (k0 : string) (d1 d2 : Dict.t V) :
  hd_error (Dict.keys d1) = Some k0 ->
  hd_error (Dict.keys (Dict.union d1 d2)) = Some k0.
Proof.
  unfold Dict.union. revert d1.
  induction d2 as [|[k2 v2] d2 IH]; intros d1 Hd; [assumption|].
  cbn. apply IH. now apply set_keeps_head.
Qed.

Lemma remove_keeps_head (k k0 : string) (d : Dict.t V) :
  k <> k0 -> hd_error (Dict.keys d) = Some k0 ->
  hd_error (Dict.keys (Dict.remove k d)) = Some k0.
Proof.
  intros Hne. destruct d as [|[k1 v1] d]; [discriminate|]. cbn.
  intros [= ->]. now destruct (String.eqb_spec k k0) as [->|_].
Qed.
End UnionOverride.

Section LoopLogs.
Context {E : Env}.
Variables (nsteps : Z) (w : Omega) (io : IOBackend).

(** The loop logs nothing. *)
Lemma loop_no_log (fuel : nat) (step : Z) (it : Iterator) (s : SinkState)
    (l : level) (msg : string) :
  ~ In (Log l msg) (trace_of (inference_loop fuel nsteps w io step it s)).
Proof.
  revert step it s. induction fuel as [|fuel IH]; intros step it s Hin.
  - contradiction.
  - destruct (iter_next w it) as [x c0 it'| |e] eqn:Hnext.
    + erewrite loop_yield in Hin by eassumption.
      destruct (extract_coords x c0) as [[[xs c'] names]|e].
      2:{ cbn in Hin. intuition discriminate. }
      destruct (io_write io xs c' names s) as [[e|] s1].
      { cbn in Hin. intuition discriminate. }
      destruct (step =? nsteps)%Z.
      { cbn in Hin. intuition discriminate. }
      specialize (IH (step + 1)%Z it' s1).
      destruct (inference_loop fuel nsteps w io (step + 1) it' s1)
        as [[r s2] t]. cbn in Hin, IH.
      destruct Hin as [Hin|[Hin|[Hin|[Hin|Hin]]]];
        try discriminate Hin. now apply IH.
    + rewrite loop_stop in Hin by assumption. cbn in Hin.
      intuition discriminate.
    + erewrite loop_raise in Hin by eassumption. cbn in Hin.
      intuition discriminate.
Qed.
End LoopLogs.

Section SchemaAndLog.
Context {E : Env}.
Variables (time : list TimeLike) (nsteps nensemble : Z)
          (prognostic : PrognosticModel) (data : DataSource)
          (io : IOBackend).

Notation prep w := (prepare time nsteps nensemble prognostic w data io).
Notation run fuel w :=
  (run_ensemble fuel time nsteps nensemble prognostic w data io).

(** The preparation does not log the completion message. *)
Lemma prepare_no_completion_log (w : Omega) (s : SinkState) :
  ~ In (Log SUCCESS "Inference complete") (trace_of (prep w s)).
Proof.
  prepare_cases; cbn; intuition discriminate.
Qed.

(** X13. The ensemble axis is always declared first; but if the
    coordinates from the data source already have an ["ensemble"] entry,
    the dictionary union of line 131 takes its value from them: the schema
    is declared with the fetched entry, not with [np.arange(nensemble)]. *)
Theorem fetched_ensemble_entry_wins (fuel : nat) (w : Omega) (s : SinkState)
    (v : Np.ndarray float) (sc : CoordSystem float)
    (names : Np.ndarray float) (o : option exn) :
  (forall tm lt var d x c,
     fetch_data data tm lt var d = Ok (x, c) ->
     Dict.wf c /\ Dict.get "ensemble" c = Some v) ->
  In (Call (CallAddArray sc names) o) (trace_of (run fuel w s)) ->
  Dict.get "ensemble" sc = Some v /\
  hd_error (Dict.keys sc) = Some "ensemble"%string.
Proof.
  intros Hfetch Hin.
  apply run_declaration_in_prepare in Hin; [|reflexivity].
  apply prepare_schema in Hin
    as (p' & tm & lt & var & x0 & c0 & _ & Hf & Hout).
  destruct (Hfetch _ _ _ _ _ _ Hf) as [Hwf Hv].
  unfold output_schema in Hout.
  destruct (lead_time_axis p' nsteps) as [lead|e]; [|discriminate].
  cbn [result_bind] in Hout. unfold Dict.pop in Hout.
  destruct (Dict.get "variable" _) as [names'|]; [|discriminate].
  injection Hout as <- <-. split.
  - rewrite DictFacts.get_remove_other by discriminate.
    rewrite DictFacts.get_set_other by discriminate.
    now apply get_union_override.
  - apply remove_keeps_head; [discriminate|].
    apply set_keeps_head. now apply union_keeps_head.
Qed.

(** X14. The message ["Inference complete"] is logged only by runs that
    complete, and a run that completes ends with closing the progress bar
    and logging it. *)
Theorem completion_is_logged_only_on_success (fuel : nat) (w : Omega)
    (s : SinkState) :
  (In (Log SUCCESS "Inference complete") (trace_of (run fuel w s)) ->
   outcome_of (run fuel w s) = Done io) /\
  (outcome_of (run fuel w s) = Done io ->
   exists t, trace_of (run fuel w s)
             = t ++ [PbarClose; Log SUCCESS "Inference complete"]).
Proof.
  pose proof (@prepare_no_completion_log w s) as Hprep.
  destruct (run_cases time nsteps nensemble prognostic w data io fuel s)
    as [(e & _ & Hrun)|(it & s1 & t1 & _ & Hp & Hrun)];
    cbv zeta in Hrun; rewrite Hrun, outcome_of_triple, trace_of_triple.
  - split; [intros Hin; now destruct Hprep | discriminate].
  - rewrite Hp, trace_of_triple in Hprep.
    pose proof (@loop_no_log _ nsteps w io fuel 0%Z it s1 SUCCESS
                  "Inference complete") as Hloop.
    destruct (outcome_of (inference_loop fuel nsteps w io 0 it s1))
      as [[]|e|]; cbn [run_epilogue fst snd]; split;
      try discriminate; try reflexivity.
    + intros _.
      exists (t1 ++ PbarOpen (nsteps + 1)
                 :: trace_of (inference_loop fuel nsteps w io 0 it s1)).
      rewrite <- app_assoc. reflexivity.
    + intros Hin. exfalso.
      apply in_app_or in Hin as [Hin|[Hin|Hin]];
        [tauto | discriminate |].
      apply in_app_or in Hin as [Hin|Hin]; [tauto|].
      cbn in Hin. intuition discriminate.
    + intros Hin. exfalso.
      apply in_app_or in Hin as [Hin|[Hin|Hin]];
        [tauto | discriminate |].
      apply in_app_or in Hin as [Hin|Hin]; [tauto|].
      cbn in Hin. intuition discriminate.
Qed.
End SchemaAndLog.

(** X13 at a data source that labels three members [10, 11, 12], asked for
    two members. *)
Lemma fetched_ensemble_entry_demo :
  ((forall tm lt var d x c,
      @fetch_data (Demo.faulty_env Demo.labelled) Demo.gfs tm lt var d
      = Ok (x, c) ->
      Dict.wf c /\
      Dict.get "ensemble" c = Some (Np.ArrInt Z [10; 11; 12]%Z)) /\
   In (@Call (Demo.faulty_env Demo.labelled)
         (@CallAddArray (Demo.faulty_env Demo.labelled) Demo.labelled_schema
            Demo.forecast_channels) None)
      (trace_of (Demo.faulty_run Demo.labelled 2))) /\
  (Dict.get "ensemble" Demo.labelled_schema
   = Some (Np.ArrInt Z [10; 11; 12]%Z) /\
   hd_error (Dict.keys Demo.labelled_schema) = Some "ensemble"%string).
Proof.
  assert (H1 : forall tm lt var d x c,
             @fetch_data (Demo.faulty_env Demo.labelled) Demo.gfs tm lt var d
             = Ok (x, c) ->
             Dict.wf c /\
             Dict.get "ensemble" c = Some (Np.ArrInt Z [10; 11; 12]%Z)).
  { intros tm lt var d x c. cbn. unfold Demo.fetch_labelled, Demo.fetch.
    cbn. intros [= <- <-]. split; [|reflexivity].
    unfold Dict.wf. cbn.
    repeat (constructor; [cbn; intuition discriminate|]). constructor. }
  assert (H2 : In (@Call (Demo.faulty_env Demo.labelled)
                     (@CallAddArray (Demo.faulty_env Demo.labelled)
                        Demo.labelled_schema Demo.forecast_channels) None)
                  (trace_of (Demo.faulty_run Demo.labelled 2))).
  { apply nth_error_In with (n := 6). vm_compute. reflexivity. }
  split; [exact (conj H1 H2)|].
  exact (@fetched_ensemble_entry_wins (Demo.faulty_env Demo.labelled)
           Demo.new_year 2 2 Demo.fcn Demo.gfs 7 3 5 Demo.empty_sink
           (Np.ArrInt Z [10; 11; 12]%Z) Demo.labelled_schema
           Demo.forecast_channels None H1 H2).
Defined.
